(** * dropbox-mcp: token store, authorization flow and upload engine

    A shallow embedding of the Go packages [config], [auth], [dropbox],
    [handlers] and [main], followed by the properties the design document
    states about them and by further properties of the code.

    Conventions of the embedding:
    - a Go [string] is a [string]; a [[]byte] is a [list byte];
    - an [int] or [uint64] is a [Z], with the wrap-around of [uint64]
      addition written out ([wrap64]);
    - a Go [error] is a value of [error]; a function returning [(T, error)]
      returns a [result T];
    - a pointer receiver that is mutated in place becomes state passing;
    - the remote provider (the SDK's [files.Client] interface) and the
      readers ([io.Reader]) are records of operations over an explicit
      state. *)

From Stdlib Require Import ZArith NArith List String Ascii Bool Lia.
From Stdlib Require Import Strings.Byte DecimalString.
Import ListNotations.

Local Open Scope string_scope.
Local Open Scope Z_scope.

(** ** Errors *)

(** [error]: the sentinel [io.EOF] is compared by identity in the source
    ([err == io.EOF]); every other error is known by its message. *)
Inductive error : Type :=
| io_EOF
| errorString (msg : string).

(** [err.Error()] *)
Definition Error (e : error) : string :=
  match e with
  | io_EOF => "EOF"
  | errorString m => m
  end.

(** [fmt.Errorf(prefix + "%w", err)] *)
Definition Errorf_w (prefix : string) (e : error) : error :=
  errorString (prefix ++ Error e).

(** [fmt.Errorf(prefix + "%s", s)] *)
Definition Errorf_s (prefix : string) (s : string) : error :=
  errorString (prefix ++ s).

(** [err == io.EOF] *)
Definition is_EOF (e : option error) : bool :=
  match e with
  | Some io_EOF => true
  | _ => false
  end.

(** A Go [(T, error)] return: [inl v] is [(v, nil)], [inr e] is [(nil, e)]. *)
Definition result (A : Type) : Type := (A + error)%type.

(** [s == ""] *)
Definition is_empty (s : string) : bool := (s =? "")%string.

(** ** Package [time] *)
Module time.

(** [time.Duration]: a count of nanoseconds. *)
Definition Duration : Type := Z.
Definition Nanosecond : Duration := 1.
Definition Second : Duration := 1000000000 * Nanosecond.
Definition Minute : Duration := 60 * Second.

(** [time.Time] as an instant: nanoseconds elapsed since the zero time
    (January 1, year 1, 00:00:00 UTC). *)
Definition Time : Type := Z.

Definition IsZero (t : Time) : bool := t =? 0.
Definition Add (t : Time) (d : Duration) : Time := t + d.
Definition After (t u : Time) : bool := u <? t.
Definition Before (t u : Time) : bool := t <? u.
(** [t.UTC()] changes the location, not the instant. *)
Definition UTC (t : Time) : Time := t.

End time.

(** ** Package [config]: the token store *)
Module config.

Record Config : Type := mkConfig {
  ClientID : string;
  ClientSecret : string;
  AccessToken : string;
  RefreshToken : string;
  ExpiresAt : time.Time
}.

(** [&Config{}], what [Load] returns when no file exists. *)
Definition empty : Config := mkConfig "" "" "" "" 0.

(** [func (c *Config) IsTokenValid() bool]; [now] is [time.Now()]. *)
Definition IsTokenValid (now : time.Time) (c : Config) : bool :=
  if is_empty (AccessToken c) then false
  else if time.IsZero (ExpiresAt c) then true
  else time.Before now (ExpiresAt c).

(** [func (c *Config) NeedsRefresh() bool]; [now] is [time.Now()]. *)
Definition NeedsRefresh (now : time.Time) (c : Config) : bool :=
  if is_empty (RefreshToken c) then false
  else if time.IsZero (ExpiresAt c) then false
  else time.After (time.Add now (5 * time.Minute)) (ExpiresAt c).

(** [func (c *Config) UpdateTokens(accessToken, refreshToken string,
    expiresAt time.Time)]: the three assignments, in order. *)
Definition UpdateTokens (c : Config) (accessToken refreshToken : string)
    (expiresAt : time.Time) : Config :=
  let c1 := mkConfig (ClientID c) (ClientSecret c) accessToken
                     (RefreshToken c) (ExpiresAt c) in
  let c2 := if negb (is_empty refreshToken)
            then mkConfig (ClientID c1) (ClientSecret c1) (AccessToken c1)
                          refreshToken (ExpiresAt c1)
            else c1 in
  mkConfig (ClientID c2) (ClientSecret c2) (AccessToken c2)
           (RefreshToken c2) expiresAt.

End config.

(** ** Package [auth]: the authorization flow *)
Module auth.

Definition AuthorizeURL : string := "https://www.dropbox.com/oauth2/authorize".
Definition TokenURL : string := "https://api.dropboxapi.com/oauth2/token".

Record OAuthConfig : Type := mkOAuthConfig {
  ClientID : string;
  ClientSecret : string;
  RedirectURI : string
}.

Record AuthResult : Type := mkAuthResult {
  AccessToken : string;
  RefreshToken : string;
  ExpiresAt : time.Time
}.

(** The fields of [oauth2.Token] the flow reads. *)
Record Token : Type := mkToken {
  Token_AccessToken : string;
  Token_RefreshToken : string;
  Token_Expiry : time.Time
}.

(** *** [encoding/hex] *)

Definition hextable : string := "0123456789abcdef".

Definition hexdigit (n : N) : ascii :=
  match String.get (N.to_nat n) hextable with
  | Some c => c
  | None => "0"%char
  end.

(** [hex.EncodeToString]: two lower-case digits per byte. *)
Fixpoint EncodeToString (b : list byte) : string :=
  match b with
  | [] => ""
  | x :: b' =>
      String (hexdigit (N.div (Byte.to_N x) 16))
        (String (hexdigit (N.modulo (Byte.to_N x) 16)) (EncodeToString b'))
  end.

(** [generateState]: [rand] is what [rand.Read] leaves in the 16-byte
    buffer, or its error. *)
Definition generateState (rand : result (list byte)) : result string :=
  match rand with
  | inr err => inr err
  | inl b => inl (EncodeToString b)
  end.

(** *** [net/url] and [net/http] *)

(** [url.Values], in the order of the query string. *)
Definition Values : Type := list (string * string).

(** [Values.Get]: the first value of the key, or the empty string. *)
Fixpoint Get (v : Values) (key : string) : string :=
  match v with
  | [] => ""
  | (k, x) :: v' => if (k =? key)%string then x else Get v' key
  end.

(** The parts of [*http.Request] the handler reads: [r.URL.Path] and
    [r.URL.Query()]. *)
Record Request : Type := mkRequest {
  Path : string;
  Query : Values
}.

Definition StatusBadRequest : Z := 400.
Definition StatusNotFound : Z := 404.
Definition StatusInternalServerError : Z := 500.
Definition StatusOK : Z := 200.

(** [resultChan] and [errorChan] as a goroutine finds them: each has room
    for one value, and holds one or none. *)
Record Chans : Type := mkChans {
  resultChan : option AuthResult;
  errorChan : option error
}.

(** [make(chan *AuthResult, 1)] and [make(chan error, 1)] *)
Definition make_chans : Chans := mkChans None None.

(** What a goroutine of the server does, in program order. A send on a
    channel whose slot is taken does not complete: the goroutine waits
    there. The flow receives at most one value, and closes the server
    after it, so a goroutine that waits is not followed further. *)
Inductive Action : Type :=
| HttpError (msg : string) (code : Z)   (* http.Error(w, msg, code) *)
| SendError (e : error)                 (* errorChan <- e, completed *)
| SendResult (r : AuthResult)           (* resultChan <- r, completed *)
| Exchange (code : string)              (* oauth2Config.Exchange(ctx, code) *)
| SuccessPage                           (* Content-Type header and the HTML page *)
| WaitError (e : error)                 (* errorChan <- e, waiting for room *)
| WaitResult (r : AuthResult).          (* resultChan <- r, waiting for room *)

(** [http.NotFound(w, r)] *)
Definition NotFound : Action := HttpError "404 page not found" StatusNotFound.

(** [errorChan <- e] and the statements [rest] after it. *)
Definition send_error (e : error) (rest : list Action) (ch : Chans)
    : list Action * Chans :=
  match errorChan ch with
  | None => (SendError e :: rest, mkChans (resultChan ch) (Some e))
  | Some _ => ([WaitError e], ch)
  end.

(** [resultChan <- r] and the statements [rest] after it. *)
Definition send_result (r : AuthResult) (rest : list Action) (ch : Chans)
    : list Action * Chans :=
  match resultChan ch with
  | None => (SendResult r :: rest, mkChans (Some r) (errorChan ch))
  | Some _ => ([WaitResult r], ch)
  end.

(** The [http.HandlerFunc] of [StartOAuthFlow]. [state] is the generated
    state the closure captures; [exchange] is the provider's answer to
    [oauth2Config.Exchange]; [ch] are the channels as the handler finds
    them. The result is what the handler does, up to its return or to the
    send it waits at, and the channels afterwards. *)
Definition callback (state : string) (exchange : string -> result Token)
    (r : Request) (ch : Chans) : list Action * Chans :=
  if negb (Path r =? "/callback")%string then ([NotFound], ch)
  else
    let queryState := Get (Query r) "state" in
    if negb (queryState =? state)%string then
      send_error (errorString "state mismatch")
        [HttpError "State mismatch" StatusBadRequest] ch
    else
      let code := Get (Query r) "code" in
      if is_empty code then
        let errorMsg := Get (Query r) "error_description" in
        let errorMsg := if is_empty errorMsg then Get (Query r) "error"
                        else errorMsg in
        send_error (Errorf_s "authorization failed: " errorMsg)
          [HttpError "Authorization failed" StatusBadRequest] ch
      else
        let '(acts, ch') :=
          match exchange code with
          | inr err =>
              send_error (Errorf_w "token exchange failed: " err)
                [HttpError "Token exchange failed" StatusInternalServerError] ch
          | inl token =>
              send_result
                (mkAuthResult (Token_AccessToken token)
                   (Token_RefreshToken token) (Token_Expiry token))
                [SuccessPage] ch
          end in
        (Exchange code :: acts, ch').

(** The status line the HTTP client receives: the code of [http.Error], or
    200 once the page is written. *)
Fixpoint response_status (acts : list Action) : option Z :=
  match acts with
  | [] => None
  | HttpError _ code :: _ => Some code
  | SuccessPage :: _ => Some StatusOK
  | _ :: acts' => response_status acts'
  end.

(** The failure the handler has put on [errorChan], if any. *)
Fixpoint signalled_error (acts : list Action) : option error :=
  match acts with
  | [] => None
  | SendError e :: _ => Some e
  | _ :: acts' => signalled_error acts'
  end.

(** Whether the handler calls the token endpoint. *)
Definition exchanges (acts : list Action) : bool :=
  existsb (fun a => match a with Exchange _ => true | _ => false end) acts.


(** The text of the provider a failure carries: [error_description], or
    [error] when that is empty (the local [errorMsg] of the handler). *)
Definition provider_text (q : Values) : string :=
  if is_empty (Get q "error_description") then Get q "error"
  else Get q "error_description".


(** *** [StartOAuthFlow] *)

(** [oauth2Config.AuthCodeURL(state, SetAuthURLParam("token_access_type",
    "offline"))]: the endpoint and the query parameters, in the sorted
    order of [Values.Encode]. [Scopes] is empty, so no [scope]. *)
Definition AuthCodeURL (config : OAuthConfig) (redirectURI state : string)
    : string * Values :=
  (AuthorizeURL,
   ([("client_id", ClientID config)]
    ++ (if is_empty redirectURI then [] else [("redirect_uri", redirectURI)])
    ++ [("response_type", "code")]
    ++ (if is_empty state then [] else [("state", state)])
    ++ [("token_access_type", "offline")])%list).

(** The case of the [select] that fires. *)
Inductive Case : Type :=
| RecvResult (r : AuthResult)   (* case result := <-resultChan *)
| RecvError (e : error)         (* case err := <-errorChan *)
| RecvTimeout.                  (* case <-time.After(5 * time.Minute) *)

(** What the callback server does to the two channels while the caller is
    in the [select]: for each channel, the value that becomes receivable
    and the time, counted from the entry into the [select], at which it
    does (zero or less: already buffered at entry). [pick] is the
    runtime's choice when several cases are ready at the same time. *)
Record Wait : Type := mkWait {
  result_ready : option (time.Duration * AuthResult);
  error_ready : option (time.Duration * error);
  pick : nat
}.

Definition timeout : time.Duration := 5 * time.Minute.

(** The cases of the [select] with the time at which each becomes ready. *)
Definition cases (w : Wait) : list (time.Duration * Case) :=
  ((match result_ready w with
    | Some (t, r) => [(Z.max 0 t, RecvResult r)]
    | None => []
    end)
   ++ (match error_ready w with
       | Some (t, e) => [(Z.max 0 t, RecvError e)]
       | None => []
       end)
   ++ [(timeout, RecvTimeout)])%list.

Definition earliest (cs : list (time.Duration * Case)) : time.Duration :=
  fold_right (fun c m => Z.min (fst c) m) timeout cs.

(** The cases ready at the moment the [select] stops blocking. *)
Definition ready_first (w : Wait) : list (time.Duration * Case) :=
  filter (fun c => fst c =? earliest (cases w)) (cases w).

(** [select]: blocks until a case is ready and takes one of the ready
    cases. *)
Definition select (w : Wait) : Case :=
  nth (Nat.modulo (pick w) (List.length (ready_first w)))
      (map snd (ready_first w)) RecvTimeout.

(** The effects of the flow on the process, in program order. *)
Inductive Event : Type :=
| EvListen (port : Z)                    (* net.Listen bound the port *)
| EvServe                                (* go server.Serve(listener) *)
| EvOpenURL (url : string * Values)      (* browser.OpenURL(authURL) *)
| EvServerClose                          (* server.Close() *)
| EvListenerClose.                       (* the deferred listener.Close() *)

(** Whether the port is bound after the events: [server.Close] closes the
    listener it serves, [listener.Close] closes it too. *)
Definition bound (tr : list Event) : bool :=
  fold_left (fun b ev =>
               match ev with
               | EvListen _ => true
               | EvServerClose => false
               | EvListenerClose => false
               | _ => b
               end) tr false.

(** The result the handler puts on [resultChan], if any. *)
Fixpoint sent_result (acts : list Action) : option AuthResult :=
  match acts with
  | [] => None
  | SendResult r :: _ => Some r
  | _ :: acts' => sent_result acts'
  end.

(** The environment of one call. [requests] are the requests the server
    handles, in the order in which their handlers reach their channel send,
    each with the time of that send counted from the entry into the
    [select]; [serve_failure] is [server.Serve] returning an error other
    than [http.ErrServerClosed]. *)
Record Env : Type := mkEnv {
  rand_Read : result (list byte);    (* crypto/rand *)
  net_Listen : result Z;             (* the port, or the bind error *)
  browser_OpenURL : option error;
  exchange : string -> result Token; (* the token endpoint *)
  requests : list (time.Duration * Request);
  serve_failure : option (time.Duration * error);
  runtime_pick : nat
}.

(** The first value a handler sends on [resultChan]. Each handler finds
    the channels as the handlers before it left them. *)
Fixpoint first_result (state : string) (exchange : string -> result Token)
    (reqs : list (time.Duration * Request)) (ch : Chans)
    : option (time.Duration * AuthResult) :=
  match reqs with
  | [] => None
  | (t, r) :: reqs' =>
      let '(acts, ch') := callback state exchange r ch in
      match sent_result acts with
      | Some res => Some (t, res)
      | None => first_result state exchange reqs' ch'
      end
  end.

(** The first value a handler sends on [errorChan]. *)
Fixpoint first_error (state : string) (exchange : string -> result Token)
    (reqs : list (time.Duration * Request)) (ch : Chans)
    : option (time.Duration * error) :=
  match reqs with
  | [] => None
  | (t, r) :: reqs' =>
      let '(acts, ch') := callback state exchange r ch in
      match signalled_error acts with
      | Some e => Some (t, e)
      | None => first_error state exchange reqs' ch'
      end
  end.

Definition earlier {A : Type} (a b : option (time.Duration * A))
    : option (time.Duration * A) :=
  match a, b with
  | Some (ta, _), Some (tb, _) => if ta <=? tb then a else b
  | Some _, None => a
  | None, _ => b
  end.

(** What the goroutines of the server make of the two channels, which
    are empty when the server starts: the handler of [StartOAuthFlow],
    closed over [state], runs on every request, and the goroutine of
    [server.Serve] sends the failure of [Serve] on [errorChan]. The value
    the flow can receive from a channel is the first one sent on it; a
    later send finds the slot taken. *)
Definition serve (state : string) (env : Env) : Wait :=
  mkWait
    (first_result state (exchange env) (requests env) make_chans)
    (earlier (first_error state (exchange env) (requests env) make_chans)
             (serve_failure env))
    (runtime_pick env).

(** [func StartOAuthFlow(config OAuthConfig)], returning an [AuthResult]
    pointer and an error: the returned pair and the events up to the
    return, the deferred [listener.Close()] included. *)
Definition StartOAuthFlow (env : Env) (config : OAuthConfig)
    : result AuthResult * list Event :=
  match generateState (rand_Read env) with
  | inr err => (inr (Errorf_w "failed to generate state: " err), [])
  | inl state =>
      match net_Listen env with
      | inr err => (inr (Errorf_w "failed to start local server: " err), [])
      | inl port =>
          let deferred (tr : list Event) := (tr ++ [EvListenerClose])%list in
          let redirectURI :=
            "http://localhost:" ++ NilEmpty.string_of_int (Z.to_int port)
            ++ "/callback" in
          let authURL := AuthCodeURL config redirectURI state in
          let tr := [EvListen port; EvServe; EvOpenURL authURL] in
          match browser_OpenURL env with
          | Some err =>
              (inr (Errorf_w "failed to open browser: " err), deferred tr)
          | None =>
              match select (serve state env) with
              | RecvResult r => (inl r, deferred (tr ++ [EvServerClose])%list)
              | RecvError err => (inr err, deferred (tr ++ [EvServerClose])%list)
              | RecvTimeout =>
                  (inr (errorString "authentication timeout"),
                   deferred (tr ++ [EvServerClose])%list)
              end
          end
      end
  end.

(** *** [ValidateToken] *)

(** The request [ValidateToken] sends. *)
Record CheckRequest : Type := mkCheckRequest {
  Req_Method : string;
  Req_URL : string;
  Req_Authorization : string;
  Req_ContentType : string
}.

(** [func ValidateToken(accessToken string) error]. [client_Do] is
    [client.Do]: the status code of the response, or the error of the
    transport. The request is built from a constant method and URL, which
    [http.NewRequestWithContext] accepts. Returns the error, if any, and
    the requests sent. *)
Definition ValidateToken (client_Do : CheckRequest -> result Z)
    (accessToken : string) : option error * list CheckRequest :=
  let req := mkCheckRequest "POST" "https://api.dropboxapi.com/2/check/user"
               ("Bearer " ++ accessToken) "application/json" in
  match client_Do req with
  | inr err => (Some err, [req])
  | inl StatusCode =>
      if negb (StatusCode =? StatusOK) then
        (Some (Errorf_s "invalid token: status "
                 (NilEmpty.string_of_int (Z.to_int StatusCode))), [req])
      else (None, [req])
  end.

(** *** [RefreshToken] *)

(** [func RefreshToken(config OAuthConfig, refreshToken string)].
    [tokenSource] is [oauth2Config.TokenSource(ctx, token).Token()]: the
    answer of the token endpoint to the client id, the client secret and
    the refresh token. *)
Definition RefreshToken_func
    (tokenSource : string -> string -> string -> result Token)
    (config : OAuthConfig) (refreshToken : string) : result AuthResult :=
  match tokenSource (ClientID config) (ClientSecret config) refreshToken with
  | inr err => inr (Errorf_w "failed to refresh token: " err)
  | inl newToken =>
      inl (mkAuthResult (Token_AccessToken newToken) (Token_RefreshToken newToken)
             (Token_Expiry newToken))
  end.

End auth.

(** The line feed. *)
Definition newline : ascii := "010"%char.

(** ** Bytes *)

(** [uint(b)], the value of a byte. *)
Definition byte_val (b : byte) : Z := Z.of_N (Byte.to_N b).

(** ** What the handlers answer *)

(** The values a handler puts into its answer (an [interface{}]); a map
    is the list of its keys and values. *)
#[warnings="-register-all"] Inductive Value : Type :=
| VString (s : string)
| VBool (b : bool)
| VInt (n : Z)
| VTime (t : time.Time)
| VMap (m : list (string * Value))
| VList (l : list Value).

(** ** Package [encoding/base64], as far as [Upload] relies on it *)
Module base64.

(** The alphabet of [StdEncoding]; the padding character is [=]. *)
Definition encodeStd : string :=
  "ABCDEFGHIJKLMNOPQRSTUVWXYZabcdefghijklmnopqrstuvwxyz0123456789+/".
Definition padChar : ascii := "="%char.

Fixpoint index_of (c : ascii) (alphabet : string) (i : Z) : Z :=
  match alphabet with
  | EmptyString => 255
  | String a rest => if (a =? c)%char then i else index_of c rest (i + 1)
  end.

(** [enc.decodeMap[c]]: the 6-bit value of [c], or [0xff]. *)
Definition decodeMap (c : ascii) : Z := index_of c encodeStd 0.

Definition is_newline (c : ascii) : bool :=
  (c =? "010")%char || (c =? "013")%char.

Fixpoint skip_newlines (src : list ascii) : list ascii :=
  match src with
  | [] => []
  | c :: rest => if is_newline c then skip_newlines rest else src
  end.

Definition byte_of (z : Z) : byte :=
  match Byte.of_N (Z.to_N (z mod 256)) with
  | Some b => b
  | None => x00
  end.

(** The last step of [decodeQuantum]: the four 6-bit values become three
    bytes, of which the first [dlen - 1] are written. *)
Definition quantum (d0 d1 d2 d3 : Z) (dlen : nat) : list byte :=
  let val := Z.lor (Z.shiftl d0 18)
               (Z.lor (Z.shiftl d1 12) (Z.lor (Z.shiftl d2 6) d3)) in
  firstn (dlen - 1)
    [byte_of (Z.shiftr val 16); byte_of (Z.shiftr val 8); byte_of val].

(** [CorruptInputError]; the byte index it carries is not modelled. *)
Definition CorruptInputError : error := errorString "illegal base64 data".

Definition emit (out : list byte) (r : result (list byte)) : result (list byte) :=
  match r with
  | inl rest => inl (out ++ rest)%list
  | inr e => inr e
  end.

(** [Encoding.Decode] for the padded, non-strict standard encoding: the
    input is consumed in quanta of four alphabet characters, carriage
    returns and line feeds are skipped, and padding is accepted only to
    complete the last quantum. [dbuf] holds the values of the quantum
    being read. *)
Fixpoint decode (src : list ascii) (dbuf : list Z) : result (list byte) :=
  match src with
  | [] =>
      match dbuf with
      | [] => inl []
      | _ => inr CorruptInputError
      end
  | c :: rest =>
      let out := decodeMap c in
      if negb (out =? 255) then
        match dbuf with
        | [d0; d1; d2] => emit (quantum d0 d1 d2 out 4) (decode rest [])
        | _ => decode rest (dbuf ++ [out])
        end
      else if is_newline c then decode rest dbuf
      else if negb (c =? padChar)%char then inr CorruptInputError
      else
        match dbuf with
        | [d0; d1] =>
            match skip_newlines rest with
            | [] => inr CorruptInputError
            | c2 :: rest2 =>
                if negb (c2 =? padChar)%char then inr CorruptInputError
                else match skip_newlines rest2 with
                     | [] => inl (quantum d0 d1 0 0 2)
                     | _ => inr CorruptInputError
                     end
            end
        | [d0; d1; d2] =>
            match skip_newlines rest with
            | [] => inl (quantum d0 d1 d2 0 3)
            | _ => inr CorruptInputError
            end
        | _ => inr CorruptInputError
        end
  end.

(** [base64.StdEncoding.DecodeString(s)]. The bytes Go returns next to a
    non-nil error are not modelled: no caller reads them. *)
Definition DecodeString (s : string) : result (list byte) :=
  decode (list_ascii_of_string s) [].

(** *** Encoding, as far as [HandleDownload] relies on it *)

(** [enc.encode[v]], for [v] below 64. *)
Definition encode_at (v : Z) : ascii :=
  nth (Z.to_nat v) (list_ascii_of_string encodeStd) Ascii.zero.

(** [Encoding.Encode] for the padded standard encoding: three bytes
    become four characters; a rest of one or two bytes becomes two or
    three characters, padded to four. *)
Fixpoint encode (src : list byte) : list ascii :=
  match src with
  | [] => []
  | [b0] =>
      let val := Z.shiftl (byte_val b0) 16 in
      [encode_at (Z.land (Z.shiftr val 18) 63);
       encode_at (Z.land (Z.shiftr val 12) 63);
       padChar; padChar]
  | [b0; b1] =>
      let val := Z.lor (Z.shiftl (byte_val b0) 16) (Z.shiftl (byte_val b1) 8) in
      [encode_at (Z.land (Z.shiftr val 18) 63);
       encode_at (Z.land (Z.shiftr val 12) 63);
       encode_at (Z.land (Z.shiftr val 6) 63);
       padChar]
  | b0 :: b1 :: b2 :: rest =>
      let val := Z.lor (Z.shiftl (byte_val b0) 16)
                   (Z.lor (Z.shiftl (byte_val b1) 8) (byte_val b2)) in
      encode_at (Z.land (Z.shiftr val 18) 63)
      :: encode_at (Z.land (Z.shiftr val 12) 63)
      :: encode_at (Z.land (Z.shiftr val 6) 63)
      :: encode_at (Z.land val 63)
      :: encode rest
  end.

(** [base64.StdEncoding.EncodeToString(src)] *)
Definition EncodeToString (src : list byte) : string :=
  string_of_list_ascii (encode src).

End base64.

(** ** Package [strings] *)
Module strings.

(** [strings.Contains(s, substr)] *)
Fixpoint Contains (s substr : string) : bool :=
  if String.prefix substr s then true
  else match s with
       | EmptyString => false
       | String _ s' => Contains s' substr
       end.

End strings.

(** ** Integers and slices *)

(** [len(b)] as an [int]. *)
Definition len {A : Type} (b : list A) : Z := Z.of_nat (List.length b).

(** The largest [int]: no slice is longer. *)
Definition MaxInt : Z := 2 ^ 63 - 1.

(** [uint64] arithmetic wraps. *)
Definition wrap64 (z : Z) : Z := z mod 2 ^ 64.

(** [b[:n]], for [n] up to [len(b)] and beyond (then all of [b]). *)
Fixpoint take {A : Type} (n : Z) (b : list A) : list A :=
  match b with
  | [] => []
  | x :: b' => if 0 <? n then x :: take (n - 1) b' else []
  end.

(** [b[n:]], for [n] up to [len(b)] and beyond (then empty). *)
Fixpoint drop {A : Type} (n : Z) (b : list A) : list A :=
  match b with
  | [] => []
  | x :: b' => if 0 <? n then drop (n - 1) b' else b
  end.

(** ** Packages [io] and [bytes] *)
Module io.

(** [io.Reader]: [Read(p)] is given [len(p)] and yields the bytes it
    stored in [p[:n]], the error, and the reader afterwards. *)
Record Reader (S : Type) : Type := mkReader {
  Read : S -> Z -> (list byte * option error) * S
}.
Arguments Read {S} _ _ _.

End io.

Module bytes.

(** [bytes.Reader]: the slice [s] and the read index [i]. *)
Record Reader : Type := mkReader {
  s : list byte;
  i : Z
}.

Definition NewReader (b : list byte) : Reader := mkReader b 0.

(** [func (r *Reader) Read(b []byte) (n int, err error)] *)
Definition Read (r : Reader) (len_b : Z) : (list byte * option error) * Reader :=
  if len (s r) <=? i r then (([], Some io_EOF), r)
  else
    let copied := take len_b (drop (i r) (s r)) in
    ((copied, None), mkReader (s r) (i r + len copied)).

Definition reader : io.Reader Reader := io.mkReader Reader Read.

End bytes.

(** ** The SDK's package [files], as far as the client uses it *)
Module files.

(** [WriteMode]: the tag of the union. *)
Record WriteMode : Type := mkWriteMode { Tag : string }.

Record CommitInfo : Type := mkCommitInfo {
  Path : string;
  Mode : WriteMode;
  Autorename : bool;
  ClientModified : option time.Time;
  Mute : bool;
  StrictConflict : bool
}.

Definition NewCommitInfo (path : string) : CommitInfo :=
  mkCommitInfo path (mkWriteMode "add") false None false false.

(** [UploadArg] embeds a [CommitInfo]. *)
Record UploadArg : Type := mkUploadArg {
  UploadArg_CommitInfo : CommitInfo;
  ContentHash : string
}.

Definition NewUploadArg (path : string) : UploadArg :=
  mkUploadArg (NewCommitInfo path) "".

Record UploadSessionStartArg : Type := mkUploadSessionStartArg {
  StartArg_Close : bool
}.

Definition NewUploadSessionStartArg : UploadSessionStartArg :=
  mkUploadSessionStartArg false.

Record UploadSessionStartResult : Type := mkUploadSessionStartResult {
  SessionId : string
}.

Record UploadSessionCursor : Type := mkUploadSessionCursor {
  Cursor_SessionId : string;
  Offset : Z
}.

Definition NewUploadSessionCursor (sessionId : string) (offset : Z)
    : UploadSessionCursor :=
  mkUploadSessionCursor sessionId offset.

Record UploadSessionAppendArg : Type := mkUploadSessionAppendArg {
  AppendArg_Cursor : UploadSessionCursor;
  AppendArg_Close : bool
}.

Definition NewUploadSessionAppendArg (cursor : UploadSessionCursor)
    : UploadSessionAppendArg :=
  mkUploadSessionAppendArg cursor false.

Record UploadSessionFinishArg : Type := mkUploadSessionFinishArg {
  FinishArg_Cursor : UploadSessionCursor;
  FinishArg_Commit : CommitInfo
}.

Definition NewUploadSessionFinishArg (cursor : UploadSessionCursor)
    (commit : CommitInfo) : UploadSessionFinishArg :=
  mkUploadSessionFinishArg cursor commit.

Record FileMetadata : Type := mkFileMetadata {
  Name : string;
  PathDisplay : string;
  Size : Z;
  ServerModified : time.Time;
  Rev : string
}.

(** The upload methods of the interface [files.Client]. [W] is the state
    of the provider; every call takes it and returns it changed. The
    [content] of a call is what the SDK reads from the reader it is
    handed. *)
Record Client (W : Type) : Type := mkClient {
  Upload : UploadArg -> list byte -> W -> result FileMetadata * W;
  UploadSessionStart :
    UploadSessionStartArg -> list byte -> W -> result UploadSessionStartResult * W;
  UploadSessionAppendV2 :
    UploadSessionAppendArg -> list byte -> W -> option error * W;
  UploadSessionFinish :
    UploadSessionFinishArg -> list byte -> W -> result FileMetadata * W
}.
Arguments Upload {W} _ _ _ _.
Arguments UploadSessionStart {W} _ _ _ _.
Arguments UploadSessionAppendV2 {W} _ _ _ _.
Arguments UploadSessionFinish {W} _ _ _ _.

(** *** A client that keeps a record of its calls *)

Inductive Call : Type :=
| CallUpload (arg : UploadArg) (content : list byte)
| CallStart (arg : UploadSessionStartArg) (content : list byte)
| CallAppend (arg : UploadSessionAppendArg) (content : list byte)
| CallFinish (arg : UploadSessionFinishArg) (content : list byte).

(** A call and whether it returned an error. *)
Record Entry : Type := mkEntry {
  call : Call;
  failed : bool
}.

Definition is_error {A : Type} (r : result A) : bool :=
  match r with
  | inl _ => false
  | inr _ => true
  end.

Definition is_some {A : Type} (o : option A) : bool :=
  match o with
  | Some _ => true
  | None => false
  end.

(** [logged c] answers as [c] does and appends every call to the log. *)
Definition logged {W : Type} (c : Client W) : Client (W * list Entry) :=
  mkClient (W * list Entry)
    (fun arg content '(w, log) =>
       let '(r, w') := Upload c arg content w in
       (r, (w', log ++ [mkEntry (CallUpload arg content) (is_error r)])%list))
    (fun arg content '(w, log) =>
       let '(r, w') := UploadSessionStart c arg content w in
       (r, (w', log ++ [mkEntry (CallStart arg content) (is_error r)])%list))
    (fun arg content '(w, log) =>
       let '(r, w') := UploadSessionAppendV2 c arg content w in
       (r, (w', log ++ [mkEntry (CallAppend arg content) (is_some r)])%list))
    (fun arg content '(w, log) =>
       let '(r, w') := UploadSessionFinish c arg content w in
       (r, (w', log ++ [mkEntry (CallFinish arg content) (is_error r)])%list)).

Definition is_append (c : Call) : bool :=
  match c with CallAppend _ _ => true | _ => false end.
Definition is_finish (c : Call) : bool :=
  match c with CallFinish _ _ => true | _ => false end.
Definition is_start (c : Call) : bool :=
  match c with CallStart _ _ => true | _ => false end.
Definition is_direct (c : Call) : bool :=
  match c with CallUpload _ _ => true | _ => false end.

(** *** Reading: [Download], [ListFolder] and [ListFolderContinue] *)

Record DownloadArg : Type := mkDownloadArg {
  DownloadArg_Path : string
}.

Definition NewDownloadArg (path : string) : DownloadArg := mkDownloadArg path.

(** The [io.ReadCloser] of a download, as what [io.ReadAll] gets from it:
    all the bytes, or the error of a read. *)
Definition ReadCloser : Type := result (list byte).

Record FolderMetadata : Type := mkFolderMetadata {
  Folder_Name : string;
  Folder_PathDisplay : string;
  Folder_Id : string
}.

(** [IsMetadata]: a file, a folder, or a deleted entry. *)
Inductive IsMetadata : Type :=
| File (m : FileMetadata)
| Folder (m : FolderMetadata)
| Deleted (name : string).

(** [ListFolderArg], as far as the client sets it. *)
Record ListFolderArg : Type := mkListFolderArg {
  ListFolderArg_Path : string;
  Recursive : bool;
  IncludeDeleted : bool
}.

Definition NewListFolderArg (path : string) : ListFolderArg :=
  mkListFolderArg path false false.

Record ListFolderContinueArg : Type := mkListFolderContinueArg {
  ContinueArg_Cursor : string
}.

Definition NewListFolderContinueArg (cursor : string) : ListFolderContinueArg :=
  mkListFolderContinueArg cursor.

Record ListFolderResult : Type := mkListFolderResult {
  Entries : list IsMetadata;
  Cursor : string;
  HasMore : bool
}.

(** The reading methods of the interface [files.Client]. *)
Record ReadClient (W : Type) : Type := mkReadClient {
  Download : DownloadArg -> W -> result (FileMetadata * ReadCloser) * W;
  ListFolder : ListFolderArg -> W -> result ListFolderResult * W;
  ListFolderContinue : ListFolderContinueArg -> W -> result ListFolderResult * W
}.
Arguments Download {W} _ _ _.
Arguments ListFolder {W} _ _ _.
Arguments ListFolderContinue {W} _ _ _.

End files.

(** ** The SDK's package [sharing], as far as the client uses it *)
Module sharing.

Record SharedLinkSettings : Type := mkSharedLinkSettings {
  Expires : option time.Time;
  LinkPassword : string
}.

Record CreateSharedLinkWithSettingsArg : Type := mkCreateSharedLinkWithSettingsArg {
  Path : string;
  Settings : option SharedLinkSettings
}.

Definition NewCreateSharedLinkWithSettingsArg (path : string)
    : CreateSharedLinkWithSettingsArg :=
  mkCreateSharedLinkWithSettingsArg path None.

(** The fields of a link the client and the handlers read. *)
Record LinkMetadata : Type := mkLinkMetadata {
  Url : string;
  Name : string;
  PathLower : string;
  Link_Expires : option time.Time
}.

(** [IsSharedLinkMetadata]: a [*FileLinkMetadata], a [*FolderLinkMetadata],
    or a value of neither type. *)
Inductive IsSharedLinkMetadata : Type :=
| FileLinkMetadata (l : LinkMetadata)
| FolderLinkMetadata (l : LinkMetadata)
| OtherLinkMetadata.

Record ListSharedLinksArg : Type := mkListSharedLinksArg {
  ListArg_Path : string;
  ListArg_Cursor : string
}.

Definition NewListSharedLinksArg : ListSharedLinksArg :=
  mkListSharedLinksArg "" "".

Record ListSharedLinksResult : Type := mkListSharedLinksResult {
  Links : list IsSharedLinkMetadata;
  HasMore : bool;
  Cursor : string
}.

Record RevokeSharedLinkArg : Type := mkRevokeSharedLinkArg {
  RevokeArg_Url : string
}.

Definition NewRevokeSharedLinkArg (url : string) : RevokeSharedLinkArg :=
  mkRevokeSharedLinkArg url.

(** The methods of the interface [sharing.Client] the client calls. *)
Record Client (W : Type) : Type := mkClient {
  CreateSharedLinkWithSettings :
    CreateSharedLinkWithSettingsArg -> W -> result IsSharedLinkMetadata * W;
  ListSharedLinks : ListSharedLinksArg -> W -> result ListSharedLinksResult * W;
  RevokeSharedLink : RevokeSharedLinkArg -> W -> option error * W
}.
Arguments CreateSharedLinkWithSettings {W} _ _ _.
Arguments ListSharedLinks {W} _ _ _.
Arguments RevokeSharedLink {W} _ _ _.

End sharing.

(** ** Package [dropbox]: the client *)
Module dropbox.

(** [func isBase64(s string) bool] *)
Definition isBase64 (s : string) : bool :=
  match base64.DecodeString s with
  | inl _ => true
  | inr _ => false
  end.

(** *** [NewClient] *)

(** What [NewClient] meets outside the process: the two clock readings,
    the provider's answer to [auth.RefreshToken] and the outcome of
    [cfg.Save()]. *)
Record Env : Type := mkEnv {
  now_NeedsRefresh : time.Time;
  now_IsTokenValid : time.Time;
  RefreshToken : auth.OAuthConfig -> string -> result auth.AuthResult;
  Save : config.Config -> option error
}.

(** [func NewClient(cfg *config.Config)]: the token of the client (or the
    error) and [*cfg] afterwards. *)
Definition NewClient (env : Env) (cfg : config.Config)
    : result string * config.Config :=
  let refreshed : option error * config.Config :=
    if config.NeedsRefresh (now_NeedsRefresh env) cfg
       && negb (is_empty (config.RefreshToken cfg))
    then
      let authConfig :=
        auth.mkOAuthConfig (config.ClientID cfg) (config.ClientSecret cfg) "" in
      match RefreshToken env authConfig (config.RefreshToken cfg) with
      | inr err => (Some (Errorf_w "failed to refresh token: " err), cfg)
      | inl result =>
          let cfg' := config.UpdateTokens cfg (auth.AccessToken result)
                        (auth.RefreshToken result) (auth.ExpiresAt result) in
          match Save env cfg' with
          | Some err => (Some (Errorf_w "failed to save updated config: " err), cfg')
          | None => (None, cfg')
          end
      end
    else (None, cfg) in
  match refreshed with
  | (Some err, cfg') => (inr err, cfg')
  | (None, cfg') =>
      if negb (config.IsTokenValid (now_IsTokenValid env) cfg')
      then (inr (errorString "invalid or expired token"), cfg')
      else (inl (config.AccessToken cfg'), cfg')
  end.

(** *** [Upload] and [uploadLarge] *)

(** [const chunkSize = 4 * 1024 * 1024] *)
Definition chunkSize : Z := 4 * 1024 * 1024.

(** The bound of the direct upload, [150*1024*1024]. *)
Definition directLimit : Z := 150 * 1024 * 1024.

Section Engine.

Context {W : Type} (filesClient : files.Client W).

Section Loop.

Context {S : Type} (R : io.Reader S).

(** The [for] loop of [uploadLarge]. [buffer] is [len(buffer)];
    [fuel] bounds the iterations and [None] is a loop still running
    when it is used up. The result is the offset at the [break], or
    the error returned from inside the loop. *)
Fixpoint uploadLoop (fuel : nat) (buffer : Z)
    (session : files.UploadSessionStartResult) (offset : Z)
    (reader : S) (w : W) : option (result Z * W) :=
  match fuel with
  | O => None
  | Datatypes.S fuel' =>
      let '((chunk, err), reader') := io.Read R reader buffer in
      let n := len chunk in
      let appended : result Z * W :=
        if 0 <? n then
          let cursor := files.NewUploadSessionCursor (files.SessionId session) offset in
          let appendArg := files.NewUploadSessionAppendArg cursor in
          match files.UploadSessionAppendV2 filesClient appendArg chunk w with
          | (Some err, w') => (inr (Errorf_w "failed to append chunk: " err), w')
          | (None, w') => (inl (wrap64 (offset + wrap64 n)), w')
          end
        else (inl offset, w) in
      match appended with
      | (inr e, w') => Some (inr e, w')
      | (inl offset', w') =>
          if is_EOF err then Some (inl offset', w')
          else match err with
               | Some e => Some (inr (Errorf_w "failed to read chunk: " e), w')
               | None => uploadLoop fuel' buffer session offset' reader' w'
               end
      end
  end.

(** [func (c *Client) uploadLarge(commitInfo *files.CommitInfo,
    reader io.Reader)] *)
Definition uploadLarge (fuel : nat) (commitInfo : files.CommitInfo)
    (reader : S) (w : W) : option (result files.FileMetadata * W) :=
  let sessionArg := files.NewUploadSessionStartArg in
  match files.UploadSessionStart filesClient sessionArg [] w with
  | (inr err, w') =>
      Some (inr (Errorf_w "failed to start upload session: " err), w')
  | (inl session, w') =>
      match uploadLoop fuel chunkSize session 0 reader w' with
      | None => None
      | Some (inr e, w'') => Some (inr e, w'')
      | Some (inl offset, w'') =>
          let cursor := files.NewUploadSessionCursor (files.SessionId session) offset in
          let finishArg := files.NewUploadSessionFinishArg cursor commitInfo in
          Some (files.UploadSessionFinish filesClient finishArg [] w'')
      end
  end.

End Loop.

(** The local [data] of [Upload]. *)
Definition Upload_data (content : string) : list byte :=
  if strings.Contains content (String newline "") || negb (isBase64 content)
  then list_byte_of_string content
  else match base64.DecodeString content with
       | inr _ => list_byte_of_string content
       | inl decoded => decoded
       end.

(** The local [commitInfo] of [Upload]; [now] is [time.Now()]. *)
Definition Upload_commitInfo (now : time.Time) (path mode : string)
    : files.CommitInfo :=
  let commitInfo := files.NewCommitInfo path in
  let commitInfo :=
    if (mode =? "overwrite")%string
    then files.mkCommitInfo (files.Path commitInfo) (files.mkWriteMode "overwrite")
           (files.Autorename commitInfo) (files.ClientModified commitInfo)
           (files.Mute commitInfo) (files.StrictConflict commitInfo)
    else files.mkCommitInfo (files.Path commitInfo) (files.mkWriteMode "add")
           (files.Autorename commitInfo) (files.ClientModified commitInfo)
           (files.Mute commitInfo) (files.StrictConflict commitInfo) in
  let commitInfo :=
    files.mkCommitInfo (files.Path commitInfo) (files.Mode commitInfo)
      true (files.ClientModified commitInfo)
      (files.Mute commitInfo) (files.StrictConflict commitInfo) in
  let now := time.UTC now in
  files.mkCommitInfo (files.Path commitInfo) (files.Mode commitInfo)
    (files.Autorename commitInfo) (Some now)
    (files.Mute commitInfo) (files.StrictConflict commitInfo).

(** The [arg] of the direct upload. *)
Definition Upload_arg (path : string) (commitInfo : files.CommitInfo)
    : files.UploadArg :=
  let arg := files.NewUploadArg path in
  let c := files.UploadArg_CommitInfo arg in
  files.mkUploadArg
    (files.mkCommitInfo (files.Path c) (files.Mode commitInfo)
       (files.Autorename commitInfo) (files.ClientModified commitInfo)
       (files.Mute c) (files.StrictConflict c))
    (files.ContentHash arg).

(** [func (c *Client) Upload(path, content string, mode string)] *)
Definition Upload (now : time.Time) (fuel : nat)
    (path content mode : string) (w : W)
    : option (result files.FileMetadata * W) :=
  let data := Upload_data content in
  let commitInfo := Upload_commitInfo now path mode in
  let reader := bytes.NewReader data in
  if directLimit <? len data then
    uploadLarge bytes.reader fuel commitInfo reader w
  else
    let arg := Upload_arg path commitInfo in
    Some (files.Upload filesClient arg data w).

End Engine.

(** *** [ListFolder] and [Download] *)

Section Reading.

Context {W : Type} (filesClient : files.ReadClient W).

(** The loop [for res.HasMore] of [ListFolder]; [fuel] bounds the
    iterations and [None] is a loop still running when it is used up. *)
Fixpoint ListFolder_loop (fuel : nat) (res : files.ListFolderResult)
    (entries : list files.IsMetadata) (w : W)
    : option (result (list files.IsMetadata) * W) :=
  if negb (files.HasMore res) then Some (inl entries, w)
  else
    match fuel with
    | O => None
    | S fuel' =>
        let arg := files.NewListFolderContinueArg (files.Cursor res) in
        match files.ListFolderContinue filesClient arg w with
        | (inr err, w') =>
            Some (inr (Errorf_w "failed to continue listing: " err), w')
        | (inl res', w') =>
            ListFolder_loop fuel' res' (entries ++ files.Entries res')%list w'
        end
    end.

(** [func (c *Client) ListFolder(path string)] *)
Definition ListFolder (fuel : nat) (path : string) (w : W)
    : option (result (list files.IsMetadata) * W) :=
  let path := if is_empty path then "" else path in
  let arg := files.NewListFolderArg path in
  let arg := files.mkListFolderArg (files.ListFolderArg_Path arg) false
               (files.IncludeDeleted arg) in
  let arg := files.mkListFolderArg (files.ListFolderArg_Path arg)
               (files.Recursive arg) false in
  match files.ListFolder filesClient arg w with
  | (inr err, w') => Some (inr (Errorf_w "failed to list folder: " err), w')
  | (inl res, w') => ListFolder_loop fuel res (files.Entries res) w'
  end.

(** [func (c *Client) Download(path string)] *)
Definition Download (path : string) (w : W) : result (list byte) * W :=
  let arg := files.NewDownloadArg path in
  match files.Download filesClient arg w with
  | (inr err, w') => (inr (Errorf_w "download failed: " err), w')
  | (inl (_, content), w') =>
      match content with
      | inr err => (inr (Errorf_w "failed to read content: " err), w')
      | inl data => (inl data, w')
      end
  end.

End Reading.

(** *** Shared links *)

(** [v, ok := m[key].(string)] *)
Fixpoint lookup_string (m : list (string * Value)) (key : string) : option string :=
  match m with
  | [] => None
  | (k, v) :: m' =>
      if (k =? key)%string
      then match v with
           | VString s => Some s
           | _ => None
           end
      else lookup_string m' key
  end.

Section Sharing.

Context {W : Type} (sharingClient : sharing.Client W).

(** [time.Parse(time.RFC3339, s)] *)
Variable time_Parse : string -> result time.Time.

(** [func (c *Client) ListSharedLinks(path string)] *)
Definition ListSharedLinks (path : string) (w : W)
    : result (list sharing.IsSharedLinkMetadata) * W :=
  let arg := sharing.NewListSharedLinksArg in
  let arg := sharing.mkListSharedLinksArg path (sharing.ListArg_Cursor arg) in
  match sharing.ListSharedLinks sharingClient arg w with
  | (inr err, w') => (inr (Errorf_w "failed to list shared links: " err), w')
  | (inl result, w') => (inl (sharing.Links result), w')
  end.

(** The [linkSettings] that [CreateSharedLink] builds from a non-nil
    [settings]. *)
Definition CreateSharedLink_settings (settings : list (string * Value))
    : sharing.SharedLinkSettings :=
  let linkSettings := sharing.mkSharedLinkSettings None "" in
  let linkSettings :=
    match lookup_string settings "expires" with
    | Some expires =>
        match time_Parse expires with
        | inl t => sharing.mkSharedLinkSettings (Some t)
                     (sharing.LinkPassword linkSettings)
        | inr _ => linkSettings
        end
    | None => linkSettings
    end in
  match lookup_string settings "password" with
  | Some password =>
      sharing.mkSharedLinkSettings (sharing.Expires linkSettings) password
  | None => linkSettings
  end.

(** [func (c *Client) CreateSharedLink(path string,
    settings map[string]interface{})]; [None] is the nil map. *)
Definition CreateSharedLink (path : string)
    (settings : option (list (string * Value))) (w : W) : result string * W :=
  let arg := sharing.NewCreateSharedLinkWithSettingsArg path in
  let arg :=
    match settings with
    | Some m => sharing.mkCreateSharedLinkWithSettingsArg (sharing.Path arg)
                  (Some (CreateSharedLink_settings m))
    | None => arg
    end in
  match sharing.CreateSharedLinkWithSettings sharingClient arg w with
  | (inr err, w') =>
      let existing : option string * W :=
        if strings.Contains (Error err) "shared_link_already_exists" then
          match ListSharedLinks path w' with
          | (inl (sharing.FileLinkMetadata l :: _), w'') => (Some (sharing.Url l), w'')
          | (inl (sharing.FolderLinkMetadata l :: _), w'') => (Some (sharing.Url l), w'')
          | (_, w'') => (None, w'')
          end
        else (None, w') in
      match existing with
      | (Some url, w'') => (inl url, w'')
      | (None, w'') => (inr (Errorf_w "failed to create shared link: " err), w'')
      end
  | (inl (sharing.FileLinkMetadata metadata), w') => (inl (sharing.Url metadata), w')
  | (inl (sharing.FolderLinkMetadata metadata), w') => (inl (sharing.Url metadata), w')
  | (inl sharing.OtherLinkMetadata, w') =>
      (inr (errorString "unexpected shared link type"), w')
  end.

(** [func (c *Client) RevokeSharedLink(url string)] *)
Definition RevokeSharedLink (url : string) (w : W) : option error * W :=
  let arg := sharing.NewRevokeSharedLinkArg url in
  match sharing.RevokeSharedLink sharingClient arg w with
  | (Some err, w') => (Some (Errorf_w "failed to revoke shared link: " err), w')
  | (None, w') => (None, w')
  end.

End Sharing.

End dropbox.

(** ** Package [handlers] *)
Module handlers.

(** The decoded parameters of [dropbox_auth]. *)
Record AuthArgs : Type := mkAuthArgs {
  ClientID : string;
  ClientSecret : string
}.

(** [func (h *Handler) HandleAuth(params json.RawMessage)]: [params] is
    the outcome of [json.Unmarshal], [getenv] is [os.Getenv], [flow] the
    environment of the authorization flow and [save] the outcome of
    [h.config.Save()]. Returns the error, if any, and [*h.config]
    afterwards. *)
Definition HandleAuth (getenv : string -> string) (flow : auth.Env)
    (save : config.Config -> option error)
    (params : result AuthArgs) (cfg : config.Config)
    : option error * config.Config :=
  match params with
  | inr err => (Some (Errorf_w "invalid parameters: " err), cfg)
  | inl args =>
      let clientID := if is_empty (ClientID args)
                      then getenv "DROPBOX_CLIENT_ID" else ClientID args in
      let clientSecret := if is_empty (ClientSecret args)
                          then getenv "DROPBOX_CLIENT_SECRET"
                          else ClientSecret args in
      if is_empty clientID || is_empty clientSecret then
        (Some (errorString
           "client_id and client_secret are required (provide as parameters or environment variables)"),
         cfg)
      else
        let authConfig := auth.mkOAuthConfig clientID clientSecret "" in
        match fst (auth.StartOAuthFlow flow authConfig) with
        | inr err => (Some (Errorf_w "authentication failed: " err), cfg)
        | inl result =>
            let cfg := config.mkConfig clientID (config.ClientSecret cfg)
                         (config.AccessToken cfg) (config.RefreshToken cfg)
                         (config.ExpiresAt cfg) in
            let cfg := config.mkConfig (config.ClientID cfg) clientSecret
                         (config.AccessToken cfg) (config.RefreshToken cfg)
                         (config.ExpiresAt cfg) in
            let cfg := config.UpdateTokens cfg (auth.AccessToken result)
                         (auth.RefreshToken result) (auth.ExpiresAt result) in
            match save cfg with
            | Some err => (Some (Errorf_w "failed to save configuration: " err), cfg)
            | None => (None, cfg)
            end
        end
  end.

(** The decoded parameters of [dropbox_upload]. *)
Record UploadArgs : Type := mkUploadArgs {
  Path : string;
  Content : string;
  Mode : string
}.

(** The mode [HandleUpload] hands to [Upload]. *)
Definition HandleUpload_mode (args : UploadArgs) : string :=
  if is_empty (Mode args) then "add" else Mode args.

(** [func (h *Handler) HandleUpload(params json.RawMessage)]. [files_New]
    is [files.New], the provider's client for an access token. The result
    is the metadata the handler projects into its answer. *)
Definition HandleUpload {W : Type} (env : dropbox.Env)
    (files_New : string -> files.Client W) (now : time.Time) (fuel : nat)
    (params : result UploadArgs) (cfg : config.Config) (w : W)
    : option (result files.FileMetadata * config.Config * W) :=
  match params with
  | inr err => Some (inr (Errorf_w "invalid parameters: " err), cfg, w)
  | inl args =>
      if is_empty (Path args) then
        Some (inr (errorString "path parameter is required"), cfg, w)
      else if is_empty (Content args) then
        Some (inr (errorString "content parameter is required"), cfg, w)
      else
        let mode := HandleUpload_mode args in
        match dropbox.NewClient env cfg with
        | (inr err, cfg') => Some (inr err, cfg', w)
        | (inl token, cfg') =>
            match dropbox.Upload (files_New token) now fuel
                    (Path args) (Content args) mode w with
            | None => None
            | Some (r, w') => Some (r, cfg', w')
            end
        end
  end.

(** *** [HandleCheckAuth] *)

(** [func (h *Handler) HandleCheckAuth(params json.RawMessage)]. The
    error it returns is always nil; the result is the answer and the
    requests sent to the provider. *)
Definition HandleCheckAuth (now : time.Time)
    (client_Do : auth.CheckRequest -> result Z) (cfg : config.Config)
    : Value * list auth.CheckRequest :=
  if negb (config.IsTokenValid now cfg) then
    (VMap [("authenticated", VBool false);
           ("message", VString "Not authenticated. Please run dropbox_auth first.")],
     [])
  else
    match auth.ValidateToken client_Do (config.AccessToken cfg) with
    | (Some _, sent) =>
        (VMap [("authenticated", VBool false);
               ("message",
                VString "Token is invalid or expired. Please re-authenticate.")],
         sent)
    | (None, sent) =>
        (VMap [("authenticated", VBool true);
               ("message", VString "Authenticated with Dropbox");
               ("expires_at", VTime (config.ExpiresAt cfg))],
         sent)
    end.

(** *** [HandleDownload] *)

(** The loop [for _, b := range data] of [isTextContent]. *)
Fixpoint isTextContent_range (data : list byte) : bool :=
  match data with
  | [] => true
  | b :: rest =>
      if byte_val b =? 0 then false
      else if (byte_val b <? 32) && negb (byte_val b =? 9)
              && negb (byte_val b =? 10) && negb (byte_val b =? 13)
           then false
           else isTextContent_range rest
  end.

(** [func isTextContent(data []byte) bool] *)
Definition isTextContent (data : list byte) : bool :=
  if len data =? 0 then true else isTextContent_range data.

(** The decoded parameters of [dropbox_download]. *)
Record DownloadArgs : Type := mkDownloadArgs {
  DownloadArgs_Path : string
}.

(** The answer of [HandleDownload] for the bytes of a file. *)
Definition HandleDownload_answer (data : list byte) : Value :=
  if isTextContent data then
    VMap [("content", VString (string_of_list_byte data));
          ("type", VString "text")]
  else
    VMap [("content", VString (base64.EncodeToString data));
          ("type", VString "base64")].

(** [func (h *Handler) HandleDownload(params json.RawMessage)].
    [files_New] is [files.New], the provider's client for an access
    token. *)
Definition HandleDownload {W : Type} (env : dropbox.Env)
    (files_New : string -> files.ReadClient W)
    (params : result DownloadArgs) (cfg : config.Config) (w : W)
    : result Value * config.Config * W :=
  match params with
  | inr err => (inr (Errorf_w "invalid parameters: " err), cfg, w)
  | inl args =>
      if is_empty (DownloadArgs_Path args) then
        (inr (errorString "path parameter is required"), cfg, w)
      else
        match dropbox.NewClient env cfg with
        | (inr err, cfg') => (inr err, cfg', w)
        | (inl token, cfg') =>
            match dropbox.Download (files_New token) (DownloadArgs_Path args) w with
            | (inr err, w') => (inr err, cfg', w')
            | (inl data, w') => (inl (HandleDownload_answer data), cfg', w')
            end
        end
  end.

(** *** [HandleList] *)

(** The decoded parameters of [dropbox_list]. *)
Record ListArgs : Type := mkListArgs {
  ListArgs_Path : string
}.

(** The [item] that [HandleList] makes of an entry. *)
Definition HandleList_item (entry : files.IsMetadata) : Value :=
  match entry with
  | files.File e =>
      VMap [("name", VString (files.Name e));
            ("path", VString (files.PathDisplay e));
            ("type", VString "file");
            ("size", VInt (files.Size e));
            ("modified", VTime (files.ServerModified e));
            ("rev", VString (files.Rev e))]
  | files.Folder e =>
      VMap [("name", VString (files.Folder_Name e));
            ("path", VString (files.Folder_PathDisplay e));
            ("type", VString "folder")]
  | files.Deleted _ => VMap []
  end.

(** [func (h *Handler) HandleList(params json.RawMessage)] *)
Definition HandleList {W : Type} (env : dropbox.Env)
    (files_New : string -> files.ReadClient W) (fuel : nat)
    (params : result ListArgs) (cfg : config.Config) (w : W)
    : option (result Value * config.Config * W) :=
  match params with
  | inr err => Some (inr (Errorf_w "invalid parameters: " err), cfg, w)
  | inl args =>
      match dropbox.NewClient env cfg with
      | (inr err, cfg') => Some (inr err, cfg', w)
      | (inl token, cfg') =>
          match dropbox.ListFolder (files_New token) fuel (ListArgs_Path args) w with
          | None => None
          | Some (inr err, w') => Some (inr err, cfg', w')
          | Some (inl entries, w') =>
              Some (inl (VList (map HandleList_item entries)), cfg', w')
          end
      end
  end.

End handlers.

(** ** Vocabulary of the statements about uploads *)
Module session.

(** The number of reads that return data when [n] bytes are read through
    a buffer of [c] bytes. *)
Definition nchunks (c n : Z) : Z := (n + c - 1) / c.

(** The [k]-th stretch of [c] bytes of the source (the last one may be
    shorter). *)
Definition chunk_at (c : Z) (data : list byte) (k : Z) : list byte :=
  take c (drop (k * c) data).

(** The integers [k], [k+1], ..., [k+m-1]. *)
Definition range (k m : nat) : list Z := map Z.of_nat (seq k m).

(** The append of the [k]-th chunk at offset [k * c]. *)
Definition append_call (sid : string) (c : Z) (data : list byte) (k : Z)
    : files.Call :=
  files.CallAppend
    (files.NewUploadSessionAppendArg (files.NewUploadSessionCursor sid (k * c)))
    (chunk_at c data k).

Definition start_call : files.Call :=
  files.CallStart files.NewUploadSessionStartArg [].

Definition finish_call (sid : string) (offset : Z) (commit : files.CommitInfo)
    : files.Call :=
  files.CallFinish
    (files.NewUploadSessionFinishArg (files.NewUploadSessionCursor sid offset) commit)
    [].

(** The calls of a complete chunked upload of [data] in session [sid]. *)
Definition expected_calls (sid : string) (commit : files.CommitInfo)
    (data : list byte) : list files.Call :=
  (start_call
   :: map (append_call sid dropbox.chunkSize data)
        (range 0 (Z.to_nat (nchunks dropbox.chunkSize (len data))))
   ++ [finish_call sid (len data) commit])%list.

(** The entries of [m] accepted appends, from chunk [k] on. *)
Definition ok_entries (sid : string) (c : Z) (data : list byte) (k m : nat)
    : list files.Entry :=
  map (fun j => files.mkEntry (append_call sid c data j) false) (range k m).

(** The entry of a rejected append of chunk [k]. *)
Definition failed_entry (sid : string) (c : Z) (data : list byte) (k : nat)
    : files.Entry :=
  files.mkEntry (append_call sid c data (Z.of_nat k)) true.

(** The read index, and the session offset, after [k] chunks. *)
Definition pos (c : Z) (data : list byte) (k : nat) : Z :=
  Z.min (Z.of_nat k * c) (len data).

(** The number of bytes the appends among [calls] carry. *)
Definition appended (calls : list files.Call) : Z :=
  fold_right
    (fun c acc =>
       match c with
       | files.CallAppend _ content => len content + acc
       | _ => acc
       end) 0 calls.

(** The bytes a call hands to the provider. *)
Definition content_of (c : files.Call) : list byte :=
  match c with
  | files.CallUpload _ content => content
  | files.CallStart _ content => content
  | files.CallAppend _ content => content
  | files.CallFinish _ content => content
  end.

(** The bytes the calls of a log hand to the provider, in the order of
    the calls. *)
Definition payload (ext : list files.Entry) : list byte :=
  List.concat (map (fun e => content_of (files.call e)) ext).

(** The three ways a chunked upload of [data] ends, each with the value
    returned and the calls made: the start is rejected; the append of
    chunk [m] is rejected after [m] accepted appends; or every chunk is
    appended and the finish call returns [r]. *)
Inductive chunked (commit : files.CommitInfo) (data : list byte)
    : result files.FileMetadata -> list files.Entry -> Prop :=
| start_rejected (err : error) :
    chunked commit data
      (inr (Errorf_w "failed to start upload session: " err))
      [files.mkEntry start_call true]
| append_rejected (sid : string) (m : nat) (err : error) :
    Z.of_nat m < nchunks dropbox.chunkSize (len data) ->
    chunked commit data
      (inr (Errorf_w "failed to append chunk: " err))
      (files.mkEntry start_call false
       :: ok_entries sid dropbox.chunkSize data 0 m
       ++ [failed_entry sid dropbox.chunkSize data m])%list
| finished (sid : string) (r : result files.FileMetadata) :
    chunked commit data r
      (files.mkEntry start_call false
       :: ok_entries sid dropbox.chunkSize data 0
            (Z.to_nat (nchunks dropbox.chunkSize (len data)))
       ++ [files.mkEntry (finish_call sid (len data) commit) (files.is_error r)])%list.

(** A run of accepted appends in session [sid]: each is made at the offset
    the one before it left, which it advances by the length of its
    content, in [uint64] arithmetic. *)
Inductive chain (sid : string) : Z -> list files.Entry -> Z -> Prop :=
| chain_end (off : Z) : chain sid off [] off
| chain_append (off : Z) (content : list byte) (rest : list files.Entry) (off' : Z) :
    chain sid (wrap64 (off + wrap64 (len content))) rest off' ->
    chain sid off
      (files.mkEntry
         (files.CallAppend
            (files.NewUploadSessionAppendArg (files.NewUploadSessionCursor sid off))
            content)
         false :: rest) off'.

(** How the loop of [uploadLarge] ends at offset [off]: at the end of the
    source, on a failed read, or on a rejected append, which is then the
    last call. *)
Inductive stopped (sid : string) (off : Z) : result Z -> list files.Entry -> Prop :=
| stopped_eof : stopped sid off (inl off) []
| stopped_read (e : error) :
    stopped sid off (inr (Errorf_w "failed to read chunk: " e)) []
| stopped_append (content : list byte) (e : error) :
    stopped sid off (inr (Errorf_w "failed to append chunk: " e))
      [files.mkEntry
         (files.CallAppend
            (files.NewUploadSessionAppendArg (files.NewUploadSessionCursor sid off))
            content)
         true].

(** A provider that accepts every call: one session, named [sid], and
    metadata that echo the commit. *)
Definition accepting : files.Client unit :=
  files.mkClient unit
    (fun arg content w =>
       (inl (files.mkFileMetadata "" (files.Path (files.UploadArg_CommitInfo arg))
               (len content) 0 "rev"), w))
    (fun _ _ w => (inl (files.mkUploadSessionStartResult "sid"), w))
    (fun _ _ w => (None, w))
    (fun arg _ w =>
       (inl (files.mkFileMetadata "" (files.Path (files.FinishArg_Commit arg))
               (files.Offset (files.FinishArg_Cursor arg)) 0 "rev"), w)).

(** A provider that accepts the start and the first [n] appends it is
    sent, and rejects every later append. *)
Definition failing_after : files.Client nat :=
  files.mkClient nat
    (fun arg content w =>
       (inl (files.mkFileMetadata "" (files.Path (files.UploadArg_CommitInfo arg))
               (len content) 0 "rev"), w))
    (fun _ _ w => (inl (files.mkUploadSessionStartResult "sid"), w))
    (fun _ _ w =>
       match w with
       | O => (Some (errorString "too_many_write_operations"), O)
       | S w' => (None, w')
       end)
    (fun arg _ w =>
       (inl (files.mkFileMetadata "" (files.Path (files.FinishArg_Commit arg))
               (files.Offset (files.FinishArg_Cursor arg)) 0 "rev"), w)).

(** *** Vocabulary of the statements about listings *)

(** A listing call, as the provider receives it. *)
Inductive ListCall : Type :=
| CallList (arg : files.ListFolderArg)
| CallContinue (arg : files.ListFolderContinueArg).

(** The request for the page that follows [p]. *)
Definition continue_call (p : files.ListFolderResult) : ListCall :=
  CallContinue (files.NewListFolderContinueArg (files.Cursor p)).

(** The pages of one listing: every page but the last announces more. *)
Fixpoint paged (pages : list files.ListFolderResult) : bool :=
  match pages with
  | [] => false
  | [p] => negb (files.HasMore p)
  | p :: rest => files.HasMore p && paged rest
  end.

(** A provider that answers the listing calls from a script, one answer
    per call, and keeps a record of the calls; it has no file to
    download. *)
Definition scripted
    : files.ReadClient (list (result files.ListFolderResult) * list ListCall) :=
  files.mkReadClient (list (result files.ListFolderResult) * list ListCall)
    (fun _ w => (inr (errorString "path/not_found"), w))
    (fun arg '(script, calls) =>
       match script with
       | [] => (inr (errorString "no answer"), ([], calls ++ [CallList arg])%list)
       | answer :: script' => (answer, (script', calls ++ [CallList arg])%list)
       end)
    (fun arg '(script, calls) =>
       match script with
       | [] => (inr (errorString "no answer"), ([], calls ++ [CallContinue arg])%list)
       | answer :: script' => (answer, (script', calls ++ [CallContinue arg])%list)
       end).

(** A provider whose every page announces another one. *)
Definition endless : files.ReadClient unit :=
  files.mkReadClient unit
    (fun _ w => (inr (errorString "path/not_found"), w))
    (fun _ w => (inl (files.mkListFolderResult [] "cursor" true), w))
    (fun _ w => (inl (files.mkListFolderResult [] "cursor" true), w)).

(** A reader over the bytes left to read that hands out at most two of
    them per call and reports the end together with the last ones. *)
Definition short_reader : io.Reader (list byte) :=
  io.mkReader (list byte)
    (fun s len_b =>
       ((take (Z.min len_b 2) s, if len s <=? 2 then Some io_EOF else None),
        drop (Z.min len_b 2) s)).

End session.

(** ** Package [main]: the server *)
Module main.

(** [json.RawMessage]; [None] is the nil slice of an absent field. *)
Definition RawMessage : Type := option string.

Record Request : Type := mkRequest {
  JSONRPC : string;
  ID : RawMessage;
  Method : string;
  Params : RawMessage
}.

(** [type Error struct] *)
Record ErrorObject : Type := mkErrorObject {
  Code : Z;
  Message : string
}.

(** [type Response struct]; [Result] and [Error] are left out of the
    output when they are nil. *)
Record Response : Type := mkResponse {
  Response_JSONRPC : string;
  Response_ID : RawMessage;
  Result : option Value;
  Response_Error : option ErrorObject
}.

Record ToolDefinition : Type := mkToolDefinition {
  Name : string;
  Description : string;
  InputSchema : Value
}.

(** The local [toolCall] of [handleToolCall]. *)
Record ToolCall : Type := mkToolCall {
  ToolCall_Name : string;
  Arguments : RawMessage
}.

(** [strings.HasPrefix(s, prefix)] *)
Definition HasPrefix (s prefix : string) : bool := String.prefix prefix s.

(** [m[key]] with its [ok]. *)
Fixpoint lookup {A : Type} (m : list (string * A)) (key : string) : option A :=
  match m with
  | [] => None
  | (k, v) :: m' => if (k =? key)%string then Some v else lookup m' key
  end.

(** The local [tools] of [handleListTools]. *)
Definition tools : list ToolDefinition :=
  [mkToolDefinition "dropbox_auth"
     "Authenticate with Dropbox using OAuth 2.0"
     (VMap
        [("type", VString "object");
         ("properties", VMap
           [("client_id", VMap
              [("type", VString "string");
               ("description", VString "Dropbox App Client ID (optional if DROPBOX_CLIENT_ID env var is set)")]);
            ("client_secret", VMap
              [("type", VString "string");
               ("description", VString "Dropbox App Client Secret (optional if DROPBOX_CLIENT_SECRET env var is set)")])])]);
   mkToolDefinition "dropbox_check_auth"
     "Check current authentication status"
     (VMap
        [("type", VString "object");
         ("properties", VMap [])]);
   mkToolDefinition "dropbox_list"
     "List files and folders in a Dropbox directory"
     (VMap
        [("type", VString "object");
         ("properties", VMap
           [("path", VMap
              [("type", VString "string");
               ("description", VString "Path to list (empty string for root)");
               ("default", VString "")])])]);
   mkToolDefinition "dropbox_search"
     "Search for files and folders in Dropbox"
     (VMap
        [("type", VString "object");
         ("properties", VMap
           [("query", VMap
              [("type", VString "string");
               ("description", VString "Search query")]);
            ("path", VMap
              [("type", VString "string");
               ("description", VString "Path to search in (optional)")])]);
         ("required", VList [VString "query"])]);
   mkToolDefinition "dropbox_get_metadata"
     "Get metadata for a file or folder"
     (VMap
        [("type", VString "object");
         ("properties", VMap
           [("path", VMap
              [("type", VString "string");
               ("description", VString "Path to the file or folder")])]);
         ("required", VList [VString "path"])]);
   mkToolDefinition "dropbox_download"
     "Download a file from Dropbox"
     (VMap
        [("type", VString "object");
         ("properties", VMap
           [("path", VMap
              [("type", VString "string");
               ("description", VString "Path to the file to download")])]);
         ("required", VList [VString "path"])]);
   mkToolDefinition "dropbox_upload"
     "Upload a file to Dropbox"
     (VMap
        [("type", VString "object");
         ("properties", VMap
           [("path", VMap
              [("type", VString "string");
               ("description", VString "Path where the file will be uploaded")]);
            ("content", VMap
              [("type", VString "string");
               ("description", VString "File content (text or base64 encoded)")]);
            ("mode", VMap
              [("type", VString "string");
               ("description", VString "Upload mode: 'add' or 'overwrite'");
               ("default", VString "add");
               ("enum", VList [VString "add"; VString "overwrite"])])]);
         ("required", VList [VString "path"; VString "content"])]);
   mkToolDefinition "dropbox_create_folder"
     "Create a new folder in Dropbox"
     (VMap
        [("type", VString "object");
         ("properties", VMap
           [("path", VMap
              [("type", VString "string");
               ("description", VString "Path of the folder to create")])]);
         ("required", VList [VString "path"])]);
   mkToolDefinition "dropbox_move"
     "Move or rename a file or folder"
     (VMap
        [("type", VString "object");
         ("properties", VMap
           [("from_path", VMap
              [("type", VString "string");
               ("description", VString "Source path")]);
            ("to_path", VMap
              [("type", VString "string");
               ("description", VString "Destination path")])]);
         ("required", VList [VString "from_path"; VString "to_path"])]);
   mkToolDefinition "dropbox_copy"
     "Copy a file or folder"
     (VMap
        [("type", VString "object");
         ("properties", VMap
           [("from_path", VMap
              [("type", VString "string");
               ("description", VString "Source path")]);
            ("to_path", VMap
              [("type", VString "string");
               ("description", VString "Destination path")])]);
         ("required", VList [VString "from_path"; VString "to_path"])]);
   mkToolDefinition "dropbox_delete"
     "Delete a file or folder"
     (VMap
        [("type", VString "object");
         ("properties", VMap
           [("path", VMap
              [("type", VString "string");
               ("description", VString "Path to delete")])]);
         ("required", VList [VString "path"])]);
   mkToolDefinition "dropbox_create_shared_link"
     "Create a shared link for a file or folder"
     (VMap
        [("type", VString "object");
         ("properties", VMap
           [("path", VMap
              [("type", VString "string");
               ("description", VString "Path to share")]);
            ("settings", VMap
              [("type", VString "object");
               ("description", VString "Sharing settings");
               ("properties", VMap
                 [("expires", VMap
                    [("type", VString "string");
                     ("description", VString "Expiration time (ISO 8601 format)")]);
                  ("password", VMap
                    [("type", VString "string");
                     ("description", VString "Password for the shared link")])])])]);
         ("required", VList [VString "path"])]);
   mkToolDefinition "dropbox_list_shared_links"
     "List shared links for a file or folder"
     (VMap
        [("type", VString "object");
         ("properties", VMap
           [("path", VMap
              [("type", VString "string");
               ("description", VString "Path to list shared links for (optional)")])])]);
   mkToolDefinition "dropbox_revoke_shared_link"
     "Revoke a shared link"
     (VMap
        [("type", VString "object");
         ("properties", VMap
           [("url", VMap
              [("type", VString "string");
               ("description", VString "Shared link URL to revoke")])]);
         ("required", VList [VString "url"])]);
   mkToolDefinition "dropbox_get_revisions"
     "Get version history of a file"
     (VMap
        [("type", VString "object");
         ("properties", VMap
           [("path", VMap
              [("type", VString "string");
               ("description", VString "Path to the file")])]);
         ("required", VList [VString "path"])]);
   mkToolDefinition "dropbox_restore_file"
     "Restore a file to a specific version"
     (VMap
        [("type", VString "object");
         ("properties", VMap
           [("path", VMap
              [("type", VString "string");
               ("description", VString "Path to the file")]);
            ("rev", VMap
              [("type", VString "string");
               ("description", VString "Revision ID to restore")])]);
         ("required", VList [VString "path"; VString "rev"])])].

(** A [ToolDefinition] under its JSON field names. *)
Definition ToolDefinition_json (t : ToolDefinition) : Value :=
  VMap [("name", VString (Name t));
        ("description", VString (Description t));
        ("inputSchema", InputSchema t)].

(** [func handleListTools() interface{}] *)
Definition handleListTools : Value :=
  VMap [("tools", VList (map ToolDefinition_json tools))].

(** [func handleListPrompts() interface{}] *)
Definition handleListPrompts : Value := VMap [("prompts", VList [])].

(** [func handleListResources() interface{}] *)
Definition handleListResources : Value := VMap [("resources", VList [])].

(** [scanner.Buffer(make([]byte, 1024*1024), 1024*1024)]: a line of
    this many bytes or more is too long for the scanner. *)
Definition maxTokenSize : Z := 1024 * 1024.

(** A method of [*handlers.Handler]: [func(json.RawMessage)
    (interface{}, error)], over the state [H] of the handler and of what
    it reaches. *)
Definition HandlerFunc (H : Type) : Type := RawMessage -> H -> result Value * H.

(** The methods of [*handlers.Handler]. *)
Record Handler (H : Type) : Type := mkHandler {
  HandleAuth : HandlerFunc H;
  HandleCheckAuth : HandlerFunc H;
  HandleList : HandlerFunc H;
  HandleSearch : HandlerFunc H;
  HandleGetMetadata : HandlerFunc H;
  HandleDownload : HandlerFunc H;
  HandleUpload : HandlerFunc H;
  HandleCreateFolder : HandlerFunc H;
  HandleMove : HandlerFunc H;
  HandleCopy : HandlerFunc H;
  HandleDelete : HandlerFunc H;
  HandleCreateSharedLink : HandlerFunc H;
  HandleListSharedLinks : HandlerFunc H;
  HandleRevokeSharedLink : HandlerFunc H;
  HandleGetRevisions : HandlerFunc H;
  HandleRestoreFile : HandlerFunc H
}.
Arguments HandleAuth {H} _.
Arguments HandleCheckAuth {H} _.
Arguments HandleList {H} _.
Arguments HandleSearch {H} _.
Arguments HandleGetMetadata {H} _.
Arguments HandleDownload {H} _.
Arguments HandleUpload {H} _.
Arguments HandleCreateFolder {H} _.
Arguments HandleMove {H} _.
Arguments HandleCopy {H} _.
Arguments HandleDelete {H} _.
Arguments HandleCreateSharedLink {H} _.
Arguments HandleListSharedLinks {H} _.
Arguments HandleRevokeSharedLink {H} _.
Arguments HandleGetRevisions {H} _.
Arguments HandleRestoreFile {H} _.

Section Server.

Context {H : Type} (handler : Handler H).

(** The constant [VERSION]. *)
Variable VERSION : string.

(** [json.Unmarshal] into a [Request] and into the local [toolCall],
    [json.Marshal] of a [Response], and [toJSON]. *)
Variable Unmarshal_Request : string -> result Request.
Variable Unmarshal_toolCall : RawMessage -> result ToolCall.
Variable Marshal : Response -> result string.
Variable toJSON : Value -> string.

(** [func handleInitialize() interface{}] *)
Definition handleInitialize : Value :=
  VMap [("protocolVersion", VString "2024-11-05");
        ("capabilities", VMap [("tools", VMap [])]);
        ("serverInfo", VMap [("name", VString "dropbox-mcp-server");
                             ("version", VString VERSION)])].

(** The local [toolHandlers] of [handleToolCall]. *)
Definition toolHandlers : list (string * HandlerFunc H) :=
  [("dropbox_auth", HandleAuth handler);
   ("dropbox_check_auth", HandleCheckAuth handler);
   ("dropbox_list", HandleList handler);
   ("dropbox_search", HandleSearch handler);
   ("dropbox_get_metadata", HandleGetMetadata handler);
   ("dropbox_download", HandleDownload handler);
   ("dropbox_upload", HandleUpload handler);
   ("dropbox_create_folder", HandleCreateFolder handler);
   ("dropbox_move", HandleMove handler);
   ("dropbox_copy", HandleCopy handler);
   ("dropbox_delete", HandleDelete handler);
   ("dropbox_create_shared_link", HandleCreateSharedLink handler);
   ("dropbox_list_shared_links", HandleListSharedLinks handler);
   ("dropbox_revoke_shared_link", HandleRevokeSharedLink handler);
   ("dropbox_get_revisions", HandleGetRevisions handler);
   ("dropbox_restore_file", HandleRestoreFile handler)].

(** The map with the one key "error" that [handleToolCall] returns. *)
Definition tool_error (code : Z) (message : string) : Value :=
  VMap [("error", VMap [("code", VInt code); ("message", VString message)])].

(** [func handleToolCall(handler *handlers.Handler, params json.RawMessage)
    interface{}] *)
Definition handleToolCall (params : RawMessage) (h : H) : Value * H :=
  match Unmarshal_toolCall params with
  | inr err => (tool_error (-32602) ("Invalid params: " ++ Error err), h)
  | inl toolCall =>
      match lookup toolHandlers (ToolCall_Name toolCall) with
      | None =>
          (tool_error (-32601) ("Unknown tool: " ++ ToolCall_Name toolCall), h)
      | Some handlerFunc =>
          match handlerFunc (Arguments toolCall) h with
          | (inr err, h') => (tool_error (-32603) (Error err), h')
          | (inl result, h') =>
              (VMap [("content",
                      VList [VMap [("type", VString "text");
                                   ("text", VString (toJSON result))]])],
               h')
          end
      end
  end.

(** One turn of the loop of [main], from the decoded request on: the
    response to print, or [None] where the loop goes on without one. *)
Definition respond (req : Request) (h : H) : option Response * H :=
  if match ID req with
     | None => HasPrefix (Method req) "notifications/"
     | Some _ => false
     end
  then (None, h)
  else
    let resp := mkResponse "2.0" (ID req) None None in
    if (Method req =? "initialize")%string then
      (Some (mkResponse (Response_JSONRPC resp) (Response_ID resp)
               (Some handleInitialize) (Response_Error resp)), h)
    else if (Method req =? "tools/list")%string then
      (Some (mkResponse (Response_JSONRPC resp) (Response_ID resp)
               (Some handleListTools) (Response_Error resp)), h)
    else if (Method req =? "tools/call")%string then
      let '(result, h') := handleToolCall (Params req) h in
      (Some (mkResponse (Response_JSONRPC resp) (Response_ID resp)
               (Some result) (Response_Error resp)), h')
    else if (Method req =? "prompts/list")%string then
      (Some (mkResponse (Response_JSONRPC resp) (Response_ID resp)
               (Some handleListPrompts) (Response_Error resp)), h)
    else if (Method req =? "resources/list")%string then
      (Some (mkResponse (Response_JSONRPC resp) (Response_ID resp)
               (Some handleListResources) (Response_Error resp)), h)
    else if negb (HasPrefix (Method req) "notifications/") then
      (Some (mkResponse (Response_JSONRPC resp) (Response_ID resp)
               (Result resp)
               (Some (mkErrorObject (-32601)
                        ("Method not found: " ++ Method req)))), h)
    else (None, h).

(** The loop [for scanner.Scan()] of [main] over the lines of the
    standard input, each the bytes before a line feed: the lines it
    prints on the standard output, and the handler afterwards. The
    scanner gives up at a line that does not fit its buffer, and the
    loop ends there. What is written to the standard error is not
    kept. *)
Fixpoint serve (lines : list string) (h : H) : list string * H :=
  match lines with
  | [] => ([], h)
  | line :: rest =>
      if maxTokenSize <=? Z.of_nat (String.length line) then ([], h)
      else
        match Unmarshal_Request line with
        | inr _ => serve rest h
        | inl req =>
            match respond req h with
            | (None, h') => serve rest h'
            | (Some resp, h') =>
                match Marshal resp with
                | inr _ => serve rest h'
                | inl output =>
                    let '(printed, h'') := serve rest h' in
                    (output :: printed, h'')
                end
            end
        end
  end.

End Server.

(** A handler whose every method succeeds and counts the call. *)
Definition counting : Handler nat :=
  let method : HandlerFunc nat := fun _ h => (inl (VString "done"), S h) in
  mkHandler nat method method method method method method method method
    method method method method method method method method.

(** A decoder of lines that takes the line for the method of a request
    with the id 7, and does not decode the line "{". *)
Definition method_line (line : string) : result Request :=
  if (line =? "{")%string then inr (errorString "unexpected end of JSON input")
  else inl (mkRequest "2.0" (Some "7") line None).

End main.

(** * Properties *)

(** ** Strings *)

Lemma is_empty_true (s : string) : is_empty s = true <-> s = "".
Proof. unfold is_empty. apply String.eqb_eq. Qed.

Lemma is_empty_false (s : string) : is_empty s = false <-> s <> "".
Proof. unfold is_empty. apply String.eqb_neq. Qed.

(** ** The token store *)
Section TokenStore.

Import config.

Variable now : time.Time.

Lemma NeedsRefresh_true (c : Config) :
  NeedsRefresh now c = true <->
  RefreshToken c <> "" /\ time.IsZero (ExpiresAt c) = false /\
  time.After (time.Add now (5 * time.Minute)) (ExpiresAt c) = true.
Proof.
  unfold NeedsRefresh.
  destruct (is_empty (RefreshToken c)) eqn:Hr.
  - apply is_empty_true in Hr. split; [discriminate|]. intros [H _]. contradiction.
  - apply is_empty_false in Hr.
    destruct (time.IsZero (ExpiresAt c)).
    + split; [discriminate|]. intros (_ & H & _). discriminate.
    + tauto.
Qed.

Lemma after_lt (t u : time.Time) : time.After t u = true <-> u < t.
Proof. unfold time.After. apply Z.ltb_lt. Qed.

Lemma after_ge (t u : time.Time) : time.After t u = false <-> t <= u.
Proof. unfold time.After. apply Z.ltb_ge. Qed.

(** C5. [NeedsRefresh] holds exactly when the refresh token is not empty,
    the expiry is set (not the zero time) and the current time plus five
    minutes is after the expiry. So with a refresh token, an expiry more
    than five minutes ahead needs no refresh, and a set expiry less than
    five minutes ahead, or behind, needs one. *)
Theorem NeedsRefresh_iff (c : Config) :
  (NeedsRefresh now c = true <->
   RefreshToken c <> "" /\ time.IsZero (ExpiresAt c) = false /\
   ExpiresAt c < now + 5 * time.Minute) /\
  (RefreshToken c <> "" -> now + 5 * time.Minute < ExpiresAt c ->
   NeedsRefresh now c = false) /\
  (RefreshToken c <> "" -> time.IsZero (ExpiresAt c) = false ->
   ExpiresAt c < now + 5 * time.Minute ->
   NeedsRefresh now c = true).
Proof.
  assert (Hiff : NeedsRefresh now c = true <->
     RefreshToken c <> "" /\ time.IsZero (ExpiresAt c) = false /\
     ExpiresAt c < now + 5 * time.Minute).
  { rewrite NeedsRefresh_true, after_lt. unfold time.Add. tauto. }
  split; [exact Hiff|]. split.
  - intros Hr Hfar. apply not_true_is_false. intros H.
    apply Hiff in H. destruct H as (_ & _ & H). lia.
  - intros Hr Hset Hnear. apply Hiff. auto.
Qed.

(** The comparison is strict: an expiry exactly five minutes ahead needs
    no refresh yet. *)
Lemma NeedsRefresh_at_five_minutes (c : Config) :
  ExpiresAt c = now + 5 * time.Minute -> NeedsRefresh now c = false.
Proof.
  intros H. apply not_true_is_false. intros Ht.
  apply NeedsRefresh_true in Ht. destruct Ht as (_ & _ & Ht).
  apply after_lt in Ht. unfold time.Add in Ht. lia.
Qed.

(** Without an expiry no refresh is needed, whatever the clock says. *)
Lemma NeedsRefresh_unset (c : Config) :
  ExpiresAt c = 0 -> NeedsRefresh now c = false.
Proof.
  intros H. unfold NeedsRefresh. rewrite H. simpl.
  destruct (is_empty (RefreshToken c)); reflexivity.
Qed.

Lemma IsTokenValid_no_token (c : Config) :
  AccessToken c = "" -> IsTokenValid now c = false.
Proof. intros H. unfold IsTokenValid. rewrite H. reflexivity. Qed.

Lemma IsTokenValid_no_expiry (c : Config) :
  AccessToken c <> "" -> ExpiresAt c = 0 -> IsTokenValid now c = true.
Proof.
  intros Ha He. unfold IsTokenValid.
  apply is_empty_false in Ha. rewrite Ha, He. reflexivity.
Qed.

End TokenStore.

(** C5 at a concrete credential: expiry one minute ahead. *)
Lemma NeedsRefresh_iff_witness :
  config.NeedsRefresh 1000
    (config.mkConfig "id" "secret" "at" "rt" (1000 + 1 * time.Minute)) = true.
Proof.
  apply (NeedsRefresh_iff 1000
           (config.mkConfig "id" "secret" "at" "rt" (1000 + 1 * time.Minute))).
  - simpl. discriminate.
  - reflexivity.
  - simpl. vm_compute. reflexivity.
Defined.

(** ** Token updates *)
Section TokenUpdate.

Import config.

Lemma UpdateTokens_fields (c : Config) (a r : string) (e : time.Time) :
  UpdateTokens c a r e =
  mkConfig (ClientID c) (ClientSecret c) a
           (if is_empty r then RefreshToken c else r) e.
Proof. unfold UpdateTokens. destruct (is_empty r); reflexivity. Qed.

(** The refresh path: [NewClient] leaves the credential as it found it, or
    as [UpdateTokens] made it from the answer of the provider. *)
Lemma NewClient_config (env : dropbox.Env) (cfg : Config) :
  snd (dropbox.NewClient env cfg) = cfg \/
  exists res,
    dropbox.RefreshToken env
      (auth.mkOAuthConfig (ClientID cfg) (ClientSecret cfg) "")
      (RefreshToken cfg) = inl res /\
    snd (dropbox.NewClient env cfg) =
    UpdateTokens cfg (auth.AccessToken res) (auth.RefreshToken res)
      (auth.ExpiresAt res).
Proof.
  unfold dropbox.NewClient.
  destruct (NeedsRefresh (dropbox.now_NeedsRefresh env) cfg
            && negb (is_empty (RefreshToken cfg))).
  - destruct (dropbox.RefreshToken env _ _) as [res|err] eqn:Hres.
    + right. exists res. split; [reflexivity|].
      destruct (dropbox.Save env _); [reflexivity|].
      destruct (negb (IsTokenValid _ _)); reflexivity.
    + left. reflexivity.
  - left. destruct (negb (IsTokenValid _ _)); reflexivity.
Qed.

(** The authorization path: [HandleAuth] leaves the credential as it found
    it, or stores the client's identity and then updates the tokens. *)
Lemma HandleAuth_config (getenv : string -> string) (flow : auth.Env)
    (save : Config -> option error) (params : result handlers.AuthArgs)
    (cfg : Config) :
  snd (handlers.HandleAuth getenv flow save params cfg) = cfg \/
  exists id secret res,
    fst (auth.StartOAuthFlow flow (auth.mkOAuthConfig id secret "")) = inl res /\
    snd (handlers.HandleAuth getenv flow save params cfg) =
    UpdateTokens
      (mkConfig id secret (AccessToken cfg) (RefreshToken cfg) (ExpiresAt cfg))
      (auth.AccessToken res) (auth.RefreshToken res) (auth.ExpiresAt res).
Proof.
  unfold handlers.HandleAuth.
  destruct params as [args|err]; [|left; reflexivity].
  match goal with |- context [if ?b then (Some (errorString _), cfg) else _] =>
    destruct b end; [left; reflexivity|].
  match goal with |- context [auth.StartOAuthFlow flow ?c] =>
    destruct (fst (auth.StartOAuthFlow flow c)) as [res|err] eqn:Hres end;
    [|left; reflexivity].
  right. eexists _, _, res. split; [exact Hres|].
  cbn [ClientID ClientSecret AccessToken RefreshToken ExpiresAt].
  match goal with |- context [save ?c] => destruct (save c) end; reflexivity.
Qed.

(** C8. A token update overwrites the access token and the expiry, stores
    the new refresh token when it is not empty and keeps the old one when
    it is, and leaves the client id and secret alone. The refresh in
    [NewClient] changes the credential by this update only, and the
    authorization in [HandleAuth] by this update, applied after the handler
    has stored the client id and secret it was given. *)
Theorem UpdateTokens_frame (c : Config) (a r : string) (e : time.Time) :
  let c' := UpdateTokens c a r e in
  (r <> "" -> RefreshToken c' = r) /\
  (r = "" -> RefreshToken c' = RefreshToken c) /\
  AccessToken c' = a /\
  ExpiresAt c' = e /\
  ClientID c' = ClientID c /\
  ClientSecret c' = ClientSecret c /\
  (forall env : dropbox.Env,
      snd (dropbox.NewClient env c) = c \/
      exists res,
        snd (dropbox.NewClient env c) =
        UpdateTokens c (auth.AccessToken res) (auth.RefreshToken res)
          (auth.ExpiresAt res)) /\
  (forall getenv flow save params,
      snd (handlers.HandleAuth getenv flow save params c) = c \/
      exists id secret res,
        snd (handlers.HandleAuth getenv flow save params c) =
        UpdateTokens
          (mkConfig id secret (AccessToken c) (RefreshToken c) (ExpiresAt c))
          (auth.AccessToken res) (auth.RefreshToken res) (auth.ExpiresAt res)).
Proof.
  intros c'. subst c'. rewrite UpdateTokens_fields. cbn.
  repeat split.
  - intros H. apply is_empty_false in H. rewrite H. reflexivity.
  - intros H. apply is_empty_true in H. rewrite H. reflexivity.
  - intros env. destruct (NewClient_config env c) as [H|(res & _ & H)].
    + left. exact H.
    + right. exists res. exact H.
  - intros getenv flow save params.
    destruct (HandleAuth_config getenv flow save params c)
      as [H|(id & secret & res & _ & H)].
    + left. exact H.
    + right. exists id, secret, res. exact H.
Qed.

End TokenUpdate.

(** C8 at a concrete credential, for a new and for an empty refresh token. *)
Lemma UpdateTokens_frame_witness :
  config.RefreshToken
    (config.UpdateTokens (config.mkConfig "id" "secret" "a0" "r0" 5) "a1" "r1" 9)
  = "r1" /\
  config.RefreshToken
    (config.UpdateTokens (config.mkConfig "id" "secret" "a0" "r0" 5) "a1" "" 9)
  = "r0".
Proof.
  split.
  - apply (UpdateTokens_frame (config.mkConfig "id" "secret" "a0" "r0" 5) "a1" "r1" 9).
    discriminate.
  - apply (UpdateTokens_frame (config.mkConfig "id" "secret" "a0" "r0" 5) "a1" "" 9).
    reflexivity.
Defined.

(** ** The callback handler *)
Section Callback.

Import auth.

Variable state : string.
Variable exchange : string -> result Token.


Lemma Get_first (v : Values) (key x : string) :
  Get ((key, x) :: v) key = x.
Proof. simpl. rewrite String.eqb_refl. reflexivity. Qed.



Lemma send_result_free (r : AuthResult) (rest : list Action) (ch : Chans) :
  resultChan ch = None ->
  send_result r rest ch = (SendResult r :: rest, mkChans (Some r) (errorChan ch)).
Proof. intros H. unfold send_result. rewrite H. reflexivity. Qed.

Lemma send_result_taken (r r0 : AuthResult) (rest : list Action) (ch : Chans) :
  resultChan ch = Some r0 -> send_result r rest ch = ([WaitResult r], ch).
Proof. intros H. unfold send_result. rewrite H. reflexivity. Qed.

(** Any other path is answered with 404, and the channels are left as
    they are. *)
Lemma callback_other_path (r : Request) (ch : Chans) :
  Path r <> "/callback" -> callback state exchange r ch = ([NotFound], ch).
Proof.
  intros H. unfold callback. apply String.eqb_neq in H. rewrite H. reflexivity.
Qed.

Lemma callback_wrong_state (r : Request) (ch : Chans) :
  Path r = "/callback" ->
  Get (Query r) "state" <> state ->
  callback state exchange r ch =
    send_error (errorString "state mismatch")
      [HttpError "State mismatch" StatusBadRequest] ch.
Proof.
  intros Hpath Hstate.
  unfold callback. rewrite Hpath, String.eqb_refl. cbn [negb].
  apply String.eqb_neq in Hstate. rewrite Hstate. reflexivity.
Qed.


Lemma callback_empty_code (r : Request) (ch : Chans) :
  Path r = "/callback" ->
  Get (Query r) "state" = state ->
  Get (Query r) "code" = "" ->
  callback state exchange r ch =
    send_error (errorString ("authorization failed: " ++ provider_text (Query r)))
      [HttpError "Authorization failed" StatusBadRequest] ch.
Proof.
  intros Hpath Hstate Hcode. unfold callback.
  rewrite Hpath, Hstate, Hcode, !String.eqb_refl. reflexivity.
Qed.


(** With a code the handler does call the token endpoint, whatever the
    channels hold. *)
Lemma callback_code (r : Request) (ch : Chans) :
  Path r = "/callback" ->
  Get (Query r) "state" = state ->
  Get (Query r) "code" <> "" ->
  exchanges (fst (callback state exchange r ch)) = true.
Proof.
  intros Hpath Hstate Hcode. unfold callback.
  rewrite Hpath, Hstate, !String.eqb_refl. cbn [negb].
  apply is_empty_false in Hcode. rewrite Hcode.
  destruct (exchange (Get (Query r) "code")) as [token|err].
  - destruct (send_result _ _ ch). reflexivity.
  - destruct (send_error _ _ ch). reflexivity.
Qed.

End Callback.





(** ** The wait of the authorization flow *)
Section Wait.

Import auth.

Lemma earliest_cons (d : time.Duration * Case) (cs : list (time.Duration * Case)) :
  earliest (d :: cs) = Z.min (fst d) (earliest cs).
Proof. reflexivity. Qed.

Lemma earliest_le (cs : list (time.Duration * Case)) (c : time.Duration * Case) :
  In c cs -> earliest cs <= fst c.
Proof.
  induction cs as [|d cs IH]; [intros []|].
  rewrite earliest_cons. intros [->|Hin].
  - apply Z.le_min_l.
  - specialize (IH Hin). lia.
Qed.

Lemma earliest_attained (cs : list (time.Duration * Case)) :
  earliest cs = timeout \/ exists c, In c cs /\ fst c = earliest cs.
Proof.
  induction cs as [|d cs IH]; [left; reflexivity|].
  rewrite earliest_cons.
  destruct (Z.min_spec (fst d) (earliest cs)) as [[_ Hm]|[_ Hm]]; rewrite Hm.
  - right. exists d. split; [left|]; reflexivity.
  - destruct IH as [IH|(c & Hin & Hc)].
    + left. exact IH.
    + right. exists c. split; [right; exact Hin|exact Hc].
Qed.

Lemma timeout_in_cases (w : Wait) : In (timeout, RecvTimeout) (cases w).
Proof. unfold cases. rewrite !in_app_iff. right. right. left. reflexivity. Qed.

Lemma ready_first_spec (w : Wait) (c : time.Duration * Case) :
  In c (ready_first w) <-> In c (cases w) /\ fst c = earliest (cases w).
Proof.
  unfold ready_first. rewrite filter_In, Z.eqb_eq. reflexivity.
Qed.

Lemma ready_first_nonempty (w : Wait) : ready_first w <> [].
Proof.
  destruct (earliest_attained (cases w)) as [He|(c & Hin & Hc)].
  - intros Hnil.
    assert (H : In (timeout, RecvTimeout) (ready_first w)).
    { apply ready_first_spec. split; [apply timeout_in_cases|].
      simpl. symmetry. exact He. }
    rewrite Hnil in H. exact H.
  - intros Hnil.
    assert (H : In c (ready_first w)) by (apply ready_first_spec; auto).
    rewrite Hnil in H. exact H.
Qed.

(** The [select] takes a case that is ready, and no case was ready
    before it. *)
Lemma select_first (w : Wait) :
  exists t, In (t, select w) (cases w) /\
            forall c, In c (cases w) -> t <= fst c.
Proof.
  assert (Hin : In (select w) (map snd (ready_first w))).
  { unfold select. apply nth_In. rewrite length_map.
    apply Nat.mod_upper_bound.
    pose proof (ready_first_nonempty w) as Hne.
    destruct (ready_first w); [congruence|simpl; lia]. }
  apply in_map_iff in Hin. destruct Hin as ([t c] & Hc & Hin).
  simpl in Hc. subst c. apply ready_first_spec in Hin.
  destruct Hin as [Hin Ht]. simpl in Ht.
  exists t. split; [exact Hin|].
  intros c Hc. rewrite Ht. apply earliest_le. exact Hc.
Qed.

Lemma cases_inv (w : Wait) (t : time.Duration) (c : Case) :
  In (t, c) (cases w) ->
  (exists t0 r, result_ready w = Some (t0, r) /\ t = Z.max 0 t0 /\ c = RecvResult r) \/
  (exists t0 e, error_ready w = Some (t0, e) /\ t = Z.max 0 t0 /\ c = RecvError e) \/
  (t = timeout /\ c = RecvTimeout).
Proof.
  unfold cases. rewrite !in_app_iff. intros [H|[H|H]].
  - left. destruct (result_ready w) as [[t0 r]|]; [|contradiction].
    destruct H as [H|[]]. inversion H. eauto.
  - right. left. destruct (error_ready w) as [[t0 e]|]; [|contradiction].
    destruct H as [H|[]]. inversion H. eauto.
  - right. right. destruct H as [H|[]]. inversion H. auto.
Qed.



Lemma select_error_first (w : Wait) (t : time.Duration) (e : error) :
  error_ready w = Some (t, e) ->
  Z.max 0 t < timeout ->
  (forall t' r, result_ready w = Some (t', r) -> Z.max 0 t < Z.max 0 t') ->
  select w = RecvError e.
Proof.
  intros He Ht Hr. destruct (select_first w) as (t1 & Hin & Hmin).
  assert (Hcase : In (Z.max 0 t, RecvError e) (cases w)).
  { unfold cases. rewrite He. rewrite !in_app_iff. right. left. left. reflexivity. }
  pose proof (Hmin _ Hcase) as Hle. cbn [fst] in Hle.
  apply cases_inv in Hin.
  destruct Hin as [(t0 & r0 & H & Ht1 & _)|[(t0 & e0 & H & _ & Hc)|[Ht1 _]]].
  - specialize (Hr _ _ H). lia.
  - rewrite He in H. injection H as _ <-. exact Hc.
  - lia.
Qed.

(** Every return path leaves the port unbound. *)
Lemma StartOAuthFlow_unbound (env : Env) (config : OAuthConfig) :
  bound (snd (StartOAuthFlow env config)) = false.
Proof.
  unfold StartOAuthFlow.
  destruct (generateState (rand_Read env)) as [state|]; [|reflexivity].
  destruct (net_Listen env); [|reflexivity].
  destruct (browser_OpenURL env); [reflexivity|].
  destruct (select (serve state env)); reflexivity.
Qed.



(** A signal that arrives alone and within five minutes is the one the
    flow returns. *)
Lemma select_only_error (w : Wait) (t : time.Duration) (e : error) :
  result_ready w = None ->
  error_ready w = Some (t, e) ->
  t < timeout ->
  select w = RecvError e.
Proof.
  intros Hr He Ht. apply (select_error_first w t e He).
  - unfold timeout in *. change (5 * time.Minute) with 300000000000 in *. lia.
  - intros t' r H. congruence.
Qed.

(** The flow as a whole on a forged callback: when the only request the
    server handles within the five minutes is a callback with another
    state, the flow returns the state mismatch. *)
Lemma StartOAuthFlow_forged (env : Env) (config : OAuthConfig)
    (b : list byte) (port : Z) (t : time.Duration) (r : Request) :
  rand_Read env = inl b ->
  net_Listen env = inl port ->
  browser_OpenURL env = None ->
  requests env = [(t, r)] ->
  serve_failure env = None ->
  t < timeout ->
  Path r = "/callback" ->
  Get (Query r) "state" <> EncodeToString b ->
  fst (StartOAuthFlow env config) = inr (errorString "state mismatch").
Proof.
  intros Hrand Hport Hopen Hreq Hserve Ht Hpath Hstate.
  pose proof (callback_wrong_state (EncodeToString b) (exchange env) r make_chans
                Hpath Hstate) as Hacts.
  unfold StartOAuthFlow. rewrite Hrand. cbn [generateState].
  rewrite Hport, Hopen.
  rewrite (select_only_error (serve (EncodeToString b) env) t
             (errorString "state mismatch")); [reflexivity| | |exact Ht].
  all: unfold serve; rewrite Hreq, Hserve; cbn [first_result first_error];
    rewrite Hacts; reflexivity.
Qed.

(** The flow as a whole on a refusal: when the only request the server
    handles within the five minutes is a callback with the generated state
    and no code, the flow returns the authorization failure with the text
    of the provider. *)
Lemma StartOAuthFlow_denied (env : Env) (config : OAuthConfig)
    (b : list byte) (port : Z) (t : time.Duration) (r : Request) :
  rand_Read env = inl b ->
  net_Listen env = inl port ->
  browser_OpenURL env = None ->
  requests env = [(t, r)] ->
  serve_failure env = None ->
  t < timeout ->
  Path r = "/callback" ->
  Get (Query r) "state" = EncodeToString b ->
  Get (Query r) "code" = "" ->
  fst (StartOAuthFlow env config)
  = inr (errorString ("authorization failed: " ++ provider_text (Query r))).
Proof.
  intros Hrand Hport Hopen Hreq Hserve Ht Hpath Hstate Hcode.
  pose proof (callback_empty_code (EncodeToString b) (exchange env) r make_chans
                Hpath Hstate Hcode) as Hacts.
  unfold StartOAuthFlow. rewrite Hrand. cbn [generateState].
  rewrite Hport, Hopen.
  rewrite (select_only_error (serve (EncodeToString b) env) t
             (errorString ("authorization failed: " ++ provider_text (Query r))));
    [reflexivity| | |exact Ht].
  all: unfold serve; rewrite Hreq, Hserve; cbn [first_result first_error];
    rewrite Hacts; reflexivity.
Qed.

End Wait.



(** ** Slices *)
Section Slices.
Context {A : Type}.
Implicit Types (b : list A) (n : Z).

Lemma len_nil : len (@nil A) = 0.
Proof. reflexivity. Qed.

Lemma len_cons (x : A) b : len (x :: b) = 1 + len b.
Proof. unfold len. cbn [List.length]. lia. Qed.

Lemma len_nonneg b : 0 <= len b.
Proof. unfold len. lia. Qed.

Lemma len_app b1 b2 : len (b1 ++ b2) = len b1 + len b2.
Proof. unfold len. rewrite length_app. lia. Qed.

Lemma len_zero b : len b = 0 -> b = [].
Proof. destruct b; [reflexivity|]. rewrite len_cons. pose proof (len_nonneg b). lia. Qed.

Lemma take_cons (x : A) b n : 0 < n -> take n (x :: b) = x :: take (n - 1) b.
Proof. intros H. cbn [take]. apply Z.ltb_lt in H. rewrite H. reflexivity. Qed.

Lemma drop_cons (x : A) b n : 0 < n -> drop n (x :: b) = drop (n - 1) b.
Proof. intros H. cbn [drop]. apply Z.ltb_lt in H. rewrite H. reflexivity. Qed.

Lemma drop_zero b n : n <= 0 -> drop n b = b.
Proof.
  intros H. destruct b; [reflexivity|]. cbn [drop].
  destruct (0 <? n) eqn:E; [apply Z.ltb_lt in E; lia|reflexivity].
Qed.

Lemma take_zero b n : n <= 0 -> take n b = [].
Proof.
  intros H. destruct b; [reflexivity|]. cbn [take].
  destruct (0 <? n) eqn:E; [apply Z.ltb_lt in E; lia|reflexivity].
Qed.

Lemma len_take b : forall n, 0 <= n -> len (take n b) = Z.min n (len b).
Proof.
  induction b as [|x b IH]; intros n Hn.
  - cbn [take]. rewrite len_nil. lia.
  - destruct (Z.eq_dec n 0) as [->|Hne].
    + rewrite take_zero by lia. rewrite len_nil. pose proof (len_nonneg (x :: b)). lia.
    + rewrite take_cons by lia. rewrite !len_cons, IH by lia. lia.
Qed.

Lemma len_drop b : forall n, 0 <= n -> len (drop n b) = Z.max 0 (len b - n).
Proof.
  induction b as [|x b IH]; intros n Hn.
  - cbn [drop]. rewrite len_nil. lia.
  - destruct (Z.eq_dec n 0) as [->|Hne].
    + rewrite drop_zero by lia. pose proof (len_nonneg (x :: b)). lia.
    + rewrite drop_cons by lia. rewrite len_cons, IH by lia. pose proof (len_nonneg b). lia.
Qed.

Lemma take_drop b : forall n, (take n b ++ drop n b)%list = b.
Proof.
  induction b as [|x b IH]; intros n; [reflexivity|].
  destruct (Z.ltb_spec 0 n).
  - rewrite take_cons, drop_cons by lia. cbn [app]. rewrite IH. reflexivity.
  - rewrite take_zero, drop_zero by lia. reflexivity.
Qed.

Lemma drop_drop b : forall n m, 0 <= n -> 0 <= m -> drop m (drop n b) = drop (n + m) b.
Proof.
  induction b as [|x b IH]; intros n m Hn Hm; [reflexivity|].
  destruct (Z.eq_dec n 0) as [->|Hne].
  - rewrite (drop_zero (x :: b) 0) by lia. reflexivity.
  - rewrite drop_cons by lia. rewrite (drop_cons x b (n + m)) by lia.
    rewrite IH by lia. f_equal. lia.
Qed.

Lemma drop_all b n : len b <= n -> drop n b = [].
Proof.
  intros H. apply len_zero. pose proof (len_nonneg b).
  rewrite len_drop by lia. lia.
Qed.

Lemma take_all b n : len b <= n -> take n b = b.
Proof.
  intros H. rewrite <- (take_drop b n) at 2. rewrite (drop_all b n H).
  rewrite app_nil_r. reflexivity.
Qed.
End Slices.

(** ** Chunks of a source *)
Section Chunks.

Import session.

Variable c : Z.
Hypothesis c_pos : 0 < c.

Lemma nchunks_gt (n k : Z) : k < nchunks c n <-> k * c < n.
Proof.
  unfold nchunks. split; intros H.
  - pose proof (Z.mul_div_le (n + c - 1) c c_pos). nia.
  - assert (k + 1 <= (n + c - 1) / c); [|lia].
    apply Z.div_le_lower_bound; [exact c_pos|]. nia.
Qed.

Lemma nchunks_nonneg (n : Z) : 0 <= n -> 0 <= nchunks c n.
Proof. intros H. unfold nchunks. apply Z.div_pos; lia. Qed.

Lemma nchunks_zero : nchunks c 0 = 0.
Proof. unfold nchunks. apply Z.div_small. lia. Qed.

Lemma nchunks_one (n : Z) : 0 < n <= c -> nchunks c n = 1.
Proof.
  intros H. pose proof (nchunks_gt n 0). pose proof (nchunks_gt n 1). lia.
Qed.

Lemma nchunks_split (k r : Z) :
  0 <= k -> 0 < r <= c -> nchunks c (k * c + r) = k + 1.
Proof.
  intros Hk Hr. pose proof (nchunks_gt (k * c + r) k).
  pose proof (nchunks_gt (k * c + r) (k + 1)). nia.
Qed.

Variable data : list byte.

Lemma len_chunk_at (k : Z) :
  0 <= k -> len (chunk_at c data k) = Z.min c (Z.max 0 (len data - k * c)).
Proof.
  intros Hk. unfold chunk_at. rewrite len_take by lia.
  rewrite len_drop by nia. reflexivity.
Qed.

(** Every chunk but the last is full. *)
Lemma len_chunk_full (k : Z) :
  0 <= k -> k + 1 < nchunks c (len data) -> len (chunk_at c data k) = c.
Proof.
  intros Hk H. apply nchunks_gt in H. rewrite len_chunk_at by lia. nia.
Qed.

Lemma len_chunk_pos (k : Z) :
  0 <= k -> k < nchunks c (len data) -> 0 < len (chunk_at c data k).
Proof.
  intros Hk H. apply nchunks_gt in H. rewrite len_chunk_at by lia. lia.
Qed.

Lemma range_S (k m : nat) : range k (S m) = Z.of_nat k :: range (S k) m.
Proof. reflexivity. Qed.

Lemma range_snoc (k m : nat) :
  range k (S m) = (range k m ++ [Z.of_nat (k + m)])%list.
Proof. unfold range. rewrite seq_S, map_app. reflexivity. Qed.

(** The chunks, in order, make up the source from their start on. *)
Lemma concat_chunks (m k : nat) :
  Z.of_nat m = nchunks c (len data) - Z.of_nat k ->
  List.concat (map (chunk_at c data) (range k m)) = drop (Z.of_nat k * c) data.
Proof.
  revert k. induction m as [|m IH]; intros k Hm.
  - cbn. symmetry. apply drop_all.
    pose proof (nchunks_gt (len data) (Z.of_nat k)). lia.
  - rewrite range_S. cbn [map List.concat]. rewrite IH by lia.
    unfold chunk_at. replace (Z.of_nat (S k) * c) with (Z.of_nat k * c + c) by lia.
    rewrite <- drop_drop by nia. apply take_drop.
Qed.

End Chunks.

(** ** The loop of [uploadLarge] on a [bytes.Reader] *)
Section ChunkedUpload.

Import session.

Context {W : Type} (cl : files.Client W).
Variable c : Z.
Hypothesis c_pos : 0 < c.
Variable data : list byte.
Hypothesis data_fits : len data <= MaxInt.
Variable sess : files.UploadSessionStartResult.

Lemma wrap64_small (z : Z) : 0 <= z <= MaxInt -> wrap64 z = z.
Proof.
  intros H. unfold wrap64. apply Z.mod_small.
  unfold MaxInt in H. change (2 ^ 63) with 9223372036854775808 in H.
  change (2 ^ 64) with 18446744073709551616. lia.
Qed.

Lemma Read_at_end :
  bytes.Read (bytes.mkReader data (len data)) c =
  (([], Some io_EOF), bytes.mkReader data (len data)).
Proof.
  unfold bytes.Read. cbn [bytes.s bytes.i]. rewrite Z.leb_refl. reflexivity.
Qed.

Lemma Read_chunk (k : Z) :
  0 <= k -> k * c < len data ->
  bytes.Read (bytes.mkReader data (k * c)) c =
  ((chunk_at c data k, None),
   bytes.mkReader data (k * c + len (chunk_at c data k))).
Proof.
  intros Hk Hlt. unfold bytes.Read. cbn [bytes.s bytes.i].
  destruct (Z.leb_spec (len data) (k * c)); [lia|]. reflexivity.
Qed.

Lemma pos_step (k : nat) :
  Z.of_nat k * c < len data ->
  pos c data k = Z.of_nat k * c /\
  pos c data (S k) = Z.of_nat k * c + len (chunk_at c data (Z.of_nat k)).
Proof.
  intros H. unfold pos. rewrite len_chunk_at by lia. nia.
Qed.

Lemma uploadLoop_bytes (n : nat) :
  forall (k fuel : nat) (w : W) (log : list files.Entry),
    Z.of_nat n = nchunks c (len data) - Z.of_nat k ->
    (n < fuel)%nat ->
    exists res w' ext,
      dropbox.uploadLoop (files.logged cl) bytes.reader fuel c sess
        (pos c data k) (bytes.mkReader data (pos c data k)) (w, log)
      = Some (res, (w', (log ++ ext)%list)) /\
      ((res = inl (len data) /\
        ext = ok_entries (files.SessionId sess) c data k n) \/
       (exists m err,
           (m < n)%nat /\
           res = inr (Errorf_w "failed to append chunk: " err) /\
           ext = (ok_entries (files.SessionId sess) c data k m
                  ++ [failed_entry (files.SessionId sess) c data (k + m)])%list)).
Proof.
  induction n as [|n IH]; intros k fuel w log Hn Hfuel;
    (destruct fuel as [|fuel]; [lia|]).
  - assert (Hend : pos c data k = len data).
    { unfold pos. pose proof (nchunks_gt c c_pos (len data) (Z.of_nat k)). lia. }
    rewrite Hend. cbn [dropbox.uploadLoop io.Read bytes.reader].
    rewrite Read_at_end. change (len (@nil byte)) with 0.
    cbn [Z.ltb Z.compare is_EOF].
    exists (inl (len data)), w, []. rewrite app_nil_r.
    split; [reflexivity|]. left. split; reflexivity.
  - assert (Hlt : Z.of_nat k * c < len data).
    { apply (nchunks_gt c c_pos). lia. }
    destruct (pos_step k Hlt) as [Hk HSk].
    assert (Hpos : 0 < len (chunk_at c data (Z.of_nat k))).
    { apply (len_chunk_pos c c_pos); lia. }
    cbn [dropbox.uploadLoop io.Read bytes.reader].
    rewrite Hk, Read_chunk by lia.
    apply Z.ltb_lt in Hpos. rewrite Hpos. apply Z.ltb_lt in Hpos.
    cbn [files.logged files.UploadSessionAppendV2].
    destruct (files.UploadSessionAppendV2 cl _ _ w) as [[err|] w1] eqn:Happ.
    + exists (inr (Errorf_w "failed to append chunk: " err)), w1,
        [failed_entry (files.SessionId sess) c data k].
      split; [reflexivity|]. right. exists 0%nat, err.
      split; [lia|]. split; [reflexivity|].
      rewrite Nat.add_0_r. reflexivity.
    + cbn [is_EOF].
      assert (Hoff : wrap64 (Z.of_nat k * c + wrap64 (len (chunk_at c data (Z.of_nat k))))
                     = pos c data (S k)).
      { rewrite HSk. pose proof (len_nonneg data).
        pose proof (len_nonneg (chunk_at c data (Z.of_nat k))).
        assert (len (chunk_at c data (Z.of_nat k)) <= len data - Z.of_nat k * c).
        { rewrite len_chunk_at by lia. lia. }
        assert (0 <= Z.of_nat k * c) by nia.
        rewrite (wrap64_small (len (chunk_at c data (Z.of_nat k)))) by lia.
        rewrite wrap64_small; [reflexivity|lia]. }
      rewrite Hoff, <- HSk.
      destruct (IH (S k) fuel w1
                  (log ++ [files.mkEntry
                             (append_call (files.SessionId sess) c data (Z.of_nat k))
                             false])%list)
        as (res & w' & ext & Hrun & Hext); [lia|lia|].
      exists res, w',
        (files.mkEntry (append_call (files.SessionId sess) c data (Z.of_nat k)) false
         :: ext).
      split.
      * unfold append_call, files.is_some in *. cbn [files.is_some] in *.
        rewrite Hrun. rewrite <- app_assoc. reflexivity.
      * destruct Hext as [[Hres Hok]|(m & err & Hm & Hres & Hok)].
        -- left. split; [exact Hres|]. rewrite Hok. reflexivity.
        -- right. exists (S m), err. split; [lia|]. split; [exact Hres|].
           rewrite Hok. replace (k + S m)%nat with (S k + m)%nat by lia.
           reflexivity.
Qed.

End ChunkedUpload.

(** ** [uploadLarge] on a [bytes.Reader] *)
Section UploadLarge.

Import session.

Context {W : Type} (cl : files.Client W).
Variable commit : files.CommitInfo.
Variable data : list byte.
Hypothesis data_fits : len data <= MaxInt.

Lemma chunkSize_pos : 0 < dropbox.chunkSize.
Proof. reflexivity. Qed.

Lemma pos_zero (c : Z) : pos c data 0 = 0.
Proof. unfold pos. pose proof (len_nonneg data). lia. Qed.

(** With fuel for one iteration more than there are chunks, the chunked
    upload returns, in one of the three ways of [chunked]. *)
Lemma uploadLarge_chunked (fuel : nat) (w : W) (log : list files.Entry) :
  (Z.to_nat (nchunks dropbox.chunkSize (len data)) < fuel)%nat ->
  exists res w' ext,
    dropbox.uploadLarge (files.logged cl) bytes.reader fuel commit
      (bytes.NewReader data) (w, log)
    = Some (res, (w', (log ++ ext)%list)) /\
    chunked commit data res ext.
Proof.
  intros Hfuel. unfold dropbox.uploadLarge.
  cbn [files.logged files.UploadSessionStart].
  destruct (files.UploadSessionStart cl files.NewUploadSessionStartArg [] w)
    as [[sess|err] w1] eqn:Hstart.
  - pose proof (nchunks_nonneg _ chunkSize_pos (len data) (len_nonneg data)) as Hnn.
    destruct (uploadLoop_bytes cl _ chunkSize_pos data data_fits sess
                (Z.to_nat (nchunks dropbox.chunkSize (len data))) 0 fuel w1
                (log ++ [files.mkEntry start_call false])%list)
      as (res & w' & ext & Hrun & Hext); [lia|exact Hfuel|].
    rewrite pos_zero in Hrun. unfold bytes.NewReader.
    cbn [files.is_error]. fold start_call. rewrite Hrun.
    destruct Hext as [[-> ->]|(m & err & Hm & -> & ->)].
    + cbn [files.logged files.UploadSessionFinish].
      destruct (files.UploadSessionFinish cl _ [] w') as [r w2] eqn:Hfin.
      exists r, w2,
        (files.mkEntry start_call false
         :: ok_entries (files.SessionId sess) dropbox.chunkSize data 0
              (Z.to_nat (nchunks dropbox.chunkSize (len data)))
         ++ [files.mkEntry (finish_call (files.SessionId sess) (len data) commit)
               (files.is_error r)])%list.
      split; [|apply finished].
      rewrite <- !app_assoc. reflexivity.
    + exists (inr (Errorf_w "failed to append chunk: " err)), w',
        (files.mkEntry start_call false
         :: ok_entries (files.SessionId sess) dropbox.chunkSize data 0 m
         ++ [failed_entry (files.SessionId sess) dropbox.chunkSize data m])%list.
      split; [|apply append_rejected; lia].
      rewrite <- !app_assoc. reflexivity.
  - exists (inr (Errorf_w "failed to start upload session: " err)), w1,
      [files.mkEntry start_call true].
    split; [reflexivity|apply start_rejected].
Qed.

End UploadLarge.

(** ** What the log of a chunked upload says *)
Section SessionLog.

Import session.

Lemma last_bad {A : Type} (P : A -> Prop) (pre : list A) (x : A)
    (l1 : list A) (e : A) (l2 : list A) :
  (pre ++ [x])%list = (l1 ++ e :: l2)%list ->
  (forall a, In a pre -> ~ P a) ->
  P e ->
  l2 = [] /\ l1 = pre /\ e = x.
Proof.
  intros Heq Hpre He.
  destruct (exists_last (l := e :: l2)) as (l2' & y & Hl2); [discriminate|].
  rewrite Hl2, app_assoc in Heq.
  apply app_inj_tail in Heq. destruct Heq as [Hpre' Hx].
  destruct l2' as [|e' l2'].
  - cbn in Hl2. injection Hl2 as Hey Hnil. rewrite app_nil_r in Hpre'.
    split; [exact Hnil|]. split; [symmetry; exact Hpre'|congruence].
  - cbn in Hl2. injection Hl2 as Hee _. subst e'. exfalso.
    apply (Hpre e); [|exact He]. rewrite Hpre'. apply in_or_app. right. left.
    reflexivity.
Qed.

Variable sid : string.
Variable c : Z.
Variable data : list byte.

Lemma ok_entries_calls (k m : nat) :
  map files.call (ok_entries sid c data k m) =
  map (append_call sid c data) (range k m).
Proof. unfold ok_entries. rewrite map_map. reflexivity. Qed.

Lemma ok_entries_In (k m : nat) (e : files.Entry) :
  In e (ok_entries sid c data k m) ->
  files.failed e = false /\ files.is_append (files.call e) = true /\
  files.is_finish (files.call e) = false /\ files.is_start (files.call e) = false /\
  files.is_direct (files.call e) = false.
Proof.
  unfold ok_entries. rewrite in_map_iff. intros (j & <- & _). repeat split.
Qed.

Lemma ok_entries_S (k m : nat) :
  ok_entries sid c data k (S m) =
  files.mkEntry (append_call sid c data (Z.of_nat k)) false
  :: ok_entries sid c data (S k) m.
Proof. reflexivity. Qed.

End SessionLog.

(** ** The calls of a complete upload *)
Section Expected.

Import session.

Variable sid : string.
Variable c : Z.
Hypothesis c_pos : 0 < c.
Variable data : list byte.

Lemma appended_app (l1 l2 : list files.Call) :
  appended (l1 ++ l2) = appended l1 + appended l2.
Proof.
  induction l1 as [|x l1 IH]; [reflexivity|].
  cbn [app]. unfold appended in *. cbn [fold_right]. rewrite IH.
  destruct x; lia.
Qed.

(** The appends of the chunks [k], ..., [k+m-1] carry the bytes between
    the read positions before and after them. *)
Lemma appended_appends (m : nat) :
  forall k : nat,
    appended (map (append_call sid c data) (range k m))
    = pos c data (k + m) - pos c data k.
Proof.
  induction m as [|m IH]; intros k.
  - rewrite Nat.add_0_r. cbn. lia.
  - rewrite range_S. cbn [map]. unfold appended. cbn [fold_right append_call].
    fold (appended (map (append_call sid c data) (range (S k) m))).
    rewrite IH. rewrite len_chunk_at by lia.
    replace (k + S m)%nat with (S k + m)%nat by lia.
    unfold pos. pose proof (len_nonneg data).
    replace (Z.of_nat (S k) * c) with (Z.of_nat k * c + c) by lia.
    assert (0 <= Z.of_nat k * c) by nia.
    assert (Z.of_nat k * c + c <= Z.of_nat (S k + m) * c) by nia.
    lia.
Qed.

Lemma firstn_range {B : Type} (f : Z -> B) (j : nat) :
  forall k m : nat,
    (j <= m)%nat -> firstn j (map f (range k m)) = map f (range k j).
Proof.
  induction j as [|j IH]; intros k m Hj; [reflexivity|].
  destruct m as [|m]; [lia|].
  rewrite !range_S. cbn [map firstn]. rewrite IH by lia. reflexivity.
Qed.

Lemma range_length (k m : nat) : List.length (range k m) = m.
Proof. unfold range. rewrite length_map, length_seq. reflexivity. Qed.

Lemma nth_error_range (k m j : nat) :
  (j < m)%nat -> nth_error (range k m) j = Some (Z.of_nat (k + j)).
Proof.
  intros Hj. unfold range. rewrite nth_error_map, nth_error_seq.
  apply Nat.ltb_lt in Hj. rewrite Hj. reflexivity.
Qed.

End Expected.

Section ExpectedCalls.

Import session.

Variable sid : string.
Variable commit : files.CommitInfo.
Variable data : list byte.

(** Call number [k + 1] of a complete upload is the append of chunk [k], at
    the offset [k * chunkSize], and the appends before it carry that many
    bytes. *)
Lemma expected_append (k : nat) :
  Z.of_nat k < nchunks dropbox.chunkSize (len data) ->
  nth_error (expected_calls sid commit data) (S k)
  = Some (append_call sid dropbox.chunkSize data (Z.of_nat k)) /\
  appended (firstn (S k) (expected_calls sid commit data))
  = Z.of_nat k * dropbox.chunkSize.
Proof.
  intros Hk. pose proof chunkSize_pos as Hc. unfold expected_calls.
  assert (Hlt : (k < Z.to_nat (nchunks dropbox.chunkSize (len data)))%nat) by lia.
  split.
  - cbn [nth_error]. rewrite nth_error_app1 by (rewrite length_map, range_length; exact Hlt).
    rewrite nth_error_map, nth_error_range by exact Hlt. reflexivity.
  - cbn [firstn]. rewrite firstn_app, length_map, range_length.
    replace (k - Z.to_nat (nchunks dropbox.chunkSize (len data)))%nat with 0%nat by lia.
    rewrite firstn_range by lia. cbn [firstn]. rewrite app_nil_r.
    change (appended (start_call :: ?l)) with (appended l).
    rewrite (appended_appends sid _ Hc). rewrite pos_zero. unfold pos. cbn [Nat.add].
    apply (nchunks_gt _ Hc) in Hk. lia.
Qed.

(** The last call of a complete upload is the finish at the length of the
    source, which is the number of bytes the appends carry. *)
Lemma expected_finish :
  len data <= MaxInt ->
  last (expected_calls sid commit data) start_call
  = finish_call sid (len data) commit /\
  appended (expected_calls sid commit data) = len data.
Proof.
  intros _. pose proof chunkSize_pos as Hc. unfold expected_calls. split.
  - rewrite app_comm_cons. apply last_last.
  - change (appended (start_call :: ?l)) with (appended l).
    rewrite appended_app, (appended_appends sid _ Hc), pos_zero.
    unfold pos. cbn [Nat.add].
    pose proof (len_nonneg data) as Hlen.
    pose proof (nchunks_nonneg _ Hc (len data) Hlen) as Hnn.
    pose proof (nchunks_gt _ Hc (len data) (nchunks dropbox.chunkSize (len data))) as Hg.
    rewrite Z2Nat.id by exact Hnn.
    change (appended [finish_call sid (len data) commit]) with 0. lia.
Qed.

End ExpectedCalls.

(** ** The offsets of [uploadLarge] on any reader *)
Section AnyReader.

Import session.

Context {W : Type} (cl : files.Client W).
Context {S : Type} (R : io.Reader S).

(** However the reader cuts its source, and whatever the provider answers,
    a loop that returns has appended each chunk at the offset the chunks
    before it add up to. *)
Lemma uploadLoop_chain (buffer : Z) (sess : files.UploadSessionStartResult)
    (fuel : nat) :
  forall (off : Z) (reader : S) (w : W) (log : list files.Entry)
         (res : result Z) (w' : W) (log' : list files.Entry),
    dropbox.uploadLoop (files.logged cl) R fuel buffer sess off reader (w, log)
    = Some (res, (w', log')) ->
    exists oks off' tail,
      log' = (log ++ oks ++ tail)%list /\
      chain (files.SessionId sess) off oks off' /\
      stopped (files.SessionId sess) off' res tail.
Proof.
  induction fuel as [|fuel IH]; intros off reader w log res w' log' Hrun;
    [discriminate|].
  cbn [dropbox.uploadLoop] in Hrun.
  destruct (io.Read R reader buffer) as [[chunk err] reader'].
  destruct (0 <? len chunk).
  - cbn [files.logged files.UploadSessionAppendV2] in Hrun.
    destruct (files.UploadSessionAppendV2 cl _ chunk w) as [[e|] w1].
    + injection Hrun as <- <- <-.
      eexists [], off, _. split; [reflexivity|]. split; constructor.
    + cbn [files.is_some] in Hrun.
      destruct (is_EOF err) eqn:Heof.
      * injection Hrun as <- <- <-.
        eexists [_], _, []. split; [reflexivity|].
        split; [apply chain_append; apply chain_end|apply stopped_eof].
      * destruct err as [e|].
        -- injection Hrun as <- <- <-.
           eexists [_], _, []. split; [reflexivity|].
           split; [apply chain_append; apply chain_end|apply stopped_read].
        -- apply IH in Hrun. destruct Hrun as (oks & off' & tail & -> & Hch & Hst).
           eexists (_ :: oks), off', tail. split.
           ++ rewrite <- app_assoc. reflexivity.
           ++ split; [apply chain_append; exact Hch|exact Hst].
  - destruct (is_EOF err) eqn:Heof.
    + injection Hrun as <- <- <-.
      exists [], off, []. rewrite app_nil_r. split; [reflexivity|].
      split; constructor.
    + destruct err as [e|].
      * injection Hrun as <- <- <-.
        exists [], off, []. rewrite app_nil_r. split; [reflexivity|].
        split; constructor.
      * apply IH in Hrun. exact Hrun.
Qed.

(** As long as the total fits a [uint64], the offset a chain ends at is the
    offset it starts at plus the bytes it appends. *)
Lemma chain_sum (sid : string) (off : Z) (oks : list files.Entry) (off' : Z) :
  chain sid off oks off' ->
  0 <= off ->
  off + appended (map files.call oks) < 2 ^ 64 ->
  off' = off + appended (map files.call oks).
Proof.
  induction 1 as [off|off content rest off' Hch IH]; intros Hoff Hfit.
  - cbn. lia.
  - cbn [map files.call] in *. unfold appended in *. cbn [fold_right] in *.
    fold (appended (map files.call rest)) in *.
    pose proof (len_nonneg content) as Hlen.
    assert (Hrest : 0 <= appended (map files.call rest)).
    { clear. induction rest as [|e rest IH]; [cbn; lia|].
      cbn [map]. unfold appended in *. cbn [fold_right].
      destruct (files.call e) as [? ?|? ?|? c|? ?]; try exact IH.
      pose proof (len_nonneg c). lia. }
    assert (Hw : wrap64 (off + wrap64 (len content)) = off + len content).
    { unfold wrap64. rewrite (Z.mod_small (len content)) by lia.
      apply Z.mod_small. lia. }
    rewrite Hw in IH. rewrite IH by lia. lia.
Qed.

(** [uploadLarge] on any reader: a run that returns has made the start,
    then a chain of accepted appends from offset 0, and then either stopped
    on a rejected append or a failed read, with that error, or made the
    finish at the offset the chain ends at. *)
Lemma uploadLarge_chain (fuel : nat) (commit : files.CommitInfo) (reader : S)
    (w : W) (log : list files.Entry)
    (res : result files.FileMetadata) (w' : W) (log' : list files.Entry) :
  dropbox.uploadLarge (files.logged cl) R fuel commit reader (w, log)
  = Some (res, (w', log')) ->
  (exists err,
      res = inr (Errorf_w "failed to start upload session: " err) /\
      log' = (log ++ [files.mkEntry start_call true])%list) \/
  (exists sid oks off tail,
      log' = (log ++ files.mkEntry start_call false :: oks ++ tail)%list /\
      chain sid 0 oks off /\
      ((exists e, res = inr e /\ stopped sid off (inr e) tail) \/
       tail = [files.mkEntry (finish_call sid off commit) (files.is_error res)])).
Proof.
  unfold dropbox.uploadLarge. cbn [files.logged files.UploadSessionStart].
  destruct (files.UploadSessionStart cl files.NewUploadSessionStartArg [] w)
    as [[sess|err] w1].
  - cbn [files.is_error]. fold start_call.
    destruct (dropbox.uploadLoop _ _ _ _ _ _ _ _) as [[[off|e] [w2 log2]]|] eqn:Hloop;
      [| |discriminate].
    + apply uploadLoop_chain in Hloop.
      destruct Hloop as (oks & off' & tail & -> & Hch & Hst).
      inversion Hst; subst.
      cbn [files.logged files.UploadSessionFinish].
      destruct (files.UploadSessionFinish cl _ [] w2) as [r w3].
      intros Hrun. injection Hrun as <- <- <-.
      right.
      exists (files.SessionId sess), oks, off,
        [files.mkEntry (finish_call (files.SessionId sess) off commit)
           (files.is_error r)].
      split; [|split; [exact Hch|right; reflexivity]].
      rewrite app_nil_r, <- !app_assoc. reflexivity.
    + apply uploadLoop_chain in Hloop.
      destruct Hloop as (oks & off' & tail & -> & Hch & Hst).
      intros Hrun. injection Hrun as <- <- <-.
      right. exists (files.SessionId sess), oks, off', tail.
      split; [|split; [exact Hch|left; exists e; split; [reflexivity|exact Hst]]].
      rewrite <- !app_assoc. reflexivity.
  - intros Hrun. injection Hrun as <- <- <-.
    left. exists err. split; reflexivity.
Qed.

End AnyReader.

(** The scenario of the design document: 200 MiB make 50 chunks of 4 MiB,
    appended at 0, 4194304, 8388608, ..., and the finish is at 209715200. *)
Lemma two_hundred_MiB (sid : string) (commit : files.CommitInfo) (data : list byte) :
  len data = 200 * 1024 * 1024 ->
  session.nchunks dropbox.chunkSize (len data) = 50 /\
  (forall k : nat,
      (k < 50)%nat ->
      nth_error (session.expected_calls sid commit data) (S k)
      = Some (session.append_call sid dropbox.chunkSize data (Z.of_nat k)) /\
      Z.of_nat k * dropbox.chunkSize = Z.of_nat k * 4194304 /\
      len (session.chunk_at dropbox.chunkSize data (Z.of_nat k)) = 4194304) /\
  last (session.expected_calls sid commit data) session.start_call
  = session.finish_call sid 209715200 commit.
Proof.
  intros Hlen.
  assert (Hn : session.nchunks dropbox.chunkSize (len data) = 50).
  { rewrite Hlen. reflexivity. }
  split; [exact Hn|]. split.
  - intros k Hk. split; [|split].
    + apply expected_append. rewrite Hn. lia.
    + reflexivity.
    + rewrite (len_chunk_at _ chunkSize_pos) by lia. rewrite Hlen.
      change dropbox.chunkSize with 4194304.
      change (200 * 1024 * 1024) with 209715200. lia.
  - replace 209715200 with (len data) by (rewrite Hlen; reflexivity).
    apply expected_finish. rewrite Hlen. vm_compute. discriminate.
Qed.

(** ** The chunked upload engine *)
Section ChunkedEngine.

Import session.

Context {W : Type} (cl : files.Client W).
Variable commit : files.CommitInfo.
Variable data : list byte.

Lemma chunked_run_unique (fuel : nat) (w : W) (log : list files.Entry)
    (res : result files.FileMetadata) (w' : W) (ext : list files.Entry) :
  len data <= MaxInt ->
  (Z.to_nat (nchunks dropbox.chunkSize (len data)) < fuel)%nat ->
  dropbox.uploadLarge (files.logged cl) bytes.reader fuel commit
    (bytes.NewReader data) (w, log) = Some (res, (w', (log ++ ext)%list)) ->
  chunked commit data res ext.
Proof.
  intros Hfits Hfuel Hrun.
  destruct (uploadLarge_chunked cl commit data Hfits fuel w log Hfuel)
    as (res0 & w0 & ext0 & Hrun0 & Hch).
  rewrite Hrun0 in Hrun. injection Hrun as Hres Hw Hext.
  apply app_inv_head in Hext. subst. exact Hch.
Qed.

(** C1. A source of [N] bytes read through the 4 MiB buffer is uploaded by
    the calls of [expected_calls] whenever no call before the finish is
    rejected: the start, then for k = 0, 1, ... the append of the k-th
    chunk at offset [k * chunkSize], which is the number of bytes appended
    before it, then the finish at offset [N], which is the number of
    bytes appended in all. The chunks are the source cut in order. There
    is no append for N = 0, one append of the whole source for
    0 < N <= chunkSize, and k + 1 appends, the last of r bytes, for
    N = k * chunkSize + r with 0 < r < chunkSize. *)
Theorem uploadLarge_offsets (fuel : nat) (w : W) (log : list files.Entry) :
  len data <= MaxInt ->
  (Z.to_nat (nchunks dropbox.chunkSize (len data)) < fuel)%nat ->
  (exists res w' ext,
      dropbox.uploadLarge (files.logged cl) bytes.reader fuel commit
        (bytes.NewReader data) (w, log) = Some (res, (w', (log ++ ext)%list))) /\
  (forall res w' ext,
      dropbox.uploadLarge (files.logged cl) bytes.reader fuel commit
        (bytes.NewReader data) (w, log) = Some (res, (w', (log ++ ext)%list)) ->
      (forall e, In e ext -> files.is_finish (files.call e) = false ->
                 files.failed e = false) ->
      exists sid, map files.call ext = expected_calls sid commit data) /\
  (forall (sid : string) (k : nat),
      Z.of_nat k < nchunks dropbox.chunkSize (len data) ->
      nth_error (expected_calls sid commit data) (S k)
      = Some (append_call sid dropbox.chunkSize data (Z.of_nat k)) /\
      appended (firstn (S k) (expected_calls sid commit data))
      = Z.of_nat k * dropbox.chunkSize) /\
  (forall sid : string,
      last (expected_calls sid commit data) start_call
      = finish_call sid (len data) commit /\
      appended (expected_calls sid commit data) = len data) /\
  List.concat
    (map (chunk_at dropbox.chunkSize data)
       (range 0 (Z.to_nat (nchunks dropbox.chunkSize (len data)))))
  = data /\
  (len data = 0 ->
   forall sid, expected_calls sid commit data
               = [start_call; finish_call sid 0 commit]) /\
  (0 < len data <= dropbox.chunkSize ->
   chunk_at dropbox.chunkSize data 0 = data /\
   forall sid, expected_calls sid commit data
               = [start_call; append_call sid dropbox.chunkSize data 0;
                  finish_call sid (len data) commit]) /\
  (forall k r : Z,
      1 <= k -> 0 < r < dropbox.chunkSize ->
      len data = k * dropbox.chunkSize + r ->
      nchunks dropbox.chunkSize (len data) = k + 1 /\
      len (chunk_at dropbox.chunkSize data k) = r).
Proof.
  intros Hfits Hfuel.
  pose proof chunkSize_pos as Hc.
  pose proof (len_nonneg data) as Hlen.
  pose proof (nchunks_nonneg _ Hc (len data) Hlen) as Hnn.
  split; [|split; [|split; [|split; [|split; [|split; [|split]]]]]].
  - destruct (uploadLarge_chunked cl commit data Hfits fuel w log Hfuel)
      as (res & w' & ext & Hrun & _).
    exists res, w', ext. exact Hrun.
  - intros res w' ext Hrun Hok.
    pose proof (chunked_run_unique fuel w log res w' ext Hfits Hfuel Hrun) as Hch.
    inversion Hch as [err Hr He|sid m err Hm Hr He|sid r Hr He]; subst.
    + specialize (Hok _ (or_introl eq_refl) eq_refl). discriminate.
    + assert (Hin : In (failed_entry sid dropbox.chunkSize data m)
                      (files.mkEntry start_call false
                       :: ok_entries sid dropbox.chunkSize data 0 m
                       ++ [failed_entry sid dropbox.chunkSize data m])%list).
      { right. apply in_or_app. right. left. reflexivity. }
      specialize (Hok _ Hin eq_refl). discriminate.
    + exists sid. cbn [map]. rewrite map_app, ok_entries_calls. reflexivity.
  - intros sid k Hk. apply expected_append. exact Hk.
  - intros sid. apply expected_finish. exact Hfits.
  - rewrite (concat_chunks _ Hc) by lia.
    apply drop_zero. lia.
  - intros H0 sid. unfold expected_calls. rewrite H0.
    rewrite (nchunks_zero _ Hc). reflexivity.
  - intros H1. split.
    + unfold chunk_at. rewrite Z.mul_0_l, drop_zero by lia. apply take_all. lia.
    + intros sid. unfold expected_calls.
      rewrite (nchunks_one _ Hc) by lia. reflexivity.
  - intros k r Hk Hr HN. split.
    + rewrite HN. apply (nchunks_split _ Hc); lia.
    + rewrite (len_chunk_at _ Hc) by lia. lia.
Qed.

(** C7. When an append is rejected, the upload returns the error "failed
    to append chunk", the rejected append is the last call made (no append
    and no finish follows it, and it is not tried again), and every call
    before it was accepted. *)
Theorem append_failure_aborts (fuel : nat) (w : W) (log : list files.Entry) :
  len data <= MaxInt ->
  (Z.to_nat (nchunks dropbox.chunkSize (len data)) < fuel)%nat ->
  (exists res w' ext,
      dropbox.uploadLarge (files.logged cl) bytes.reader fuel commit
        (bytes.NewReader data) (w, log) = Some (res, (w', (log ++ ext)%list))) /\
  (forall res w' ext l1 e l2,
      dropbox.uploadLarge (files.logged cl) bytes.reader fuel commit
        (bytes.NewReader data) (w, log) = Some (res, (w', (log ++ ext)%list)) ->
      ext = (l1 ++ e :: l2)%list ->
      files.is_append (files.call e) = true ->
      files.failed e = true ->
      (exists err, res = inr (Errorf_w "failed to append chunk: " err)) /\
      l2 = [] /\
      (forall e', In e' ext -> files.is_finish (files.call e') = false) /\
      (forall e', In e' l1 -> files.failed e' = false)).
Proof.
  intros Hfits Hfuel. split.
  - destruct (uploadLarge_chunked cl commit data Hfits fuel w log Hfuel)
      as (res & w' & ext & Hrun & _).
    exists res, w', ext. exact Hrun.
  - intros res w' ext l1 e l2 Hrun Hsplit Happ Hfail.
    pose proof (chunked_run_unique fuel w log res w' ext Hfits Hfuel Hrun) as Hch.
    set (bad := fun e : files.Entry =>
                  files.is_append (files.call e) = true /\ files.failed e = true).
    assert (Hbad : bad e) by (split; assumption).
    inversion Hch as [err Hr He|sid m err Hm Hr He|sid r Hr He].
    + exfalso. rewrite Hsplit in He.
      destruct (last_bad bad [] _ l1 e l2 He) as (_ & _ & Hx);
        [intros a []|exact Hbad|].
      rewrite Hx in Happ. discriminate.
    + rewrite Hsplit in He.
      assert (Hpre : forall a,
                 In a (files.mkEntry start_call false
                       :: ok_entries sid dropbox.chunkSize data 0 m) -> ~ bad a).
      { intros a [<-|Hin] [Ha Hf]; [discriminate|].
        apply ok_entries_In in Hin. destruct Hin as [Hin _]. congruence. }
      destruct (last_bad bad
                  (files.mkEntry start_call false
                   :: ok_entries sid dropbox.chunkSize data 0 m)
                  (failed_entry sid dropbox.chunkSize data m)
                  l1 e l2 He Hpre Hbad) as (Hl2 & Hl1 & Hx).
      split; [exists err; reflexivity|]. split; [exact Hl2|]. split.
      * intros e' Hin. destruct Hin as [<-|Hin]; [reflexivity|].
        apply in_app_or in Hin. destruct Hin as [Hin|[<-|[]]]; [|reflexivity].
        apply ok_entries_In in Hin. tauto.
      * intros e' Hin. rewrite Hl1 in Hin. destruct Hin as [<-|Hin];
          [reflexivity|]. apply ok_entries_In in Hin. tauto.
    + exfalso. rewrite Hsplit in He.
      assert (Hpre : forall a,
                 In a (files.mkEntry start_call false
                       :: ok_entries sid dropbox.chunkSize data 0
                            (Z.to_nat (nchunks dropbox.chunkSize (len data))))
                 -> ~ bad a).
      { intros a [<-|Hin] [Ha Hf]; [discriminate|].
        apply ok_entries_In in Hin. destruct Hin as [Hin _]. congruence. }
      destruct (last_bad bad
                  (files.mkEntry start_call false
                   :: ok_entries sid dropbox.chunkSize data 0
                        (Z.to_nat (nchunks dropbox.chunkSize (len data))))
                  (files.mkEntry (finish_call sid (len data) commit)
                     (files.is_error res))
                  l1 e l2 He Hpre Hbad) as (_ & _ & Hx).
      rewrite Hx in Happ. discriminate.
Qed.

End ChunkedEngine.

(** C1 at a concrete source: three bytes to a provider that accepts all. *)
Lemma uploadLarge_offsets_witness :
  exists sid,
    map files.call
      [files.mkEntry session.start_call false;
       files.mkEntry
         (session.append_call "sid" dropbox.chunkSize (list_byte_of_string "abc") 0)
         false;
       files.mkEntry
         (session.finish_call "sid" 3 (dropbox.Upload_commitInfo 77 "/a.txt" "add"))
         false]
    = session.expected_calls sid (dropbox.Upload_commitInfo 77 "/a.txt" "add")
        (list_byte_of_string "abc").
Proof.
  destruct (uploadLarge_offsets session.accepting
              (dropbox.Upload_commitInfo 77 "/a.txt" "add")
              (list_byte_of_string "abc") 2 tt []) as (_ & H & _).
  - vm_compute. discriminate.
  - vm_compute. lia.
  - apply (H (inl (files.mkFileMetadata "" "/a.txt" 3 0 "rev")) tt).
    + reflexivity.
    + intros e [<-|[<-|[<-|[]]]]; intros; reflexivity.
Defined.

(** C7 at a concrete run: the provider rejects the first append. *)
Lemma append_failure_aborts_witness :
  (exists err,
      @inr files.FileMetadata error
        (errorString "failed to append chunk: too_many_write_operations")
      = inr (Errorf_w "failed to append chunk: " err)) /\
  @nil files.Entry = [] /\
  (forall e',
      In e' [files.mkEntry session.start_call false;
             session.failed_entry "sid" dropbox.chunkSize (list_byte_of_string "abc") 0] ->
      files.is_finish (files.call e') = false) /\
  (forall e', In e' [files.mkEntry session.start_call false] ->
              files.failed e' = false).
Proof.
  destruct (append_failure_aborts session.failing_after
              (dropbox.Upload_commitInfo 77 "/a.txt" "add")
              (list_byte_of_string "abc") 2 0%nat []) as (_ & H).
  - vm_compute. discriminate.
  - vm_compute. lia.
  - apply (H (inr (errorString "failed to append chunk: too_many_write_operations"))
             0%nat
             [files.mkEntry session.start_call false;
              session.failed_entry "sid" dropbox.chunkSize (list_byte_of_string "abc") 0]
             [files.mkEntry session.start_call false]
             (session.failed_entry "sid" dropbox.chunkSize (list_byte_of_string "abc") 0)
             []); reflexivity.
Defined.

(** ** [Upload]: what is sent, with which commit, and by which path *)
Section UploadPaths.

Import session.

Lemma Contains_newline (s : string) :
  strings.Contains s (String newline "") = true <->
  In newline (list_ascii_of_string s).
Proof.
  induction s as [|a s IH].
  - cbn. split; [discriminate|tauto].
  - cbn [strings.Contains String.prefix list_ascii_of_string In].
    destruct (ascii_dec newline a) as [->|Hne].
    + destruct s; cbn; tauto.
    + rewrite IH. split; [tauto|]. intros [H|H]; [congruence|exact H].
Qed.

Lemma Upload_data_raw (content : string) :
  In newline (list_ascii_of_string content) \/ dropbox.isBase64 content = false ->
  dropbox.Upload_data content = list_byte_of_string content.
Proof.
  intros H. unfold dropbox.Upload_data.
  destruct (strings.Contains content (String newline "")) eqn:Hc; [reflexivity|].
  destruct H as [H|H].
  - apply Contains_newline in H. congruence.
  - rewrite H. reflexivity.
Qed.

Lemma Upload_data_decoded (content : string) (decoded : list byte) :
  ~ In newline (list_ascii_of_string content) ->
  base64.DecodeString content = inl decoded ->
  dropbox.Upload_data content = decoded.
Proof.
  intros Hnl Hdec. unfold dropbox.Upload_data, dropbox.isBase64.
  destruct (strings.Contains content (String newline "")) eqn:Hc.
  - exfalso. apply Hnl. apply Contains_newline. exact Hc.
  - rewrite Hdec. reflexivity.
Qed.

Lemma payload_app (l1 l2 : list files.Entry) :
  payload (l1 ++ l2) = (payload l1 ++ payload l2)%list.
Proof. unfold payload. rewrite map_app, concat_app. reflexivity. Qed.

Lemma payload_ok_entries (sid : string) (data : list byte) (k m : nat) :
  payload (ok_entries sid dropbox.chunkSize data k m)
  = List.concat (map (chunk_at dropbox.chunkSize data) (range k m)).
Proof. unfold payload, ok_entries. rewrite map_map. reflexivity. Qed.

(** The first [m] chunks are the start of the source. *)
Lemma chunks_prefix (data : list byte) (m : nat) :
  (List.concat (map (chunk_at dropbox.chunkSize data) (range 0 m))
   ++ drop (Z.of_nat m * dropbox.chunkSize) data)%list = data.
Proof.
  pose proof chunkSize_pos as Hc.
  induction m as [|m IH].
  - cbn [range seq map List.concat app]. apply drop_zero. lia.
  - rewrite range_snoc, map_app, concat_app. cbn [map List.concat].
    rewrite app_nil_r, <- app_assoc, Nat.add_0_l.
    replace (drop (Z.of_nat (S m) * dropbox.chunkSize) data)
      with (drop dropbox.chunkSize (drop (Z.of_nat m * dropbox.chunkSize) data)).
    + unfold chunk_at. rewrite take_drop. exact IH.
    + rewrite drop_drop by nia. f_equal. lia.
Qed.

(** What a chunked upload hands to the provider is a start of the data,
    and all of them when the upload succeeds. *)
Lemma chunked_payload (commit : files.CommitInfo) (data : list byte)
    (res : result files.FileMetadata) (ext : list files.Entry) :
  chunked commit data res ext ->
  (exists rest, (payload ext ++ rest)%list = data) /\
  (files.is_error res = false -> payload ext = data).
Proof.
  intros Hch. inversion Hch as [err Hr He|sid m err Hm Hr He|sid r Hr He].
  - split; [exists data; reflexivity|discriminate].
  - split; [|discriminate].
    exists (drop (Z.of_nat (S m) * dropbox.chunkSize) data).
    change (files.mkEntry start_call false
            :: ok_entries sid dropbox.chunkSize data 0 m
            ++ [failed_entry sid dropbox.chunkSize data m])%list
      with ([files.mkEntry start_call false]
            ++ ok_entries sid dropbox.chunkSize data 0 m
            ++ [failed_entry sid dropbox.chunkSize data m])%list.
    rewrite !payload_app, payload_ok_entries.
    change (payload [files.mkEntry start_call false]) with (@nil byte).
    change (payload [failed_entry sid dropbox.chunkSize data m])
      with (chunk_at dropbox.chunkSize data (Z.of_nat m) ++ [])%list.
    cbn [app]. rewrite app_nil_r.
    pose proof (chunks_prefix data (S m)) as Hp.
    rewrite range_snoc, map_app, concat_app in Hp. cbn [map List.concat] in Hp.
    rewrite app_nil_r, Nat.add_0_l in Hp. exact Hp.
  - assert (Hall : payload
                     (files.mkEntry start_call false
                      :: ok_entries sid dropbox.chunkSize data 0
                           (Z.to_nat (nchunks dropbox.chunkSize (len data)))
                      ++ [files.mkEntry (finish_call sid (len data) commit)
                            (files.is_error r)])%list = data).
    { change (files.mkEntry start_call false :: ?l)
        with ([files.mkEntry start_call false] ++ l)%list.
      rewrite !payload_app, payload_ok_entries.
      change (payload [files.mkEntry start_call false]) with (@nil byte).
      change (payload [files.mkEntry (finish_call sid (len data) commit)
                         (files.is_error r)]) with (@nil byte).
      cbn [app]. rewrite app_nil_r.
      pose proof (nchunks_nonneg _ chunkSize_pos (len data) (len_nonneg data)).
      rewrite (concat_chunks _ chunkSize_pos) by lia.
      apply drop_zero. lia. }
    rewrite Hr in Hall.
    split; [exists []; rewrite app_nil_r; exact Hall|intros _; exact Hall].
Qed.

Context {W : Type} (cl : files.Client W).
Variable now : time.Time.
Variables path content mode : string.

Lemma Upload_arg_commit :
  files.UploadArg_CommitInfo
    (dropbox.Upload_arg path (dropbox.Upload_commitInfo now path mode))
  = dropbox.Upload_commitInfo now path mode.
Proof. unfold dropbox.Upload_commitInfo. destruct (mode =? "overwrite")%string; reflexivity. Qed.

(** [Upload] returns: by the chunked path, in one of the ways of [chunked],
    when the data are longer than the limit, and by one direct call
    otherwise. *)
Lemma Upload_run (fuel : nat) (w : W) (log : list files.Entry) :
  len (dropbox.Upload_data content) <= MaxInt ->
  (Z.to_nat (nchunks dropbox.chunkSize (len (dropbox.Upload_data content))) < fuel)%nat ->
  exists res w' ext,
    dropbox.Upload (files.logged cl) now fuel path content mode (w, log)
    = Some (res, (w', (log ++ ext)%list)) /\
    ((dropbox.directLimit < len (dropbox.Upload_data content) /\
      chunked (dropbox.Upload_commitInfo now path mode)
        (dropbox.Upload_data content) res ext) \/
     (len (dropbox.Upload_data content) <= dropbox.directLimit /\
      ext = [files.mkEntry
               (files.CallUpload
                  (dropbox.Upload_arg path (dropbox.Upload_commitInfo now path mode))
                  (dropbox.Upload_data content))
               (files.is_error res)])).
Proof.
  intros Hfits Hfuel. unfold dropbox.Upload.
  destruct (Z.ltb_spec dropbox.directLimit (len (dropbox.Upload_data content)))
    as [Hbig|Hsmall].
  - destruct (uploadLarge_chunked cl (dropbox.Upload_commitInfo now path mode)
                (dropbox.Upload_data content) Hfits fuel w log Hfuel)
      as (res & w' & ext & Hrun & Hch).
    exists res, w', ext. split; [exact Hrun|]. left. split; assumption.
  - cbn [files.logged files.Upload].
    destruct (files.Upload cl _ _ w) as [r w1] eqn:Hup.
    exists r, w1,
      [files.mkEntry
         (files.CallUpload
            (dropbox.Upload_arg path (dropbox.Upload_commitInfo now path mode))
            (dropbox.Upload_data content))
         (files.is_error r)].
    split; [reflexivity|]. right. split; [exact Hsmall|reflexivity].
Qed.

Lemma chunked_calls (commit : files.CommitInfo) (data : list byte)
    (res : result files.FileMetadata) (ext : list files.Entry) :
  chunked commit data res ext ->
  (exists f ext', ext = files.mkEntry start_call f :: ext') /\
  (forall e, In e ext -> files.is_direct (files.call e) = false) /\
  (forall e arg body, In e ext -> files.call e = files.CallFinish arg body ->
                      files.FinishArg_Commit arg = commit).
Proof.
  intros Hch. inversion Hch as [err Hr He|sid m err Hm Hr He|sid r Hr He].
  - split; [exists true, []; reflexivity|]. split.
    + intros e [<-|[]]. reflexivity.
    + intros e arg body [<-|[]]. discriminate.
  - split.
    { eexists _, _. reflexivity. }
    split.
    + intros e [<-|Hin]; [reflexivity|].
      apply in_app_or in Hin. destruct Hin as [Hin|[<-|[]]]; [|reflexivity].
      apply ok_entries_In in Hin. tauto.
    + intros e arg body [<-|Hin]; [discriminate|].
      apply in_app_or in Hin. destruct Hin as [Hin|[<-|[]]]; [|discriminate].
      apply ok_entries_In in Hin. destruct Hin as (_ & _ & Hf & _).
      intros Hc. rewrite Hc in Hf. discriminate.
  - split.
    { eexists _, _. reflexivity. }
    split.
    + intros e [<-|Hin]; [reflexivity|].
      apply in_app_or in Hin. destruct Hin as [Hin|[<-|[]]]; [|reflexivity].
      apply ok_entries_In in Hin. tauto.
    + intros e arg body [<-|Hin]; [discriminate|].
      apply in_app_or in Hin. destruct Hin as [Hin|[<-|[]]].
      * apply ok_entries_In in Hin. destruct Hin as (_ & _ & Hf & _).
        intros Hc. rewrite Hc in Hf. discriminate.
      * cbn. intros Hc. injection Hc as <- _. reflexivity.
Qed.


Lemma Upload_run_unique (fuel : nat) (w : W) (log : list files.Entry)
    (res : result files.FileMetadata) (w' : W) (ext : list files.Entry) :
  len (dropbox.Upload_data content) <= MaxInt ->
  (Z.to_nat (nchunks dropbox.chunkSize (len (dropbox.Upload_data content))) < fuel)%nat ->
  dropbox.Upload (files.logged cl) now fuel path content mode (w, log)
  = Some (res, (w', (log ++ ext)%list)) ->
  (dropbox.directLimit < len (dropbox.Upload_data content) /\
   chunked (dropbox.Upload_commitInfo now path mode)
     (dropbox.Upload_data content) res ext) \/
  (len (dropbox.Upload_data content) <= dropbox.directLimit /\
   ext = [files.mkEntry
            (files.CallUpload
               (dropbox.Upload_arg path (dropbox.Upload_commitInfo now path mode))
               (dropbox.Upload_data content))
            (files.is_error res)]).
Proof.
  intros Hfits Hfuel Hrun.
  destruct (Upload_run fuel w log Hfits Hfuel) as (res0 & w0 & ext0 & Hrun0 & H).
  rewrite Hrun0 in Hrun. injection Hrun as Hres Hw Hext.
  apply app_inv_head in Hext. subst. exact H.
Qed.

(** What [Upload] hands to the provider is a start of its data, and all
    of them when it succeeds. *)
Lemma Upload_payload (fuel : nat) (w : W) (log : list files.Entry) :
  len (dropbox.Upload_data content) <= MaxInt ->
  (Z.to_nat (nchunks dropbox.chunkSize (len (dropbox.Upload_data content))) < fuel)%nat ->
  exists res w' ext,
    dropbox.Upload (files.logged cl) now fuel path content mode (w, log)
    = Some (res, (w', (log ++ ext)%list)) /\
    ((dropbox.directLimit < len (dropbox.Upload_data content) /\
      chunked (dropbox.Upload_commitInfo now path mode)
        (dropbox.Upload_data content) res ext) \/
     (len (dropbox.Upload_data content) <= dropbox.directLimit /\
      ext = [files.mkEntry
               (files.CallUpload
                  (dropbox.Upload_arg path (dropbox.Upload_commitInfo now path mode))
                  (dropbox.Upload_data content))
               (files.is_error res)])) /\
    (exists rest, (payload ext ++ rest)%list = dropbox.Upload_data content) /\
    (files.is_error res = false -> payload ext = dropbox.Upload_data content).
Proof.
  intros Hfits Hfuel.
  destruct (Upload_run fuel w log Hfits Hfuel) as (res & w' & ext & Hrun & H).
  exists res, w', ext. split; [exact Hrun|]. split; [exact H|].
  destruct H as [[_ Hch]|[_ Hext]].
  - apply (chunked_payload _ _ _ _ Hch).
  - rewrite Hext. unfold payload. cbn [map List.concat files.call content_of].
    rewrite app_nil_r. split; [exists []; apply app_nil_r|reflexivity].
Qed.

Lemma Upload_commitInfo_eq :
  dropbox.Upload_commitInfo now path mode
  = files.mkCommitInfo path
      (files.mkWriteMode (if (mode =? "overwrite")%string then "overwrite" else "add"))
      true (Some now) false false.
Proof.
  unfold dropbox.Upload_commitInfo. destruct (mode =? "overwrite")%string; reflexivity.
Qed.

Lemma Upload_arg_eq :
  dropbox.Upload_arg path (dropbox.Upload_commitInfo now path mode)
  = files.mkUploadArg (dropbox.Upload_commitInfo now path mode) "".
Proof.
  unfold dropbox.Upload_arg, dropbox.Upload_commitInfo.
  destruct (mode =? "overwrite")%string; reflexivity.
Qed.

(** C6. [Upload] takes the chunked path exactly when the data are longer
    than 150 MiB: then the calls are those of a session, the first of them
    the start, and none is a direct upload. Otherwise the only call is one
    direct upload of all the data, whose argument carries the path, mode,
    autorename flag and client-modified time of the commit, and no session
    is opened. *)
Theorem Upload_threshold (fuel : nat) (w : W) (log : list files.Entry) :
  len (dropbox.Upload_data content) <= MaxInt ->
  (Z.to_nat (nchunks dropbox.chunkSize (len (dropbox.Upload_data content))) < fuel)%nat ->
  (exists res w' ext,
      dropbox.Upload (files.logged cl) now fuel path content mode (w, log)
      = Some (res, (w', (log ++ ext)%list))) /\
  (forall res w' ext,
      dropbox.Upload (files.logged cl) now fuel path content mode (w, log)
      = Some (res, (w', (log ++ ext)%list)) ->
      (existsb (fun e => files.is_start (files.call e)) ext = true <->
       150 * 1024 * 1024 < len (dropbox.Upload_data content)) /\
      (150 * 1024 * 1024 < len (dropbox.Upload_data content) ->
       chunked (dropbox.Upload_commitInfo now path mode)
         (dropbox.Upload_data content) res ext /\
       (exists f ext', ext = files.mkEntry start_call f :: ext') /\
       (forall e, In e ext -> files.is_direct (files.call e) = false)) /\
      (len (dropbox.Upload_data content) <= 150 * 1024 * 1024 ->
       ext = [files.mkEntry
                (files.CallUpload
                   (dropbox.Upload_arg path (dropbox.Upload_commitInfo now path mode))
                   (dropbox.Upload_data content))
                (files.is_error res)] /\
       files.UploadArg_CommitInfo
         (dropbox.Upload_arg path (dropbox.Upload_commitInfo now path mode))
       = dropbox.Upload_commitInfo now path mode)).
Proof.
  intros Hfits Hfuel. split.
  - destruct (Upload_run fuel w log Hfits Hfuel) as (res & w' & ext & Hrun & _).
    exists res, w', ext. exact Hrun.
  - intros res w' ext Hrun.
    change (150 * 1024 * 1024) with dropbox.directLimit.
    destruct (Upload_run_unique fuel w log res w' ext Hfits Hfuel Hrun)
      as [[Hbig Hch]|[Hsmall Hext]].
    + destruct (chunked_calls _ _ _ _ Hch) as ((f & ext' & Hfirst) & Hdirect & _).
      split; [|split].
      * rewrite Hfirst. cbn [existsb files.is_start files.call start_call orb].
        tauto.
      * intros _. split; [exact Hch|]. split; [|exact Hdirect].
        exists f, ext'. exact Hfirst.
      * intros H. lia.
    + split; [|split].
      * rewrite Hext. cbn [existsb files.is_start files.call orb].
        split; [discriminate|lia].
      * intros H. lia.
      * intros _. split; [exact Hext|apply Upload_arg_commit].
Qed.

(** C10. Every call of [Upload] returns, and the calls it makes carry one
    commit: its path is the path given, autorename is set, the
    client-modified time is the current time, and its mode is "overwrite"
    exactly when the mode given is "overwrite" and "add" for every other
    string. Data of at most 150 MiB go by one direct upload whose argument
    is this commit; longer data go by a session that is finished, when it
    gets that far, with this commit; and an upload that succeeds has made
    an accepted call that carries it. [HandleUpload] turns the empty mode
    into "add", so that it answers the empty mode as it answers "add", and
    hands on every other mode as it is. *)
Theorem Upload_commit (fuel : nat) (w : W) (log : list files.Entry) :
  (len (dropbox.Upload_data content) <= MaxInt ->
   (Z.to_nat (nchunks dropbox.chunkSize (len (dropbox.Upload_data content))) < fuel)%nat ->
   exists commit res w' ext,
     dropbox.Upload (files.logged cl) now fuel path content mode (w, log)
     = Some (res, (w', (log ++ ext)%list)) /\
     files.Path commit = path /\
     files.Autorename commit = true /\
     files.ClientModified commit = Some now /\
     files.Mute commit = false /\
     files.StrictConflict commit = false /\
     (files.Mode commit = files.mkWriteMode "overwrite" <-> mode = "overwrite") /\
     (mode <> "overwrite" -> files.Mode commit = files.mkWriteMode "add") /\
     (len (dropbox.Upload_data content) <= 150 * 1024 * 1024 ->
      ext = [files.mkEntry
               (files.CallUpload (files.mkUploadArg commit "")
                  (dropbox.Upload_data content))
               (files.is_error res)]) /\
     (150 * 1024 * 1024 < len (dropbox.Upload_data content) ->
      chunked commit (dropbox.Upload_data content) res ext) /\
     (forall e, In e ext ->
        match files.call e with
        | files.CallUpload arg _ => files.UploadArg_CommitInfo arg = commit
        | files.CallFinish arg _ => files.FinishArg_Commit arg = commit
        | _ => True
        end) /\
     (files.is_error res = false ->
      exists e, In e ext /\ files.failed e = false /\
        match files.call e with
        | files.CallUpload arg _ => files.UploadArg_CommitInfo arg = commit
        | files.CallFinish arg _ => files.FinishArg_Commit arg = commit
        | _ => False
        end)) /\
  (forall args : handlers.UploadArgs,
      (handlers.Mode args = "" -> handlers.HandleUpload_mode args = "add") /\
      (handlers.Mode args <> "" ->
       handlers.HandleUpload_mode args = handlers.Mode args)) /\
  (forall (env : dropbox.Env) (files_New : string -> files.Client W)
          (p c : string) (cfg : config.Config),
      handlers.HandleUpload env files_New now fuel
        (inl (handlers.mkUploadArgs p c "")) cfg w
      = handlers.HandleUpload env files_New now fuel
          (inl (handlers.mkUploadArgs p c "add")) cfg w).
Proof.
  split; [|split].
  - intros Hfits Hfuel.
    destruct (Upload_run fuel w log Hfits Hfuel) as (res & w' & ext & Hrun & H).
    exists (dropbox.Upload_commitInfo now path mode), res, w', ext.
    split; [exact Hrun|].
    rewrite <- Upload_arg_eq.
    change (150 * 1024 * 1024) with dropbox.directLimit.
    assert (Hcarry :
              forall e, In e ext ->
                match files.call e with
                | files.CallUpload arg _ =>
                    files.UploadArg_CommitInfo arg
                    = dropbox.Upload_commitInfo now path mode
                | files.CallFinish arg _ =>
                    files.FinishArg_Commit arg
                    = dropbox.Upload_commitInfo now path mode
                | _ => True
                end).
    { intros e Hin. destruct H as [[_ Hch]|[_ Hext]].
      - destruct (chunked_calls _ _ _ _ Hch) as (_ & Hdirect & Hfinish).
        destruct (files.call e) as [arg b|arg b|arg b|arg b] eqn:Hcall;
          try exact I.
        + specialize (Hdirect e Hin). rewrite Hcall in Hdirect. discriminate.
        + apply (Hfinish e arg b Hin Hcall).
      - rewrite Hext in Hin. destruct Hin as [<-|[]]. cbn. apply Upload_arg_commit. }
    rewrite Upload_commitInfo_eq at 1 2 3 4 5 6 7.
    cbn [files.Path files.Autorename files.ClientModified files.Mute
         files.StrictConflict files.Mode].
    repeat (split; [reflexivity|]).
    split.
    { destruct (String.eqb_spec mode "overwrite") as [Heq|Hne].
      - tauto.
      - split; [discriminate|contradiction]. }
    split.
    { intros Hne. apply String.eqb_neq in Hne. rewrite Hne. reflexivity. }
    split; [intros Hsmall; destruct H as [[Hbig _]|[_ Hext]]; [lia|exact Hext]|].
    split; [intros Hbig; destruct H as [[_ Hch]|[Hsmall _]]; [exact Hch|lia]|].
    split; [exact Hcarry|].
    intros Hok. destruct H as [[_ Hch]|[_ Hext]].
    + inversion Hch as [err Hr He|sid m err Hm Hr He|sid r Hr He].
      * rewrite <- Hr in Hok. discriminate.
      * rewrite <- Hr in Hok. discriminate.
      * exists (files.mkEntry
                  (finish_call sid (len (dropbox.Upload_data content))
                     (dropbox.Upload_commitInfo now path mode))
                  (files.is_error res)).
        split; [right; apply in_or_app; right; left; reflexivity|].
        split; [exact Hok|reflexivity].
    + exists (files.mkEntry
                (files.CallUpload
                   (dropbox.Upload_arg path (dropbox.Upload_commitInfo now path mode))
                   (dropbox.Upload_data content))
                (files.is_error res)).
      split; [rewrite Hext; left; reflexivity|].
      split; [exact Hok|apply Upload_arg_commit].
  - intros args. unfold handlers.HandleUpload_mode. split.
    + intros H. rewrite H. reflexivity.
    + intros H. apply is_empty_false in H. rewrite H. reflexivity.
  - intros env files_New p c cfg. reflexivity.
Qed.

End UploadPaths.

(** C9. [Upload] hands to the provider the bytes of the content string
    when it contains a line feed or does not decode as standard base64,
    and the decoded bytes otherwise, and every content is of one of these
    two kinds. Every call of [Upload] returns; data of at most 150 MiB go
    by one direct upload that carries exactly these bytes, longer data by
    a session whose calls carry a start of them, cut into chunks, and all
    of them when the upload succeeds. So the text [password], which has no
    line feed and happens to decode, is uploaded as six other bytes. *)
Theorem Upload_data_heuristic :
  (forall (W : Type) (cl : files.Client W) (now : time.Time) (fuel : nat)
          (path content mode : string) (w : W) (log : list files.Entry)
          (d : list byte),
      ((In newline (list_ascii_of_string content)
        \/ (exists e, base64.DecodeString content = inr e)) /\
       d = list_byte_of_string content) \/
      (~ In newline (list_ascii_of_string content) /\
       base64.DecodeString content = inl d) ->
      len d <= MaxInt ->
      (Z.to_nat (session.nchunks dropbox.chunkSize (len d)) < fuel)%nat ->
      exists res w' ext,
        dropbox.Upload (files.logged cl) now fuel path content mode (w, log)
        = Some (res, (w', (log ++ ext)%list)) /\
        (len d <= 150 * 1024 * 1024 ->
         exists arg,
           ext = [files.mkEntry (files.CallUpload arg d) (files.is_error res)]) /\
        (150 * 1024 * 1024 < len d ->
         session.chunked (dropbox.Upload_commitInfo now path mode) d res ext) /\
        (exists rest, (session.payload ext ++ rest)%list = d) /\
        (files.is_error res = false -> session.payload ext = d)) /\
  (forall content : string,
      exists d,
        ((In newline (list_ascii_of_string content)
          \/ (exists e, base64.DecodeString content = inr e)) /\
         d = list_byte_of_string content) \/
        (~ In newline (list_ascii_of_string content) /\
         base64.DecodeString content = inl d)) /\
  (forall content : string,
      dropbox.isBase64 content = false <->
      exists e, base64.DecodeString content = inr e) /\
  (~ In newline (list_ascii_of_string "password") /\
   base64.DecodeString "password" = inl [xa5; xab; x2c; xc2; x8a; xdd] /\
   [xa5; xab; x2c; xc2; x8a; xdd] <> list_byte_of_string "password") /\
  (forall (W : Type) (cl : files.Client W) (now : time.Time)
          (path mode : string) (w : W) (log : list files.Entry),
      exists arg res w',
        dropbox.Upload (files.logged cl) now 0 path "password" mode (w, log)
        = Some (res,
                (w', (log ++ [files.mkEntry
                                (files.CallUpload arg [xa5; xab; x2c; xc2; x8a; xdd])
                                (files.is_error res)])%list))).
Proof.
  assert (Hb64 : forall content : string,
             dropbox.isBase64 content = false <->
             exists e, base64.DecodeString content = inr e).
  { intros content. unfold dropbox.isBase64.
    destruct (base64.DecodeString content) as [d|e].
    - split; [discriminate|]. intros (e & He). discriminate.
    - split; [|reflexivity]. intros _. exists e. reflexivity. }
  split; [|split; [|split; [exact Hb64|split]]].
  - intros W cl now fuel path content mode w log d Hd Hfits Hfuel.
    assert (Hdata : dropbox.Upload_data content = d).
    { destruct Hd as [[Hraw ->]|[Hnl Hdec]].
      - apply Upload_data_raw. destruct Hraw as [Hnl|He]; [left; exact Hnl|].
        right. apply Hb64. exact He.
      - apply Upload_data_decoded; assumption. }
    rewrite <- Hdata in Hfits, Hfuel.
    destruct (Upload_payload cl now path content mode fuel w log Hfits Hfuel)
      as (res & w' & ext & Hrun & H & Hpre & Hall).
    rewrite Hdata in *. change (150 * 1024 * 1024) with dropbox.directLimit.
    exists res, w', ext. split; [exact Hrun|].
    split; [intros Hsmall; destruct H as [[Hbig _]|[_ Hext]];
            [lia|eexists; exact Hext]|].
    split; [intros Hbig; destruct H as [[_ Hch]|[Hsmall _]]; [exact Hch|lia]|].
    split; assumption.
  - intros content.
    destruct (in_dec ascii_dec newline (list_ascii_of_string content)) as [Hin|Hnin].
    + exists (list_byte_of_string content). left. split; [left; exact Hin|reflexivity].
    + destruct (base64.DecodeString content) as [d|e] eqn:Hdec.
      * exists d. right. split; [exact Hnin|reflexivity].
      * exists (list_byte_of_string content). left.
        split; [right; exists e; reflexivity|reflexivity].
  - split; [|split; [reflexivity|discriminate]].
    cbn. intros H. repeat (destruct H as [H|H]; [discriminate|]). exact H.
  - intros W cl now path mode w log. unfold dropbox.Upload.
    change (dropbox.Upload_data "password") with [xa5; xab; x2c; xc2; x8a; xdd].
    change (dropbox.directLimit <? len [xa5; xab; x2c; xc2; x8a; xdd]) with false.
    cbn [files.logged files.Upload].
    destruct (files.Upload cl _ _ w) as [r w1].
    eexists _, r, w1. reflexivity.
Qed.

(** C9 at concrete contents: a text with a space goes out as it is, and
    [YWJj] goes out as [abc]. *)
Lemma Upload_data_heuristic_witness :
  (exists res w' ext,
      dropbox.Upload (files.logged session.accepting) 77 2 "/a.txt" "hello world"
        "add" (tt, [])
      = Some (res, (w', ([] ++ ext)%list)) /\
      exists arg,
        ext = [files.mkEntry (files.CallUpload arg (list_byte_of_string "hello world"))
                 (files.is_error res)]) /\
  (exists res w' ext,
      dropbox.Upload (files.logged session.accepting) 77 2 "/a.txt" "YWJj"
        "add" (tt, [])
      = Some (res, (w', ([] ++ ext)%list)) /\
      exists arg,
        ext = [files.mkEntry (files.CallUpload arg (list_byte_of_string "abc"))
                 (files.is_error res)]).
Proof.
  split.
  - destruct (proj1 Upload_data_heuristic unit session.accepting 77 2%nat
                "/a.txt" "hello world" "add" tt [] (list_byte_of_string "hello world"))
      as (res & w' & ext & Hrun & Hdirect & _).
    + left. split; [right; eexists; reflexivity|reflexivity].
    + vm_compute. discriminate.
    + vm_compute. lia.
    + exists res, w', ext. split; [exact Hrun|]. apply Hdirect.
      vm_compute. discriminate.
  - destruct (proj1 Upload_data_heuristic unit session.accepting 77 2%nat
                "/a.txt" "YWJj" "add" tt [] (list_byte_of_string "abc"))
      as (res & w' & ext & Hrun & Hdirect & _).
    + right. split; [|reflexivity].
      cbn. intros H. repeat (destruct H as [H|H]; [discriminate|]). exact H.
    + vm_compute. discriminate.
    + vm_compute. lia.
    + exists res, w', ext. split; [exact Hrun|]. apply Hdirect.
      vm_compute. discriminate.
Defined.

(** C6 at concrete contents: eleven bytes go by one direct call. *)
Lemma Upload_threshold_witness :
  exists res w' ext,
    dropbox.Upload (files.logged session.accepting) 77 2 "/a.txt" "hello world" "add"
      (tt, [])
    = Some (res, (w', ([] ++ ext)%list)).
Proof.
  apply (Upload_threshold session.accepting 77 "/a.txt" "hello world" "add" 2 tt []).
  - vm_compute. discriminate.
  - vm_compute. lia.
Defined.

(** C10 at concrete modes: an unknown mode is sent as "add". *)
Lemma Upload_commit_witness :
  exists commit res w' ext,
    dropbox.Upload (files.logged session.accepting) 77 2 "/a.txt" "x" "update"
      (tt, [])
    = Some (res, (w', ([] ++ ext)%list)) /\
    files.Autorename commit = true /\
    files.ClientModified commit = Some 77 /\
    files.Mode commit = files.mkWriteMode "add" /\
    ext = [files.mkEntry
             (files.CallUpload (files.mkUploadArg commit "")
                (dropbox.Upload_data "x"))
             (files.is_error res)].
Proof.
  destruct (proj1 (Upload_commit session.accepting 77 "/a.txt" "x" "update" 2 tt []))
    as (commit & res & w' & ext & Hrun & _ & Hauto & Htime & _ & _ & _ & Hadd
        & Hdirect & _).
  - vm_compute. discriminate.
  - vm_compute. lia.
  - exists commit, res, w', ext.
    split; [exact Hrun|]. split; [exact Hauto|]. split; [exact Htime|].
    split; [apply Hadd; discriminate|].
    apply Hdirect. vm_compute. discriminate.
Defined.


(** * Further properties of the code *)

(** ** The token store and the client constructor *)
Section ClientConstructor.

Import config.

Lemma IsTokenValid_true (now : time.Time) (c : Config) :
  IsTokenValid now c = true <->
  AccessToken c <> "" /\ (ExpiresAt c = 0 \/ now < ExpiresAt c).
Proof.
  unfold IsTokenValid, time.IsZero, time.Before.
  destruct (is_empty (AccessToken c)) eqn:Ha.
  - apply is_empty_true in Ha. split; [discriminate|]. intros [H _]. contradiction.
  - apply is_empty_false in Ha.
    destruct (Z.eqb_spec (ExpiresAt c) 0) as [H0|H0].
    + split; auto.
    + rewrite Z.ltb_lt. split; [auto|]. intros [_ [H|H]]; [contradiction|exact H].
Qed.

(** X1. A credential is valid exactly when it has an access token and
    either no expiry or an expiry after the current time; at the instant
    of the expiry it is no longer valid. *)
Theorem IsTokenValid_iff (now : time.Time) (c : Config) :
  (IsTokenValid now c = true <->
   AccessToken c <> "" /\ (ExpiresAt c = 0 \/ now < ExpiresAt c)) /\
  (ExpiresAt c = now -> now <> 0 -> IsTokenValid now c = false).
Proof.
  split; [apply IsTokenValid_true|].
  intros He Hn. apply not_true_is_false. intros H.
  apply IsTokenValid_true in H. lia.
Qed.

Lemma NeedsRefresh_has_token (now : time.Time) (c : Config) :
  NeedsRefresh now c = true -> is_empty (RefreshToken c) = false.
Proof.
  unfold NeedsRefresh. destruct (is_empty (RefreshToken c)); [discriminate|reflexivity].
Qed.

(** X2. [NewClient] hands out a client only for a credential that is valid
    when it is checked: the token of the client is the access token of the
    credential as [NewClient] leaves it, it is not empty, and it has not
    expired. *)
Theorem NewClient_token_valid (env : dropbox.Env) (cfg : Config) (token : string) :
  fst (dropbox.NewClient env cfg) = inl token ->
  token = AccessToken (snd (dropbox.NewClient env cfg)) /\
  token <> "" /\
  IsTokenValid (dropbox.now_IsTokenValid env) (snd (dropbox.NewClient env cfg)) = true.
Proof.
  assert (Hgen : forall cfg',
    fst (if negb (IsTokenValid (dropbox.now_IsTokenValid env) cfg')
         then (inr (errorString "invalid or expired token"), cfg')
         else (@inl string error (AccessToken cfg'), cfg')) = inl token ->
    token = AccessToken
              (snd (if negb (IsTokenValid (dropbox.now_IsTokenValid env) cfg')
                    then (@inr string error (errorString "invalid or expired token"), cfg')
                    else (inl (AccessToken cfg'), cfg'))) /\
    token <> "" /\
    IsTokenValid (dropbox.now_IsTokenValid env)
      (snd (if negb (IsTokenValid (dropbox.now_IsTokenValid env) cfg')
            then (@inr string error (errorString "invalid or expired token"), cfg')
            else (inl (AccessToken cfg'), cfg'))) = true).
  { intros cfg'.
    destruct (IsTokenValid (dropbox.now_IsTokenValid env) cfg') eqn:Hv;
      cbn [negb fst snd]; [|discriminate].
    intros H. injection H as <-. split; [reflexivity|]. split; [|exact Hv].
    apply (IsTokenValid_true (dropbox.now_IsTokenValid env) cfg') in Hv. tauto. }
  unfold dropbox.NewClient.
  destruct (NeedsRefresh (dropbox.now_NeedsRefresh env) cfg
            && negb (is_empty (RefreshToken cfg))); [|apply Hgen].
  destruct (dropbox.RefreshToken env _ _) as [res|err]; [|discriminate].
  destruct (dropbox.Save env _); [discriminate|apply Hgen].
Qed.

(** X3. When the credential needs no refresh, [NewClient] does not consult
    the provider and does not save: its outcome is the same in every
    environment with the same clock, the credential is left as it was, and
    the outcome is the access token if the credential is valid and the
    error "invalid or expired token" if not. *)
Theorem NewClient_without_refresh (env env' : dropbox.Env) (cfg : Config) :
  NeedsRefresh (dropbox.now_NeedsRefresh env) cfg = false ->
  dropbox.now_IsTokenValid env' = dropbox.now_IsTokenValid env ->
  dropbox.now_NeedsRefresh env' = dropbox.now_NeedsRefresh env ->
  dropbox.NewClient env' cfg = dropbox.NewClient env cfg /\
  snd (dropbox.NewClient env cfg) = cfg /\
  fst (dropbox.NewClient env cfg)
  = (if IsTokenValid (dropbox.now_IsTokenValid env) cfg
     then inl (AccessToken cfg)
     else inr (errorString "invalid or expired token")).
Proof.
  intros Hn Hv Hr. unfold dropbox.NewClient. rewrite Hv, Hr, Hn. cbn [andb].
  destruct (IsTokenValid (dropbox.now_IsTokenValid env) cfg); repeat split.
Qed.

(** X4. When the credential needs a refresh, [NewClient] asks the provider
    with the stored client id, client secret and refresh token. If the
    provider refuses, the error is returned and the credential is left as
    it was. If the provider answers but the credential cannot be saved,
    the error is returned although the credential in memory already holds
    the new tokens. If it is saved, the client gets the new access token
    provided that token is valid. *)
Theorem NewClient_with_refresh (env : dropbox.Env) (cfg : Config) :
  NeedsRefresh (dropbox.now_NeedsRefresh env) cfg = true ->
  let answer :=
    dropbox.RefreshToken env
      (auth.mkOAuthConfig (ClientID cfg) (ClientSecret cfg) "")
      (RefreshToken cfg) in
  (forall err,
      answer = inr err ->
      dropbox.NewClient env cfg
      = (inr (errorString ("failed to refresh token: " ++ Error err)), cfg)) /\
  (forall res err,
      answer = inl res ->
      dropbox.Save env
        (UpdateTokens cfg (auth.AccessToken res) (auth.RefreshToken res)
           (auth.ExpiresAt res)) = Some err ->
      dropbox.NewClient env cfg
      = (inr (errorString ("failed to save updated config: " ++ Error err)),
         UpdateTokens cfg (auth.AccessToken res) (auth.RefreshToken res)
           (auth.ExpiresAt res))) /\
  (forall res,
      answer = inl res ->
      dropbox.Save env
        (UpdateTokens cfg (auth.AccessToken res) (auth.RefreshToken res)
           (auth.ExpiresAt res)) = None ->
      auth.AccessToken res <> "" ->
      auth.ExpiresAt res = 0 \/ dropbox.now_IsTokenValid env < auth.ExpiresAt res ->
      dropbox.NewClient env cfg
      = (inl (auth.AccessToken res),
         UpdateTokens cfg (auth.AccessToken res) (auth.RefreshToken res)
           (auth.ExpiresAt res))).
Proof.
  intros Hn answer. subst answer.
  pose proof (NeedsRefresh_has_token _ _ Hn) as Ht.
  unfold dropbox.NewClient. rewrite Hn, Ht. cbn [andb negb].
  split; [|split].
  - intros err ->. reflexivity.
  - intros res err -> ->. reflexivity.
  - intros res -> -> Ha He.
    assert (Hv : IsTokenValid (dropbox.now_IsTokenValid env)
                   (UpdateTokens cfg (auth.AccessToken res) (auth.RefreshToken res)
                      (auth.ExpiresAt res)) = true).
    { apply IsTokenValid_true. rewrite UpdateTokens_fields. cbn. auto. }
    rewrite Hv. cbn [negb]. rewrite UpdateTokens_fields. reflexivity.
Qed.

End ClientConstructor.

(** X1 at a concrete credential: the token expires this instant. *)
Lemma IsTokenValid_iff_witness :
  config.IsTokenValid 100 (config.mkConfig "id" "secret" "at" "rt" 100) = false.
Proof.
  apply (IsTokenValid_iff 100 (config.mkConfig "id" "secret" "at" "rt" 100)).
  - reflexivity.
  - discriminate.
Defined.

(** X2 at a concrete credential: a token without expiry. *)
Lemma NewClient_token_valid_witness :
  "at" = config.AccessToken
           (snd (dropbox.NewClient
                   (dropbox.mkEnv 100 100 (fun _ _ => inr io_EOF) (fun _ => None))
                   (config.mkConfig "id" "secret" "at" "" 0))).
Proof.
  apply (NewClient_token_valid
           (dropbox.mkEnv 100 100 (fun _ _ => inr io_EOF) (fun _ => None))
           (config.mkConfig "id" "secret" "at" "" 0) "at").
  reflexivity.
Defined.

(** X3 at a concrete credential: the provider is down and is not asked. *)
Lemma NewClient_without_refresh_witness :
  dropbox.NewClient
    (dropbox.mkEnv 100 100 (fun _ _ => inl (auth.mkAuthResult "new" "" 0))
       (fun _ => Some io_EOF))
    (config.mkConfig "id" "secret" "at" "rt" (100 + 10 * time.Minute))
  = dropbox.NewClient
      (dropbox.mkEnv 100 100 (fun _ _ => inr io_EOF) (fun _ => None))
      (config.mkConfig "id" "secret" "at" "rt" (100 + 10 * time.Minute)).
Proof.
  apply (NewClient_without_refresh
           (dropbox.mkEnv 100 100 (fun _ _ => inr io_EOF) (fun _ => None))
           (dropbox.mkEnv 100 100 (fun _ _ => inl (auth.mkAuthResult "new" "" 0))
              (fun _ => Some io_EOF))
           (config.mkConfig "id" "secret" "at" "rt" (100 + 10 * time.Minute)));
    reflexivity.
Defined.

(** X4 at a concrete credential: expired, refreshed, saved. *)
Lemma NewClient_with_refresh_witness :
  dropbox.NewClient
    (dropbox.mkEnv 100 100 (fun _ _ => inl (auth.mkAuthResult "new" "" 900))
       (fun _ => None))
    (config.mkConfig "id" "secret" "old" "rt" 50)
  = (inl "new", config.mkConfig "id" "secret" "new" "rt" 900).
Proof.
  destruct (NewClient_with_refresh
              (dropbox.mkEnv 100 100 (fun _ _ => inl (auth.mkAuthResult "new" "" 900))
                 (fun _ => None))
              (config.mkConfig "id" "secret" "old" "rt" 50)) as (_ & _ & H);
    [reflexivity|].
  apply (H (auth.mkAuthResult "new" "" 900)); try reflexivity.
  - discriminate.
  - right. reflexivity.
Defined.


(** ** The state of the authorization flow *)
Section GeneratedState.

Import auth.

Lemma hexdigit_spec (n : nat) :
  (n < 16)%nat ->
  In (hexdigit (N.of_nat n)) (list_ascii_of_string hextable) /\
  forall m : nat, (m < 16)%nat ->
                  hexdigit (N.of_nat n) = hexdigit (N.of_nat m) -> n = m.
Proof.
  intros Hn.
  do 16 (destruct n as [|n];
         [split;
          [vm_compute; tauto
          |intros m Hm;
           do 16 (destruct m as [|m];
                  [vm_compute; intros H; first [reflexivity|discriminate H]|]);
           exfalso; lia]|]).
  exfalso. lia.
Qed.

Lemma hexdigit_inj (x y : N) :
  (x < 16)%N -> (y < 16)%N -> hexdigit x = hexdigit y -> x = y.
Proof.
  intros Hx Hy H.
  rewrite <- (N2Nat.id x), <- (N2Nat.id y) in H.
  apply (proj2 (hexdigit_spec (N.to_nat x) ltac:(lia))) in H; lia.
Qed.

Lemma hex_pair_inj (x y : byte) :
  hexdigit (N.div (Byte.to_N x) 16) = hexdigit (N.div (Byte.to_N y) 16) ->
  hexdigit (N.modulo (Byte.to_N x) 16) = hexdigit (N.modulo (Byte.to_N y) 16) ->
  x = y.
Proof.
  intros Hhi Hlo.
  pose proof (Byte.to_N_bounded x) as Bx. pose proof (Byte.to_N_bounded y) as By.
  apply hexdigit_inj in Hhi;
    [|apply N.Div0.div_lt_upper_bound; lia|apply N.Div0.div_lt_upper_bound; lia].
  apply hexdigit_inj in Hlo; [|apply N.mod_lt; lia|apply N.mod_lt; lia].
  assert (Heq : Byte.to_N x = Byte.to_N y).
  { rewrite (N.div_mod (Byte.to_N x) 16), (N.div_mod (Byte.to_N y) 16) by lia.
    rewrite Hhi, Hlo. reflexivity. }
  pose proof (Byte.of_to_N x) as Ex. pose proof (Byte.of_to_N y) as Ey.
  rewrite Heq in Ex. congruence.
Qed.

Lemma EncodeToString_inj (b : list byte) :
  forall b', EncodeToString b = EncodeToString b' -> b = b'.
Proof.
  induction b as [|x b IH]; intros [|y b'] H; cbn in H; try discriminate;
    [reflexivity|].
  injection H as Hhi Hlo Hrest.
  rewrite (hex_pair_inj x y Hhi Hlo).
  f_equal. apply IH. exact Hrest.
Qed.

Lemma EncodeToString_length (b : list byte) :
  String.length (EncodeToString b) = (2 * List.length b)%nat.
Proof. induction b as [|x b IH]; [reflexivity|]. cbn. rewrite IH. lia. Qed.

Lemma hexdigit_in (x : N) :
  (x < 16)%N -> In (hexdigit x) (list_ascii_of_string hextable).
Proof.
  intros Hx. rewrite <- (N2Nat.id x).
  apply (hexdigit_spec (N.to_nat x)). lia.
Qed.

Lemma EncodeToString_hex (b : list byte) :
  Forall (fun c => In c (list_ascii_of_string hextable))
    (list_ascii_of_string (EncodeToString b)).
Proof.
  induction b as [|x b IH]; [constructor|].
  pose proof (Byte.to_N_bounded x) as Bx.
  cbn [EncodeToString list_ascii_of_string].
  constructor; [apply hexdigit_in; apply N.Div0.div_lt_upper_bound; lia|].
  constructor; [apply hexdigit_in; apply N.mod_lt; lia|exact IH].
Qed.

(** X5. The state is the random bytes written as lower-case hexadecimal
    digits, two per byte (32 characters for the 16 bytes the flow draws),
    different bytes give different states, and an error of the random
    source is passed on unchanged. *)
Theorem generateState_hex (b : list byte) :
  generateState (inl b) = inl (EncodeToString b) /\
  String.length (EncodeToString b) = (2 * List.length b)%nat /\
  (List.length b = 16%nat -> String.length (EncodeToString b) = 32%nat) /\
  Forall (fun c => In c (list_ascii_of_string "0123456789abcdef"))
    (list_ascii_of_string (EncodeToString b)) /\
  (forall b', EncodeToString b = EncodeToString b' -> b = b') /\
  (forall err, generateState (inr err) = inr err).
Proof.
  split; [reflexivity|]. split; [apply EncodeToString_length|].
  split; [intros H; rewrite EncodeToString_length, H; reflexivity|].
  split; [apply EncodeToString_hex|]. split; [apply EncodeToString_inj|].
  reflexivity.
Qed.

End GeneratedState.

(** X5 at sixteen concrete bytes. *)
Lemma generateState_hex_witness :
  String.length
    (auth.EncodeToString
       [x00; x01; x02; x03; x04; x05; x06; x07;
        xf8; xf9; xfa; xfb; xfc; xfd; xfe; xff]) = 32%nat.
Proof.
  apply (generateState_hex
           [x00; x01; x02; x03; x04; x05; x06; x07;
            xf8; xf9; xfa; xfb; xfc; xfd; xfe; xff]).
  reflexivity.
Defined.

(** ** The callback handler, case by case *)
Section CallbackCases.

Import auth.

Variable state : string.
Variable exchange : string -> result Token.

(** X6. A request to any path other than [/callback] is answered with 404
    and has no other effect: nothing is sent on either channel and the
    token endpoint is not called, even if the request carries the
    generated state and a code, and whatever the channels hold. *)
Theorem callback_not_found (r : Request) (ch : Chans) :
  Path r <> "/callback" ->
  callback state exchange r ch = ([HttpError "404 page not found" 404], ch) /\
  response_status (fst (callback state exchange r ch)) = Some 404 /\
  signalled_error (fst (callback state exchange r ch)) = None /\
  sent_result (fst (callback state exchange r ch)) = None /\
  exchanges (fst (callback state exchange r ch)) = false.
Proof.
  intros H. rewrite (callback_other_path state exchange r ch H). repeat split.
Qed.

Lemma callback_with_code (r : Request) (ch : Chans) :
  Path r = "/callback" ->
  Get (Query r) "state" = state ->
  Get (Query r) "code" <> "" ->
  callback state exchange r ch =
  (let '(acts, ch') :=
     match exchange (Get (Query r) "code") with
     | inr err =>
         send_error (Errorf_w "token exchange failed: " err)
           [HttpError "Token exchange failed" StatusInternalServerError] ch
     | inl token =>
         send_result
           (mkAuthResult (Token_AccessToken token)
              (Token_RefreshToken token) (Token_Expiry token))
           [SuccessPage] ch
     end in
   (Exchange (Get (Query r) "code") :: acts, ch')).
Proof.
  intros Hpath Hstate Hcode. unfold callback.
  rewrite Hpath, Hstate, !String.eqb_refl. cbn [negb].
  apply is_empty_false in Hcode. rewrite Hcode. reflexivity.
Qed.

(** X7. A callback with the generated state and a code makes the handler
    call the token endpoint once, with that code, whatever the channels
    hold. If the exchange fails, the handler sends "token exchange
    failed: " followed by the error on the error channel: with room in
    the channel the failure is signalled and the request answered with
    500, with the slot taken the handler waits at the send and the
    request is not answered. If the exchange succeeds, the handler sends
    the access token, refresh token and expiry of the token on the result
    channel: with room in the channel the result is delivered and the
    request answered with the page, with the slot taken the handler waits
    and the request is not answered. *)
Theorem callback_exchange (r : Request) (ch : Chans) :
  Path r = "/callback" ->
  Get (Query r) "state" = state ->
  Get (Query r) "code" <> "" ->
  let acts := fst (callback state exchange r ch) in
  let ch' := snd (callback state exchange r ch) in
  (exists rest, acts = Exchange (Get (Query r) "code") :: rest /\
                exchanges rest = false) /\
  (forall err,
      exchange (Get (Query r) "code") = inr err ->
      let failure := errorString ("token exchange failed: " ++ Error err) in
      sent_result acts = None /\
      (errorChan ch = None ->
       signalled_error acts = Some failure /\
       response_status acts = Some 500 /\
       ch' = mkChans (resultChan ch) (Some failure)) /\
      (errorChan ch <> None ->
       acts = [Exchange (Get (Query r) "code"); WaitError failure] /\
       signalled_error acts = None /\
       response_status acts = None /\
       ch' = ch)) /\
  (forall token,
      exchange (Get (Query r) "code") = inl token ->
      let result := mkAuthResult (Token_AccessToken token)
                      (Token_RefreshToken token) (Token_Expiry token) in
      signalled_error acts = None /\
      (resultChan ch = None ->
       sent_result acts = Some result /\
       response_status acts = Some 200 /\
       ch' = mkChans (Some result) (errorChan ch)) /\
      (resultChan ch <> None ->
       acts = [Exchange (Get (Query r) "code"); WaitResult result] /\
       sent_result acts = None /\
       response_status acts = None /\
       ch' = ch)).
Proof.
  intros Hpath Hstate Hcode acts ch'. subst acts ch'.
  rewrite (callback_with_code r ch Hpath Hstate Hcode).
  split; [|split].
  - destruct (exchange _) as [token|err].
    + unfold send_result. destruct (resultChan ch);
        (eexists; split; [reflexivity|reflexivity]).
    + unfold send_error. destruct (errorChan ch);
        (eexists; split; [reflexivity|reflexivity]).
  - intros err ->. cbv zeta. unfold send_error.
    destruct (errorChan ch) as [e0|].
    + split; [reflexivity|]. split; [discriminate|]. intros _. repeat split.
    + split; [reflexivity|]. split; [intros _; repeat split|].
      intros H. contradiction H. reflexivity.
  - intros token ->. cbv zeta. unfold send_result.
    destruct (resultChan ch) as [r0|].
    + split; [reflexivity|]. split; [discriminate|]. intros _. repeat split.
    + split; [reflexivity|]. split; [intros _; repeat split|].
      intros H. contradiction H. reflexivity.
Qed.

(** X8. The handler delivers a result only for a request to [/callback]
    that carries the generated state and a code the token endpoint
    accepted, and only into an empty result channel; the result is the
    token of that exchange and the request is answered with the page. It
    never sends on both channels. A failure it has signalled went into an
    empty error channel and its request is answered with 400 or 500,
    never with the page. A request is left without an answer exactly when
    its handler waits at a send. *)
Theorem callback_result_guarded (r : Request) (ch : Chans) :
  let acts := fst (callback state exchange r ch) in
  (forall res,
      sent_result acts = Some res ->
      Path r = "/callback" /\
      Get (Query r) "state" = state /\
      Get (Query r) "code" <> "" /\
      (exists token,
          exchange (Get (Query r) "code") = inl token /\
          res = mkAuthResult (Token_AccessToken token) (Token_RefreshToken token)
                  (Token_Expiry token)) /\
      resultChan ch = None /\
      signalled_error acts = None /\
      response_status acts = Some 200) /\
  (forall e,
      signalled_error acts = Some e ->
      sent_result acts = None /\
      errorChan ch = None /\
      (response_status acts = Some 400 \/ response_status acts = Some 500)) /\
  (response_status acts = None <->
   (exists e, In (WaitError e) acts) \/ (exists res, In (WaitResult res) acts)).
Proof.
  intros acts. subst acts. unfold callback.
  destruct (String.eqb_spec (Path r) "/callback") as [Hpath|Hpath]; cbn [negb].
  2:{ cbn [fst]. split; [intros res H; discriminate|].
      split; [intros e H; discriminate|].
      split; [discriminate|].
      intros [(e & [H|[]])|(res & [H|[]])]; discriminate H. }
  destruct (String.eqb_spec (Get (Query r) "state") state) as [Hstate|Hstate];
    cbn [negb].
  2:{ unfold send_error. destruct (errorChan ch) as [e0|]; cbn [fst].
      - split; [intros res H; discriminate|].
        split; [intros e H; discriminate|].
        split; [intros _; left; eexists; left; reflexivity|reflexivity].
      - split; [intros res H; discriminate|].
        split; [intros e H; repeat split; left; reflexivity|].
        split; [discriminate|].
        intros [(e & [H|[H|[]]])|(res & [H|[H|[]]])]; discriminate H. }
  destruct (is_empty (Get (Query r) "code")) eqn:Hcode.
  { unfold send_error. destruct (errorChan ch) as [e0|]; cbn [fst].
    - split; [intros res H; discriminate|].
      split; [intros e H; discriminate|].
      split; [intros _; left; eexists; left; reflexivity|reflexivity].
    - split; [intros res H; discriminate|].
      split; [intros e H; repeat split; left; reflexivity|].
      split; [discriminate|].
      intros [(e & [H|[H|[]]])|(res & [H|[H|[]]])]; discriminate H. }
  apply is_empty_false in Hcode.
  destruct (exchange (Get (Query r) "code")) as [token|err] eqn:Hex.
  - unfold send_result. destruct (resultChan ch) as [r0|] eqn:Hch; cbn [fst].
    + split; [intros res H; discriminate|].
      split; [intros e H; discriminate|].
      split; [intros _; right; eexists; right; left; reflexivity|reflexivity].
    + split.
      * intros res H. cbn in H. injection H as <-.
        repeat split; try assumption. exists token. split; reflexivity.
      * split; [intros e H; discriminate|].
        split; [discriminate|].
        intros [(e & [H|[H|[H|[]]]])|(res & [H|[H|[H|[]]]])]; discriminate H.
  - unfold send_error. destruct (errorChan ch) as [e0|] eqn:Hch; cbn [fst].
    + split; [intros res H; discriminate|].
      split; [intros e H; discriminate|].
      split; [intros _; left; eexists; right; left; reflexivity|reflexivity].
    + split; [intros res H; discriminate|].
      split; [intros e H; repeat split; right; reflexivity|].
      split; [discriminate|].
      intros [(e & [H|[H|[H|[]]]])|(res & [H|[H|[H|[]]]])]; discriminate H.
Qed.

End CallbackCases.

(** X6 at a concrete request: the favicon. *)
Lemma callback_not_found_witness :
  auth.exchanges
    (fst (auth.callback "5f1d" (fun _ => inl (auth.mkToken "at" "rt" 0))
            (auth.mkRequest "/favicon.ico" [("state", "5f1d"); ("code", "c0de")])
            auth.make_chans))
  = false.
Proof.
  apply (callback_not_found "5f1d" (fun _ => inl (auth.mkToken "at" "rt" 0))
           (auth.mkRequest "/favicon.ico" [("state", "5f1d"); ("code", "c0de")])
           auth.make_chans).
  discriminate.
Defined.

(** X7 at concrete requests: the code is accepted and the result
    delivered; the same callback once more finds the result channel
    taken and is not answered. *)
Lemma callback_exchange_witness :
  auth.sent_result
    (fst (auth.callback "5f1d" (fun _ => inl (auth.mkToken "at" "rt" 7))
            (auth.mkRequest "/callback" [("code", "c0de"); ("state", "5f1d")])
            auth.make_chans))
  = Some (auth.mkAuthResult "at" "rt" 7) /\
  auth.response_status
    (fst (auth.callback "5f1d" (fun _ => inl (auth.mkToken "at" "rt" 7))
            (auth.mkRequest "/callback" [("code", "c0de"); ("state", "5f1d")])
            (auth.mkChans (Some (auth.mkAuthResult "at" "rt" 7)) None)))
  = None.
Proof.
  split.
  - destruct (callback_exchange "5f1d" (fun _ => inl (auth.mkToken "at" "rt" 7))
                (auth.mkRequest "/callback" [("code", "c0de"); ("state", "5f1d")])
                auth.make_chans)
      as (_ & _ & H); [reflexivity|reflexivity|discriminate|].
    destruct (H (auth.mkToken "at" "rt" 7) eq_refl) as (_ & Hfree & _).
    apply Hfree. reflexivity.
  - destruct (callback_exchange "5f1d" (fun _ => inl (auth.mkToken "at" "rt" 7))
                (auth.mkRequest "/callback" [("code", "c0de"); ("state", "5f1d")])
                (auth.mkChans (Some (auth.mkAuthResult "at" "rt" 7)) None))
      as (_ & _ & H); [reflexivity|reflexivity|discriminate|].
    destruct (H (auth.mkToken "at" "rt" 7) eq_refl) as (_ & _ & Htaken).
    apply Htaken. discriminate.
Defined.

(** X8 at a concrete request: from the delivered result back to the
    request. *)
Lemma callback_result_guarded_witness :
  auth.Get [("code", "c0de"); ("state", "5f1d")] "state" = "5f1d".
Proof.
  destruct (callback_result_guarded "5f1d" (fun _ => inl (auth.mkToken "at" "rt" 7))
              (auth.mkRequest "/callback" [("code", "c0de"); ("state", "5f1d")])
              auth.make_chans)
    as (H & _).
  apply (H (auth.mkAuthResult "at" "rt" 7)). reflexivity.
Defined.

(** ** The authorization flow, path by path *)
Section FlowPaths.

Import auth.

Lemma select_only_result (w : Wait) (t : time.Duration) (r : AuthResult) :
  result_ready w = Some (t, r) ->
  error_ready w = None ->
  t < timeout ->
  select w = RecvResult r.
Proof.
  intros Hr He Ht. destruct (select_first w) as (t1 & Hin & Hmin).
  assert (Hcase : In (Z.max 0 t, RecvResult r) (cases w)).
  { unfold cases. rewrite Hr. left. reflexivity. }
  pose proof (Hmin _ Hcase) as Hle. cbn [fst] in Hle.
  apply cases_inv in Hin.
  destruct Hin as [(t0 & r0 & H & _ & Hc)|[(t0 & e0 & H & _)|[Ht1 _]]].
  - rewrite Hr in H. injection H as _ <-. exact Hc.
  - congruence.
  - unfold timeout in *. change (5 * time.Minute) with 300000000000 in *. lia.
Qed.

(** X9. The flow fails early, without waiting, in three ways. When the
    random source fails it returns "failed to generate state" and has bound
    no port and opened no browser. When the port cannot be bound it returns
    "failed to start local server" and has opened no browser. When the
    browser cannot be opened it returns "failed to open browser" at once,
    whatever requests arrive, and the listener is closed by the deferred
    call alone. *)
Theorem StartOAuthFlow_early_failures (env : Env) (config : OAuthConfig) :
  (forall err,
      rand_Read env = inr err ->
      StartOAuthFlow env config
      = (inr (errorString ("failed to generate state: " ++ Error err)), [])) /\
  (forall b err,
      rand_Read env = inl b ->
      net_Listen env = inr err ->
      StartOAuthFlow env config
      = (inr (errorString ("failed to start local server: " ++ Error err)), [])) /\
  (forall b port err,
      rand_Read env = inl b ->
      net_Listen env = inl port ->
      browser_OpenURL env = Some err ->
      fst (StartOAuthFlow env config)
      = inr (errorString ("failed to open browser: " ++ Error err)) /\
      (exists url,
          snd (StartOAuthFlow env config)
          = [EvListen port; EvServe; EvOpenURL url; EvListenerClose]) /\
      bound (snd (StartOAuthFlow env config)) = false).
Proof.
  split; [|split].
  - intros err H. unfold StartOAuthFlow. rewrite H. reflexivity.
  - intros b err Hb H. unfold StartOAuthFlow. rewrite Hb. cbn [generateState].
    rewrite H. reflexivity.
  - intros b port err Hb Hp H. unfold StartOAuthFlow. rewrite Hb.
    cbn [generateState]. rewrite Hp, H. cbn [fst snd].
    split; [reflexivity|]. split; [eexists; reflexivity|reflexivity].
Qed.

(** X10. The flow succeeds end to end: when the only request the server
    handles within the five minutes is a callback with the generated state
    and a code, and the token endpoint accepts the code, the flow returns
    the access token, refresh token and expiry of that token, and has
    closed the server and the listener. *)
Theorem StartOAuthFlow_success (env : Env) (config : OAuthConfig)
    (b : list byte) (port : Z) (t : time.Duration) (r : Request) (token : Token) :
  rand_Read env = inl b ->
  net_Listen env = inl port ->
  browser_OpenURL env = None ->
  requests env = [(t, r)] ->
  serve_failure env = None ->
  t < 5 * time.Minute ->
  Path r = "/callback" ->
  Get (Query r) "state" = EncodeToString b ->
  Get (Query r) "code" <> "" ->
  exchange env (Get (Query r) "code") = inl token ->
  fst (StartOAuthFlow env config)
  = inl (mkAuthResult (Token_AccessToken token) (Token_RefreshToken token)
           (Token_Expiry token)) /\
  bound (snd (StartOAuthFlow env config)) = false.
Proof.
  intros Hrand Hport Hopen Hreq Hserve Ht Hpath Hstate Hcode Hex.
  split; [|apply StartOAuthFlow_unbound].
  pose proof (callback_with_code (EncodeToString b) (exchange env) r
                make_chans Hpath Hstate Hcode) as Hacts.
  rewrite Hex in Hacts. cbn in Hacts.
  unfold StartOAuthFlow. rewrite Hrand. cbn [generateState].
  rewrite Hport, Hopen.
  rewrite (select_only_result (serve (EncodeToString b) env) t
             (mkAuthResult (Token_AccessToken token) (Token_RefreshToken token)
                (Token_Expiry token))); [reflexivity| | |exact Ht].
  all: unfold serve; rewrite Hreq, Hserve; cbn [first_result first_error];
    rewrite Hacts; reflexivity.
Qed.

(** X11. The URL the browser is opened on points at the authorization
    endpoint and carries the client id, the redirect URI
    [http://localhost:<port>/callback] of the port just bound, the response
    type [code], the generated state and the request for offline access;
    a callback that returns this state with a code passes the state check
    of the handler. *)
Theorem StartOAuthFlow_url (env : Env) (config : OAuthConfig)
    (b : list byte) (port : Z) :
  rand_Read env = inl b ->
  net_Listen env = inl port ->
  b <> [] ->
  exists params,
    In (EvOpenURL ("https://www.dropbox.com/oauth2/authorize", params))
       (snd (StartOAuthFlow env config)) /\
    Get params "client_id" = ClientID config /\
    Get params "redirect_uri"
    = "http://localhost:" ++ NilEmpty.string_of_int (Z.to_int port) ++ "/callback" /\
    Get params "response_type" = "code" /\
    Get params "state" = EncodeToString b /\
    Get params "token_access_type" = "offline" /\
    (forall code ch,
        code <> "" ->
        exchanges
          (fst (callback (EncodeToString b) (exchange env)
                  (mkRequest "/callback"
                     [("code", code); ("state", Get params "state")]) ch))
        = true).
Proof.
  intros Hrand Hport Hb.
  assert (Hstate : is_empty (EncodeToString b) = false).
  { destruct b as [|x b]; [contradiction|]. reflexivity. }
  exists (snd (AuthCodeURL config
                 ("http://localhost:" ++ NilEmpty.string_of_int (Z.to_int port)
                  ++ "/callback") (EncodeToString b))).
  split.
  - unfold StartOAuthFlow. rewrite Hrand. cbn [generateState]. rewrite Hport.
    destruct (browser_OpenURL env); [right; right; left; reflexivity|].
    destruct (select _); right; right; left; reflexivity.
  - unfold AuthCodeURL. cbn [snd]. rewrite Hstate.
    change (is_empty ("http://localhost:" ++ ?x)) with false.
    cbn [app Get String.eqb Ascii.eqb Bool.eqb].
    repeat split.
    intros code ch Hcode. apply callback_code; [reflexivity| |].
    + cbn [Query Get String.eqb Ascii.eqb Bool.eqb]. reflexivity.
    + cbn [Query Get String.eqb Ascii.eqb Bool.eqb]. exact Hcode.
Qed.

(** X12. [HandleAuth] takes the client id and secret from its parameters
    and, for each that is empty, from the environment. Without both it
    returns an error and does not start the flow. When the flow fails it
    returns "authentication failed: " with the error of the flow, and in
    both cases the credential is left as it was. When the flow succeeds,
    the credential holds the client id and secret used and the tokens of
    the flow, also when saving it then fails. *)
Theorem HandleAuth_outcomes (getenv : string -> string) (flow : Env)
    (save : config.Config -> option error) (args : handlers.AuthArgs)
    (cfg : config.Config) :
  let id := if is_empty (handlers.ClientID args)
            then getenv "DROPBOX_CLIENT_ID" else handlers.ClientID args in
  let secret := if is_empty (handlers.ClientSecret args)
                then getenv "DROPBOX_CLIENT_SECRET" else handlers.ClientSecret args in
  (id = "" \/ secret = "" ->
   forall flow',
     handlers.HandleAuth getenv flow' save (inl args) cfg
     = (Some (errorString
          "client_id and client_secret are required (provide as parameters or environment variables)"),
        cfg)) /\
  (id <> "" -> secret <> "" ->
   forall err,
     fst (StartOAuthFlow flow (mkOAuthConfig id secret "")) = inr err ->
     handlers.HandleAuth getenv flow save (inl args) cfg
     = (Some (errorString ("authentication failed: " ++ Error err)), cfg)) /\
  (id <> "" -> secret <> "" ->
   forall res,
     fst (StartOAuthFlow flow (mkOAuthConfig id secret "")) = inl res ->
     snd (handlers.HandleAuth getenv flow save (inl args) cfg)
     = config.mkConfig id secret (AccessToken res)
         (if is_empty (RefreshToken res) then config.RefreshToken cfg
          else RefreshToken res)
         (ExpiresAt res) /\
     fst (handlers.HandleAuth getenv flow save (inl args) cfg)
     = match save (snd (handlers.HandleAuth getenv flow save (inl args) cfg)) with
       | Some err => Some (errorString ("failed to save configuration: " ++ Error err))
       | None => None
       end).
Proof.
  intros id secret. unfold handlers.HandleAuth. fold id. fold secret.
  split; [|split].
  - intros H flow'.
    assert (Hb : is_empty id || is_empty secret = true).
    { destruct H as [H|H]; rewrite H; [reflexivity|apply orb_true_r]. }
    rewrite Hb. reflexivity.
  - intros Hi Hs err Hflow.
    apply is_empty_false in Hi, Hs. rewrite Hi, Hs. cbn [orb].
    rewrite Hflow. reflexivity.
  - intros Hi Hs res Hflow.
    apply is_empty_false in Hi, Hs. rewrite Hi, Hs. cbn [orb].
    rewrite Hflow. cbn [config.ClientID config.ClientSecret config.AccessToken
                        config.RefreshToken config.ExpiresAt].
    rewrite UpdateTokens_fields.
    cbn [config.ClientID config.ClientSecret config.AccessToken
         config.RefreshToken config.ExpiresAt].
    destruct (save _) eqn:Hsave; cbn [fst snd]; rewrite Hsave; split; reflexivity.
Qed.

End FlowPaths.

(** X9 at a concrete run: no browser on the machine. *)
Lemma StartOAuthFlow_early_failures_witness :
  auth.bound
    (snd (auth.StartOAuthFlow
            (auth.mkEnv (inl [x00; x01]) (inl 49152)
               (Some (errorString "exec: no command")) (fun _ => inr io_EOF)
               [] None 0)
            (auth.mkOAuthConfig "abc" "xyz" ""))) = false.
Proof.
  destruct (StartOAuthFlow_early_failures
              (auth.mkEnv (inl [x00; x01]) (inl 49152)
                 (Some (errorString "exec: no command")) (fun _ => inr io_EOF)
                 [] None 0)
              (auth.mkOAuthConfig "abc" "xyz" "")) as (_ & _ & H).
  apply (H [x00; x01] 49152 (errorString "exec: no command")); reflexivity.
Defined.

(** X10 at a concrete run: the callback arrives after three seconds. *)
Lemma StartOAuthFlow_success_witness :
  fst (auth.StartOAuthFlow
         (auth.mkEnv (inl [x5f; x1d]) (inl 49152) None
            (fun _ => inl (auth.mkToken "at" "rt" 900))
            [(3 * time.Second,
              auth.mkRequest "/callback" [("code", "VALIDCODE"); ("state", "5f1d")])]
            None 0)
         (auth.mkOAuthConfig "abc" "xyz" ""))
  = inl (auth.mkAuthResult "at" "rt" 900).
Proof.
  apply (StartOAuthFlow_success
           (auth.mkEnv (inl [x5f; x1d]) (inl 49152) None
              (fun _ => inl (auth.mkToken "at" "rt" 900))
              [(3 * time.Second,
                auth.mkRequest "/callback" [("code", "VALIDCODE"); ("state", "5f1d")])]
              None 0)
           (auth.mkOAuthConfig "abc" "xyz" "")
           [x5f; x1d] 49152 (3 * time.Second)
           (auth.mkRequest "/callback" [("code", "VALIDCODE"); ("state", "5f1d")])
           (auth.mkToken "at" "rt" 900)); try reflexivity.
  discriminate.
Defined.

(** X11 at a concrete run. *)
Lemma StartOAuthFlow_url_witness :
  exists params,
    In (auth.EvOpenURL ("https://www.dropbox.com/oauth2/authorize", params))
       (snd (auth.StartOAuthFlow
               (auth.mkEnv (inl [x5f; x1d]) (inl 49152) None
                  (fun _ => inr io_EOF) [] None 0)
               (auth.mkOAuthConfig "abc" "xyz" ""))) /\
    auth.Get params "state" = "5f1d".
Proof.
  destruct (StartOAuthFlow_url
              (auth.mkEnv (inl [x5f; x1d]) (inl 49152) None
                 (fun _ => inr io_EOF) [] None 0)
              (auth.mkOAuthConfig "abc" "xyz" "") [x5f; x1d] 49152)
    as (params & Hin & _ & _ & _ & Hstate & _);
    [reflexivity|reflexivity|discriminate|].
  exists params. split; [exact Hin|exact Hstate].
Defined.

(** X12 at concrete parameters: the secret is missing everywhere. *)
Lemma HandleAuth_outcomes_witness :
  handlers.HandleAuth (fun _ => "")
    (auth.mkEnv (inl [x5f; x1d]) (inl 49152) None (fun _ => inr io_EOF) [] None 0)
    (fun _ => None) (inl (handlers.mkAuthArgs "abc" "")) config.empty
  = (Some (errorString
       "client_id and client_secret are required (provide as parameters or environment variables)"),
     config.empty).
Proof.
  destruct (HandleAuth_outcomes (fun _ => "")
              (auth.mkEnv (inl [x5f; x1d]) (inl 49152) None (fun _ => inr io_EOF)
                 [] None 0)
              (fun _ => None) (handlers.mkAuthArgs "abc" "") config.empty)
    as (H & _).
  apply H. right. reflexivity.
Defined.


(** ** The upload handler and the size of what is sent *)
Section UploadGuards.

(** X13. [HandleUpload] checks its parameters before anything else:
    undecodable parameters, an empty path and an empty content are each
    answered with their own error, without a clock reading, a refresh or a
    call to the provider, and the credential is left as it was. When no
    client can be made, the error of [NewClient] is returned and the
    provider is not called either. *)
Theorem HandleUpload_guards {W : Type} (env : dropbox.Env)
    (files_New : string -> files.Client W) (now : time.Time) (fuel : nat)
    (cfg : config.Config) (w : W) :
  (forall err,
      handlers.HandleUpload env files_New now fuel (inr err) cfg w
      = Some (inr (errorString ("invalid parameters: " ++ Error err)), cfg, w)) /\
  (forall args,
      handlers.Path args = "" ->
      handlers.HandleUpload env files_New now fuel (inl args) cfg w
      = Some (inr (errorString "path parameter is required"), cfg, w)) /\
  (forall args,
      handlers.Path args <> "" ->
      handlers.Content args = "" ->
      handlers.HandleUpload env files_New now fuel (inl args) cfg w
      = Some (inr (errorString "content parameter is required"), cfg, w)) /\
  (forall args err,
      handlers.Path args <> "" ->
      handlers.Content args <> "" ->
      fst (dropbox.NewClient env cfg) = inr err ->
      handlers.HandleUpload env files_New now fuel (inl args) cfg w
      = Some (inr err, snd (dropbox.NewClient env cfg), w)).
Proof.
  unfold handlers.HandleUpload. split; [reflexivity|]. split; [|split].
  - intros args H. rewrite H. reflexivity.
  - intros args Hp Hc. apply is_empty_false in Hp. rewrite Hp, Hc. reflexivity.
  - intros args err Hp Hc Hn. apply is_empty_false in Hp, Hc. rewrite Hp, Hc.
    destruct (dropbox.NewClient env cfg) as [[token|e] cfg']; cbn [fst snd] in *;
      [discriminate|]. injection Hn as ->. reflexivity.
Qed.

Lemma quantum_length (d0 d1 d2 d3 : Z) (dlen : nat) :
  (dlen <= 4)%nat -> List.length (base64.quantum d0 d1 d2 d3 dlen) = (dlen - 1)%nat.
Proof.
  intros H. unfold base64.quantum. rewrite length_firstn. cbn [List.length]. lia.
Qed.

(** Decoding gives at most three bytes for every four characters read. *)
Lemma decode_length (src : list ascii) :
  forall (dbuf : list Z) (out : list byte),
    base64.decode src dbuf = inl out ->
    (4 * List.length out <= 3 * (List.length src + List.length dbuf))%nat.
Proof.
  induction src as [|c rest IH]; intros dbuf out H.
  - cbn in H. destruct dbuf; [|discriminate]. injection H as <-. cbn. lia.
  - cbn [base64.decode] in H.
    destruct (negb (base64.decodeMap c =? 255)).
    + destruct dbuf as [|d0 [|d1 [|d2 [|d3 dbuf]]]];
        try (apply IH in H; rewrite ?length_app in H; cbn [List.length] in *; lia).
      destruct (base64.decode rest []) as [r|e] eqn:Hr; [|discriminate].
      cbn [base64.emit] in H.
      assert (Ho : out = (base64.quantum d0 d1 d2 (base64.decodeMap c) 4 ++ r)%list)
        by congruence.
      rewrite Ho.
      apply IH in Hr. rewrite length_app, quantum_length by lia.
      cbn [List.length] in *. lia.
    + destruct (base64.is_newline c).
      * apply IH in H. cbn [List.length]. lia.
      * destruct (negb (c =? base64.padChar)%char); [discriminate|].
        destruct dbuf as [|d0 [|d1 [|d2 [|d3 dbuf]]]]; try discriminate.
        -- destruct (base64.skip_newlines rest) as [|c2 rest2]; [discriminate|].
           destruct (negb (c2 =? base64.padChar)%char); [discriminate|].
           destruct (base64.skip_newlines rest2); [|discriminate].
           assert (Ho : out = base64.quantum d0 d1 0 0 2) by congruence.
           rewrite Ho, quantum_length by lia.
           cbn [List.length]. lia.
        -- destruct (base64.skip_newlines rest); [|discriminate].
           assert (Ho : out = base64.quantum d0 d1 d2 0 3) by congruence.
           rewrite Ho, quantum_length by lia.
           cbn [List.length]. lia.
Qed.

Lemma list_byte_of_string_length (s : string) :
  List.length (list_byte_of_string s) = String.length s.
Proof.
  unfold list_byte_of_string. rewrite length_map.
  induction s as [|a s IH]; [reflexivity|]. cbn. rewrite IH. reflexivity.
Qed.

Lemma list_ascii_of_string_length (s : string) :
  List.length (list_ascii_of_string s) = String.length s.
Proof. induction s as [|a s IH]; [reflexivity|]. cbn. rewrite IH. reflexivity. Qed.

Lemma Upload_data_length (content : string) :
  len (dropbox.Upload_data content) <= Z.of_nat (String.length content).
Proof.
  unfold dropbox.Upload_data, len.
  destruct (strings.Contains content (String newline "") || negb (dropbox.isBase64 content)).
  - rewrite list_byte_of_string_length. lia.
  - destruct (base64.DecodeString content) as [decoded|e] eqn:Hd.
    + unfold base64.DecodeString in Hd. apply decode_length in Hd.
      rewrite list_ascii_of_string_length in Hd. cbn [List.length] in Hd. lia.
    + rewrite list_byte_of_string_length. lia.
Qed.

(** X14. What [Upload] sends is never longer than the content string it
    was given: decoding yields at most three bytes for four characters. So
    a content of at most 150 MiB is always sent by one direct call, with
    no session and without reading the loop's fuel. *)
Theorem Upload_content_bound {W : Type} (cl : files.Client W) (now : time.Time)
    (fuel : nat) (path content mode : string) (w : W) (log : list files.Entry) :
  len (dropbox.Upload_data content) <= Z.of_nat (String.length content) /\
  (forall decoded,
      ~ In newline (list_ascii_of_string content) ->
      base64.DecodeString content = inl decoded ->
      4 * len (dropbox.Upload_data content) <= 3 * Z.of_nat (String.length content)) /\
  (Z.of_nat (String.length content) <= 150 * 1024 * 1024 ->
   exists r w',
     dropbox.Upload (files.logged cl) now fuel path content mode (w, log)
     = Some (r, (w', (log ++ [files.mkEntry
                                 (files.CallUpload
                                    (dropbox.Upload_arg path
                                       (dropbox.Upload_commitInfo now path mode))
                                    (dropbox.Upload_data content))
                                 (files.is_error r)])%list))).
Proof.
  split; [apply Upload_data_length|]. split.
  - intros decoded Hnl Hd. rewrite (Upload_data_decoded content decoded Hnl Hd).
    unfold base64.DecodeString in Hd. apply decode_length in Hd.
    rewrite list_ascii_of_string_length in Hd. cbn [List.length] in Hd.
    unfold len. lia.
  - intros Hsmall. pose proof (Upload_data_length content) as Hlen.
    unfold dropbox.Upload.
    change (150 * 1024 * 1024) with dropbox.directLimit in Hsmall.
    destruct (Z.ltb_spec dropbox.directLimit (len (dropbox.Upload_data content)));
      [lia|].
    cbn [files.logged files.Upload].
    destruct (files.Upload cl _ _ w) as [r w1].
    exists r, w1. reflexivity.
Qed.

End UploadGuards.

(** X13 at concrete parameters: no path, no content, and an empty
    credential. *)
Lemma HandleUpload_guards_witness :
  let env := dropbox.mkEnv 100 100 (fun _ _ => inr io_EOF) (fun _ => None) in
  let run := handlers.HandleUpload env (fun _ => session.accepting) 77 0 in
  run (inl (handlers.mkUploadArgs "" "hello" "add")) config.empty tt
  = Some (inr (errorString "path parameter is required"), config.empty, tt) /\
  run (inl (handlers.mkUploadArgs "/a.txt" "" "add")) config.empty tt
  = Some (inr (errorString "content parameter is required"), config.empty, tt) /\
  run (inl (handlers.mkUploadArgs "/a.txt" "hello" "add")) config.empty tt
  = Some (inr (errorString "invalid or expired token"), config.empty, tt).
Proof.
  intros env run.
  destruct (HandleUpload_guards env (fun _ => session.accepting) 77 0
              config.empty tt) as (_ & H1 & H2 & H3).
  split; [apply (H1 (handlers.mkUploadArgs "" "hello" "add")); reflexivity|].
  split.
  - apply (H2 (handlers.mkUploadArgs "/a.txt" "" "add"));
      [discriminate|reflexivity].
  - apply (H3 (handlers.mkUploadArgs "/a.txt" "hello" "add")
              (errorString "invalid or expired token"));
      [discriminate|discriminate|reflexivity].
Defined.

(** X14 at a concrete content: eight characters that decode to six
    bytes, sent by one direct call. *)
Lemma Upload_content_bound_witness :
  4 * len (dropbox.Upload_data "password") <= 3 * 8 /\
  exists r w',
    dropbox.Upload (files.logged session.accepting) 77 0 "/a.txt" "password" "add"
      (tt, [])
    = Some (r, (w', ([] ++ [files.mkEntry
                              (files.CallUpload
                                 (dropbox.Upload_arg "/a.txt"
                                    (dropbox.Upload_commitInfo 77 "/a.txt" "add"))
                                 (dropbox.Upload_data "password"))
                              (files.is_error r)])%list)).
Proof.
  destruct (Upload_content_bound session.accepting 77 0 "/a.txt" "password" "add"
              tt []) as (_ & H1 & H2).
  split.
  - refine (H1 _ _ eq_refl). vm_compute. intros [H|H]; repeat (destruct H as [H|H]; try discriminate H); try discriminate H; exact H.
  - apply H2. vm_compute. discriminate.
Defined.


(** ** Downloads, and what comes back when they are uploaded again *)
Section Base64RoundTrip.

Lemma byte_val_range (b : byte) : 0 <= byte_val b < 256.
Proof.
  unfold byte_val. pose proof (Byte.to_N_bounded b) as H. lia.
Qed.

Lemma byte_of_val (b : byte) : base64.byte_of (byte_val b) = b.
Proof.
  unfold base64.byte_of. pose proof (byte_val_range b) as H.
  rewrite Z.mod_small by lia. unfold byte_val. rewrite N2Z.id.
  rewrite Byte.of_to_N. reflexivity.
Qed.

Lemma byte_of_mod (z : Z) (b : byte) :
  z mod 256 = byte_val b -> base64.byte_of z = b.
Proof.
  intros H. rewrite <- (byte_of_val b). unfold base64.byte_of.
  rewrite H. rewrite (Z.mod_small (byte_val b)) by apply byte_val_range.
  reflexivity.
Qed.

Lemma land_shiftl_low (a b n : Z) :
  0 <= n -> 0 <= b < 2 ^ n -> Z.land (Z.shiftl a n) b = 0.
Proof.
  intros Hn Hb. apply Z.bits_inj'. intros m Hm.
  rewrite Z.land_spec, Z.bits_0.
  destruct (Z.lt_ge_cases m n) as [Hlt|Hge].
  - rewrite Z.shiftl_spec_low by lia. reflexivity.
  - destruct (Z.eq_dec b 0) as [->|Hb0].
    + rewrite Z.bits_0. apply andb_false_r.
    + assert (Hlog : Z.log2 b < n) by (apply Z.log2_lt_pow2; lia).
      rewrite (Z.bits_above_log2 b m) by lia. apply andb_false_r.
Qed.

Lemma lor_shiftl (a b n : Z) :
  0 <= n -> 0 <= b < 2 ^ n -> Z.lor (Z.shiftl a n) b = a * 2 ^ n + b.
Proof.
  intros Hn Hb. rewrite <- Z.lxor_lor by (apply land_shiftl_low; lia).
  rewrite <- Z.add_nocarry_lxor by (apply land_shiftl_low; lia).
  rewrite Z.shiftl_mul_pow2 by lia. reflexivity.
Qed.

Lemma sextet (v k : Z) :
  0 <= k -> Z.land (Z.shiftr v k) 63 = (v / 2 ^ k) mod 64.
Proof.
  intros Hk. rewrite Z.shiftr_div_pow2 by lia.
  change 63 with (Z.ones 6). rewrite Z.land_ones by lia. reflexivity.
Qed.

Lemma decodeMap_encode_at (v : Z) :
  0 <= v < 64 -> base64.decodeMap (base64.encode_at v) = v.
Proof.
  intros H. rewrite <- (Z2Nat.id v) by lia.
  assert (Hn : (Z.to_nat v < 64)%nat) by lia.
  remember (Z.to_nat v) as n eqn:E. clear E H v.
  unfold base64.encode_at. rewrite Nat2Z.id.
  do 64 (destruct n as [|n]; [reflexivity|]). lia.
Qed.

Lemma sextet_range (v k : Z) : 0 <= k -> 0 <= Z.land (Z.shiftr v k) 63 < 64.
Proof. intros Hk. rewrite sextet by lia. apply Z.mod_pos_bound. lia. Qed.

Lemma land_63_range (v : Z) : 0 <= Z.land v 63 < 64.
Proof.
  change 63 with (Z.ones 6). rewrite Z.land_ones by lia.
  apply Z.mod_pos_bound. reflexivity.
Qed.

(** The step of the decoder on a character of the alphabet. *)
Lemma decode_char (v : Z) (rest : list ascii) (dbuf : list Z) :
  0 <= v < 64 ->
  base64.decode (base64.encode_at v :: rest) dbuf
  = match dbuf with
    | [d0; d1; d2] => base64.emit (base64.quantum d0 d1 d2 v 4) (base64.decode rest [])
    | _ => base64.decode rest (dbuf ++ [v])
    end.
Proof.
  intros H. cbn [base64.decode]. rewrite (decodeMap_encode_at v H).
  destruct (Z.eqb_spec v 255) as [E|_]; [lia|]. reflexivity.
Qed.

(** Four 6-bit values put together give back the 24 bits they were cut
    from. *)
Lemma requantum (val : Z) :
  0 <= val < 2 ^ 24 ->
  Z.lor (Z.shiftl (Z.land (Z.shiftr val 18) 63) 18)
    (Z.lor (Z.shiftl (Z.land (Z.shiftr val 12) 63) 12)
       (Z.lor (Z.shiftl (Z.land (Z.shiftr val 6) 63) 6) (Z.land val 63)))
  = val.
Proof.
  intros H.
  pose proof (sextet_range val 18 ltac:(lia)) as H0.
  pose proof (sextet_range val 12 ltac:(lia)) as H1.
  pose proof (sextet_range val 6 ltac:(lia)) as H2.
  pose proof (land_63_range val) as H3.
  rewrite (lor_shiftl _ (Z.land val 63) 6) by lia.
  rewrite (lor_shiftl _ _ 12) by lia.
  rewrite (lor_shiftl _ _ 18) by lia.
  rewrite !sextet by lia. change 63 with (Z.ones 6).
  rewrite Z.land_ones by lia.
  change (2 ^ 18) with 262144. change (2 ^ 12) with 4096. change (2 ^ 6) with 64.
  change (2 ^ 24) with 16777216 in H.
  Z.div_mod_to_equations. lia.
Qed.

Lemma requantum_eq (val d2 d3 : Z) :
  0 <= val < 2 ^ 24 ->
  Z.land (Z.shiftr val 6) 63 = d2 ->
  Z.land val 63 = d3 ->
  Z.lor (Z.shiftl (Z.land (Z.shiftr val 18) 63) 18)
    (Z.lor (Z.shiftl (Z.land (Z.shiftr val 12) 63) 12)
       (Z.lor (Z.shiftl d2 6) d3))
  = val.
Proof. intros H <- <-. apply requantum. exact H. Qed.

Lemma lor3 (x y z : Z) :
  0 <= x < 256 -> 0 <= y < 256 -> 0 <= z < 256 ->
  Z.lor (Z.shiftl x 16) (Z.lor (Z.shiftl y 8) z) = x * 65536 + y * 256 + z.
Proof.
  intros Hx Hy Hz.
  rewrite (lor_shiftl y z 8) by lia. rewrite (lor_shiftl x _ 16) by lia.
  change (2 ^ 16) with 65536. change (2 ^ 8) with 256. lia.
Qed.

Lemma quantum3 (b0 b1 b2 : byte) :
  let val := Z.lor (Z.shiftl (byte_val b0) 16)
               (Z.lor (Z.shiftl (byte_val b1) 8) (byte_val b2)) in
  base64.quantum (Z.land (Z.shiftr val 18) 63) (Z.land (Z.shiftr val 12) 63)
    (Z.land (Z.shiftr val 6) 63) (Z.land val 63) 4
  = [b0; b1; b2].
Proof.
  intros val. unfold base64.quantum.
  pose proof (byte_val_range b0) as H0.
  pose proof (byte_val_range b1) as H1.
  pose proof (byte_val_range b2) as H2.
  assert (Hval : val = byte_val b0 * 65536 + byte_val b1 * 256 + byte_val b2)
    by (apply lor3; assumption).
  rewrite requantum by (change (2 ^ 24) with 16777216; lia).
  cbn [Nat.sub firstn].
  rewrite !Z.shiftr_div_pow2 by lia.
  change (2 ^ 16) with 65536. change (2 ^ 8) with 256.
  f_equal; [|f_equal; [|f_equal]]; apply byte_of_mod; rewrite Hval;
    Z.div_mod_to_equations; lia.
Qed.

Lemma quantum2 (b0 b1 : byte) :
  let val := Z.lor (Z.shiftl (byte_val b0) 16) (Z.shiftl (byte_val b1) 8) in
  base64.quantum (Z.land (Z.shiftr val 18) 63) (Z.land (Z.shiftr val 12) 63)
    (Z.land (Z.shiftr val 6) 63) 0 3
  = [b0; b1].
Proof.
  intros val. unfold base64.quantum.
  pose proof (byte_val_range b0) as H0.
  pose proof (byte_val_range b1) as H1.
  assert (Hval : val = byte_val b0 * 65536 + byte_val b1 * 256).
  { unfold val. rewrite (Z.shiftl_mul_pow2 (byte_val b1) 8) by lia.
    rewrite lor_shiftl by (change (2 ^ 8) with 256; change (2 ^ 16) with 65536; lia).
    change (2 ^ 16) with 65536. change (2 ^ 8) with 256. lia. }
  assert (H3 : Z.land val 63 = 0).
  { change 63 with (Z.ones 6). rewrite Z.land_ones by lia. rewrite Hval.
    change (2 ^ 6) with 64. Z.div_mod_to_equations. lia. }
  rewrite (requantum_eq val _ 0 ltac:(change (2 ^ 24) with 16777216; lia) eq_refl H3).
  cbn [Nat.sub firstn].
  rewrite !Z.shiftr_div_pow2 by lia.
  change (2 ^ 16) with 65536. change (2 ^ 8) with 256.
  f_equal; [|f_equal]; apply byte_of_mod; rewrite Hval;
    Z.div_mod_to_equations; lia.
Qed.

Lemma quantum1 (b0 : byte) :
  let val := Z.shiftl (byte_val b0) 16 in
  base64.quantum (Z.land (Z.shiftr val 18) 63) (Z.land (Z.shiftr val 12) 63) 0 0 2
  = [b0].
Proof.
  intros val. unfold base64.quantum.
  pose proof (byte_val_range b0) as H0.
  assert (Hval : val = byte_val b0 * 65536).
  { unfold val. rewrite Z.shiftl_mul_pow2 by lia. reflexivity. }
  assert (H3 : Z.land val 63 = 0).
  { change 63 with (Z.ones 6). rewrite Z.land_ones by lia. rewrite Hval.
    change (2 ^ 6) with 64. Z.div_mod_to_equations. lia. }
  assert (H2 : Z.land (Z.shiftr val 6) 63 = 0).
  { rewrite sextet by lia. rewrite Hval. change (2 ^ 6) with 64.
    Z.div_mod_to_equations. lia. }
  rewrite (requantum_eq val 0 0 ltac:(change (2 ^ 24) with 16777216; lia) H2 H3).
  cbn [Nat.sub firstn].
  rewrite !Z.shiftr_div_pow2 by lia.
  change (2 ^ 16) with 65536.
  f_equal. apply byte_of_mod. rewrite Hval. Z.div_mod_to_equations. lia.
Qed.

Lemma list_ind3 {A : Type} (P : list A -> Prop) :
  P [] -> (forall a, P [a]) -> (forall a b, P [a; b]) ->
  (forall a b c l, P l -> P (a :: b :: c :: l)) ->
  forall l, P l.
Proof.
  intros H0 H1 H2 H3. fix IH 1.
  intros [|a [|b [|c l]]];
    [apply H0|apply H1|apply H2|apply H3; apply IH].
Qed.

(** Decoding what the encoder wrote gives back the bytes. *)
Lemma decode_encode (data : list byte) :
  base64.decode (base64.encode data) [] = inl data.
Proof.
  induction data as [|a|a b|a b c l IH] using list_ind3.
  - reflexivity.
  - cbn [base64.encode].
    rewrite !decode_char by (apply sextet_range; lia). cbn [app].
    pose proof (quantum1 a) as Hq. cbv zeta in Hq. rewrite <- Hq.
    reflexivity.
  - cbn [base64.encode].
    rewrite !decode_char by (apply sextet_range; lia). cbn [app].
    pose proof (quantum2 a b) as Hq. cbv zeta in Hq. rewrite <- Hq.
    reflexivity.
  - cbn [base64.encode].
    rewrite !decode_char
      by first [apply sextet_range; lia | apply land_63_range].
    cbn [app]. rewrite IH. cbn [base64.emit].
    pose proof (quantum3 a b c) as Hq. cbv zeta in Hq. rewrite Hq.
    reflexivity.
Qed.

Lemma encode_at_not_newline (v : Z) : 0 <= v < 64 -> base64.encode_at v <> newline.
Proof.
  intros H E. pose proof (decodeMap_encode_at v H) as Hd. rewrite E in Hd.
  vm_compute in Hd. lia.
Qed.

(** The encoder writes no line feed. *)
Lemma encode_no_newline (data : list byte) : ~ In newline (base64.encode data).
Proof.
  induction data as [|a|a b|a b c l IH] using list_ind3;
    cbn [base64.encode In]; intros H;
    repeat (destruct H as [H|H];
            [first [ discriminate H
                   | revert H; apply encode_at_not_newline;
                     first [apply sextet_range; lia | apply land_63_range] ]|]);
    contradiction.
Qed.

Lemma DecodeString_EncodeToString (data : list byte) :
  base64.DecodeString (base64.EncodeToString data) = inl data.
Proof.
  unfold base64.DecodeString, base64.EncodeToString.
  rewrite list_ascii_of_string_of_list_ascii. apply decode_encode.
Qed.

Lemma Upload_data_EncodeToString (data : list byte) :
  dropbox.Upload_data (base64.EncodeToString data) = data.
Proof.
  apply Upload_data_decoded; [|apply DecodeString_EncodeToString].
  unfold base64.EncodeToString. rewrite list_ascii_of_string_of_list_ascii.
  apply encode_no_newline.
Qed.

End Base64RoundTrip.

Section DownloadRoundTrip.

Lemma isTextContent_range_Forall (data : list byte) :
  handlers.isTextContent_range data = true <->
  Forall (fun b => 32 <= byte_val b \/ byte_val b = 9 \/ byte_val b = 10
                   \/ byte_val b = 13) data.
Proof.
  induction data as [|b rest IH].
  - split; [constructor|reflexivity].
  - cbn [handlers.isTextContent_range].
    pose proof (byte_val_range b) as Hb.
    destruct (Z.eqb_spec (byte_val b) 0) as [H0|H0].
    + split; [discriminate|]. intros H. inversion H; subst. lia.
    + destruct (Z.ltb_spec (byte_val b) 32) as [Hlt|Hge];
        destruct (Z.eqb_spec (byte_val b) 9) as [H9|H9];
        destruct (Z.eqb_spec (byte_val b) 10) as [H10|H10];
        destruct (Z.eqb_spec (byte_val b) 13) as [H13|H13];
        cbn [andb negb];
        try (rewrite IH; split;
             [intros H; constructor; [lia|exact H]
             |intros H; inversion H; assumption]).
      split; [discriminate|]. intros H. inversion H; subst. lia.
Qed.

Lemma isTextContent_Forall (data : list byte) :
  handlers.isTextContent data = true <->
  Forall (fun b => 32 <= byte_val b \/ byte_val b = 9 \/ byte_val b = 10
                   \/ byte_val b = 13) data.
Proof.
  unfold handlers.isTextContent. destruct data as [|b rest].
  - split; [constructor|reflexivity].
  - change (len (b :: rest) =? 0) with (Z.pos (Pos.of_succ_nat (List.length rest)) =? 0).
    cbn [Z.eqb]. apply isTextContent_range_Forall.
Qed.

Lemma isTextContent_Exists (data : list byte) :
  handlers.isTextContent data = false <->
  Exists (fun b => byte_val b < 32 /\ byte_val b <> 9 /\ byte_val b <> 10
                   /\ byte_val b <> 13) data.
Proof.
  split.
  - intros H. induction data as [|b rest IH].
    + discriminate H.
    + destruct (Z_lt_dec (byte_val b) 32) as [Hlt|Hge];
        [destruct (Z.eq_dec (byte_val b) 9) as [H9|H9];
         [|destruct (Z.eq_dec (byte_val b) 10) as [H10|H10];
           [|destruct (Z.eq_dec (byte_val b) 13) as [H13|H13];
             [|apply Exists_cons_hd; lia]]]|];
        (apply Exists_cons_tl; apply IH;
         apply not_true_is_false; intros Ht;
         apply isTextContent_Forall in Ht;
         assert (Hall : handlers.isTextContent (b :: rest) = true)
           by (apply isTextContent_Forall; constructor; [lia|exact Ht]);
         congruence).
  - intros H. apply not_true_is_false. intros Ht.
    apply isTextContent_Forall in Ht. rewrite Forall_forall in Ht.
    apply Exists_exists in H. destruct H as (b & Hin & Hb).
    specialize (Ht b Hin). lia.
Qed.

(** X15. [HandleDownload] answers with the bytes the provider delivers:
    as the type "text" exactly when no byte is a control character other
    than the tabulator, the line feed and the carriage return (a zero
    byte makes the file binary, bytes from 128 on never do, and the empty
    file is text), and as the type "base64" with the standard encoding
    otherwise. When the provider refuses the download, or the content
    cannot be read to its end, the error is returned and no part of the
    content is. *)
Theorem HandleDownload_answers {W : Type} (env : dropbox.Env)
    (files_New : string -> files.ReadClient W) (args : handlers.DownloadArgs)
    (cfg cfg' : config.Config) (token : string) (w : W) (data : list byte) :
  (handlers.HandleDownload_answer data
   = VMap [("content", VString (string_of_list_byte data));
           ("type", VString "text")] <->
   Forall (fun b => 32 <= byte_val b \/ byte_val b = 9 \/ byte_val b = 10
                    \/ byte_val b = 13) data) /\
  (handlers.HandleDownload_answer data
   = VMap [("content", VString (base64.EncodeToString data));
           ("type", VString "base64")] <->
   Exists (fun b => byte_val b < 32 /\ byte_val b <> 9 /\ byte_val b <> 10
                    /\ byte_val b <> 13) data) /\
  (handlers.DownloadArgs_Path args <> "" ->
   dropbox.NewClient env cfg = (inl token, cfg') ->
   forall (answer : result (files.FileMetadata * files.ReadCloser)) (w' : W),
     files.Download (files_New token)
       (files.mkDownloadArg (handlers.DownloadArgs_Path args)) w = (answer, w') ->
     handlers.HandleDownload env files_New (inl args) cfg w
     = (match answer with
        | inl (_, inl content) => inl (handlers.HandleDownload_answer content)
        | inl (_, inr err) =>
            inr (errorString ("failed to read content: " ++ Error err))
        | inr err => inr (errorString ("download failed: " ++ Error err))
        end, cfg', w')).
Proof.
  rewrite <- isTextContent_Forall, <- isTextContent_Exists.
  unfold handlers.HandleDownload_answer.
  split; [|split].
  - destruct (handlers.isTextContent data); split; congruence.
  - destruct (handlers.isTextContent data); split; congruence.
  - intros Hpath Hclient answer w' Hdl. unfold handlers.HandleDownload.
    apply is_empty_false in Hpath. rewrite Hpath, Hclient.
    unfold dropbox.Download, files.NewDownloadArg. rewrite Hdl.
    destruct answer as [[meta [content|err]]|err]; reflexivity.
Qed.

Lemma string_of_list_byte_ascii (data : list byte) :
  list_ascii_of_string (string_of_list_byte data) = map ascii_of_byte data.
Proof.
  unfold string_of_list_byte. apply list_ascii_of_string_of_list_ascii.
Qed.

Lemma newline_In (data : list byte) :
  In newline (list_ascii_of_string (string_of_list_byte data)) <-> In x0a data.
Proof.
  rewrite string_of_list_byte_ascii, in_map_iff. split.
  - intros (b & Hb & Hin). apply (f_equal byte_of_ascii) in Hb.
    rewrite byte_of_ascii_of_byte in Hb. cbn in Hb. subst b. exact Hin.
  - intros Hin. exists x0a. split; [reflexivity|exact Hin].
Qed.

Lemma string_of_list_byte_length (data : list byte) :
  String.length (string_of_list_byte data) = List.length data.
Proof.
  rewrite <- list_ascii_of_string_length, string_of_list_byte_ascii.
  apply length_map.
Qed.

(** X16. A file that [HandleDownload] answers as "base64" comes back
    unchanged: the content of the answer decodes to the bytes of the
    file, [Upload] takes these bytes as its data, and for a file of at
    most 150 MiB it sends exactly them in one direct call. *)
Theorem download_upload_binary {W : Type} (cl : files.Client W)
    (now : time.Time) (fuel : nat) (path mode : string) (w : W)
    (log : list files.Entry) (data : list byte) :
  handlers.isTextContent data = false ->
  exists content,
    handlers.HandleDownload_answer data
    = VMap [("content", VString content); ("type", VString "base64")] /\
    base64.DecodeString content = inl data /\
    dropbox.Upload_data content = data /\
    (len data <= dropbox.directLimit ->
     exists r w',
       dropbox.Upload (files.logged cl) now fuel path content mode (w, log)
       = Some (r, (w', (log ++ [files.mkEntry
                                  (files.CallUpload
                                     (dropbox.Upload_arg path
                                        (dropbox.Upload_commitInfo now path mode))
                                     data)
                                  (files.is_error r)])%list))).
Proof.
  intros Hbin. exists (base64.EncodeToString data).
  split; [unfold handlers.HandleDownload_answer; rewrite Hbin; reflexivity|].
  split; [apply DecodeString_EncodeToString|].
  split; [apply Upload_data_EncodeToString|].
  intros Hsmall. unfold dropbox.Upload.
  rewrite Upload_data_EncodeToString.
  destruct (Z.ltb_spec dropbox.directLimit (len data)); [lia|].
  cbn [files.logged files.Upload].
  destruct (files.Upload cl _ _ w) as [r w1].
  exists r, w1. reflexivity.
Qed.

(** X17. A file that [HandleDownload] answers as "text" and that is handed
    back to [HandleUpload] as it was answered: the empty file is refused
    with "content parameter is required" and nothing is sent; a file (of at
    most 150 MiB) that contains a line feed or is not valid base64 is sent
    unchanged in one direct upload; every other text is decoded, and the
    one direct upload then carries fewer bytes than the file has. *)
Theorem download_upload_text {W : Type} (env : dropbox.Env)
    (files_New : string -> files.Client W) (now : time.Time) (fuel : nat)
    (path mode : string) (cfg cfg' : config.Config) (token : string)
    (w : W) (log : list files.Entry) (data : list byte) :
  handlers.isTextContent data = true ->
  path <> "" ->
  dropbox.NewClient env cfg = (inl token, cfg') ->
  len data <= dropbox.directLimit ->
  handlers.HandleDownload_answer data
  = VMap [("content", VString (string_of_list_byte data));
          ("type", VString "text")] /\
  (data = [] ->
   handlers.HandleUpload env (fun t => files.logged (files_New t)) now fuel
     (inl (handlers.mkUploadArgs path (string_of_list_byte data) mode)) cfg (w, log)
   = Some (inr (errorString "content parameter is required"), cfg, (w, log))) /\
  (data <> [] ->
   In x0a data \/ dropbox.isBase64 (string_of_list_byte data) = false ->
   exists arg r w',
     handlers.HandleUpload env (fun t => files.logged (files_New t)) now fuel
       (inl (handlers.mkUploadArgs path (string_of_list_byte data) mode)) cfg (w, log)
     = Some (r, cfg',
             (w', (log ++ [files.mkEntry (files.CallUpload arg data)
                             (files.is_error r)])%list))) /\
  (data <> [] ->
   ~ In x0a data ->
   dropbox.isBase64 (string_of_list_byte data) = true ->
   exists arg decoded r w',
     base64.DecodeString (string_of_list_byte data) = inl decoded /\
     len decoded < len data /\
     handlers.HandleUpload env (fun t => files.logged (files_New t)) now fuel
       (inl (handlers.mkUploadArgs path (string_of_list_byte data) mode)) cfg (w, log)
     = Some (r, cfg',
             (w', (log ++ [files.mkEntry (files.CallUpload arg decoded)
                             (files.is_error r)])%list))).
Proof.
  intros Htext Hpath Hclient Hsmall.
  split; [unfold handlers.HandleDownload_answer; rewrite Htext; reflexivity|].
  apply is_empty_false in Hpath.
  assert (Hcontent : data <> [] -> is_empty (string_of_list_byte data) = false).
  { intros Hne. destruct data as [|b rest]; [contradiction|reflexivity]. }
  split; [|split].
  - intros ->. unfold handlers.HandleUpload.
    cbn [handlers.Path handlers.Content]. rewrite Hpath. reflexivity.
  - intros Hne Hraw. unfold handlers.HandleUpload.
    cbn [handlers.Path handlers.Content]. rewrite Hpath, (Hcontent Hne), Hclient.
    unfold dropbox.Upload.
    assert (Hdata : dropbox.Upload_data (string_of_list_byte data) = data).
    { rewrite Upload_data_raw.
      - apply list_byte_of_string_of_list_byte.
      - destruct Hraw as [Hin|Hb]; [left; apply newline_In; exact Hin|right; exact Hb]. }
    rewrite Hdata.
    destruct (Z.ltb_spec dropbox.directLimit (len data)); [lia|].
    cbn [files.logged files.Upload].
    destruct (files.Upload (files_New token) _ _ w) as [r w1].
    eexists _, r, w1. reflexivity.
  - intros Hne Hnl Hb. unfold dropbox.isBase64 in Hb.
    destruct (base64.DecodeString (string_of_list_byte data)) as [decoded|e] eqn:Hd;
      [|discriminate].
    assert (Hshort : len decoded < len data).
    { pose proof Hd as Hd'. unfold base64.DecodeString in Hd'.
      apply decode_length in Hd'.
      rewrite list_ascii_of_string_length, string_of_list_byte_length in Hd'.
      cbn [List.length] in Hd'. unfold len.
      destruct data as [|b rest]; [contradiction|]. cbn [List.length] in *. lia. }
    unfold handlers.HandleUpload.
    cbn [handlers.Path handlers.Content]. rewrite Hpath, (Hcontent Hne), Hclient.
    unfold dropbox.Upload.
    rewrite (Upload_data_decoded _ decoded); [|rewrite newline_In; exact Hnl|exact Hd].
    destruct (Z.ltb_spec dropbox.directLimit (len decoded)); [lia|].
    cbn [files.logged files.Upload].
    destruct (files.Upload (files_New token) _ _ w) as [r w1].
    eexists _, decoded, r, w1. split; [reflexivity|]. split; [exact Hshort|reflexivity].
Qed.

End DownloadRoundTrip.

(** X15 at a concrete download: the body of the file breaks off. *)
Lemma HandleDownload_answers_witness :
  handlers.HandleDownload
    (dropbox.mkEnv 100 100 (fun _ _ => inr io_EOF) (fun _ => None))
    (fun _ =>
       files.mkReadClient unit
         (fun _ w =>
            (inl (files.mkFileMetadata "a.txt" "/a.txt" 5 0 "rev",
                  inr (errorString "unexpected EOF")), w))
         (fun _ w => (inr io_EOF, w))
         (fun _ w => (inr io_EOF, w)))
    (inl (handlers.mkDownloadArgs "/a.txt"))
    (config.mkConfig "id" "secret" "at" "" 0) tt
  = (inr (errorString "failed to read content: unexpected EOF"),
     config.mkConfig "id" "secret" "at" "" 0, tt).
Proof.
  destruct (HandleDownload_answers
              (dropbox.mkEnv 100 100 (fun _ _ => inr io_EOF) (fun _ => None))
              (fun _ =>
                 files.mkReadClient unit
                   (fun _ w =>
                      (inl (files.mkFileMetadata "a.txt" "/a.txt" 5 0 "rev",
                            inr (errorString "unexpected EOF")), w))
                   (fun _ w => (inr io_EOF, w))
                   (fun _ w => (inr io_EOF, w)))
              (handlers.mkDownloadArgs "/a.txt")
              (config.mkConfig "id" "secret" "at" "" 0)
              (config.mkConfig "id" "secret" "at" "" 0) "at" tt [])
    as (_ & _ & H).
  apply (H ltac:(discriminate) eq_refl
           (inl (files.mkFileMetadata "a.txt" "/a.txt" 5 0 "rev",
                 inr (errorString "unexpected EOF"))) tt eq_refl).
Defined.

(** X16 at a concrete file: three bytes, the first of them zero. *)
Lemma download_upload_binary_witness :
  exists content,
    handlers.HandleDownload_answer [x00; xff; x10]
    = VMap [("content", VString content); ("type", VString "base64")] /\
    base64.DecodeString content = inl [x00; xff; x10] /\
    dropbox.Upload_data content = [x00; xff; x10] /\
    (len [x00; xff; x10] <= dropbox.directLimit ->
     exists r w',
       dropbox.Upload (files.logged session.accepting) 77 0 "/a.bin" content "add"
         (tt, [])
       = Some (r, (w', ([] ++ [files.mkEntry
                                 (files.CallUpload
                                    (dropbox.Upload_arg "/a.bin"
                                       (dropbox.Upload_commitInfo 77 "/a.bin" "add"))
                                    [x00; xff; x10])
                                 (files.is_error r)])%list))).
Proof.
  apply (download_upload_binary session.accepting 77 0 "/a.bin" "add" tt []
           [x00; xff; x10]).
  reflexivity.
Defined.

(** X17 at a concrete file: the eight letters of a word that is valid
    base64 go out as fewer bytes. *)
Lemma download_upload_text_witness :
  exists arg decoded r w',
    base64.DecodeString (string_of_list_byte (list_byte_of_string "password"))
    = inl decoded /\
    len decoded < len (list_byte_of_string "password") /\
    handlers.HandleUpload
      (dropbox.mkEnv 100 101 (fun _ _ => inr io_EOF) (fun _ => None))
      (fun _ => files.logged session.accepting) 77 2
      (inl (handlers.mkUploadArgs "/a.txt"
              (string_of_list_byte (list_byte_of_string "password")) ""))
      (config.mkConfig "id" "secret" "at" "" 0) (tt, [])
    = Some (r, config.mkConfig "id" "secret" "at" "" 0,
            (w', ([] ++ [files.mkEntry (files.CallUpload arg decoded)
                           (files.is_error r)])%list)).
Proof.
  destruct (download_upload_text
              (dropbox.mkEnv 100 101 (fun _ _ => inr io_EOF) (fun _ => None))
              (fun _ => session.accepting) 77 2 "/a.txt" ""
              (config.mkConfig "id" "secret" "at" "" 0)
              (config.mkConfig "id" "secret" "at" "" 0) "at" tt []
              (list_byte_of_string "password")) as (_ & _ & _ & H).
  - reflexivity.
  - discriminate.
  - reflexivity.
  - vm_compute. discriminate.
  - apply H.
    + discriminate.
    + vm_compute. intros F.
      repeat (destruct F as [F|F]; [discriminate F|]). exact F.
    + reflexivity.
Defined.


(** ** The authentication check *)
Section CheckAuth.

Import config.

Variable now : time.Time.
Variable client_Do : auth.CheckRequest -> result Z.

(** X18. [HandleCheckAuth] reports a credential as authenticated exactly
    when it is valid on the local clock and the provider answers its one
    check request with status 200. A credential that is not valid
    locally is turned down without any request. A valid one is checked
    by a single POST that carries the access token as bearer, and every
    failure of that check, be it another status or an error of the
    transport, gets the same answer. *)
Theorem HandleCheckAuth_answers (cfg : Config) :
  let req := auth.mkCheckRequest "POST" "https://api.dropboxapi.com/2/check/user"
               ("Bearer " ++ AccessToken cfg) "application/json" in
  (fst (handlers.HandleCheckAuth now client_Do cfg)
   = VMap [("authenticated", VBool true);
           ("message", VString "Authenticated with Dropbox");
           ("expires_at", VTime (ExpiresAt cfg))] <->
   IsTokenValid now cfg = true /\ client_Do req = inl 200) /\
  (IsTokenValid now cfg = false ->
   handlers.HandleCheckAuth now client_Do cfg
   = (VMap [("authenticated", VBool false);
            ("message", VString "Not authenticated. Please run dropbox_auth first.")],
      [])) /\
  (IsTokenValid now cfg = true ->
   snd (handlers.HandleCheckAuth now client_Do cfg) = [req]) /\
  (IsTokenValid now cfg = true -> client_Do req <> inl 200 ->
   fst (handlers.HandleCheckAuth now client_Do cfg)
   = VMap [("authenticated", VBool false);
           ("message",
            VString "Token is invalid or expired. Please re-authenticate.")]).
Proof.
  intros req. unfold handlers.HandleCheckAuth, auth.ValidateToken. fold req.
  destruct (IsTokenValid now cfg) eqn:Hv; cbn [negb].
  - destruct (client_Do req) as [status|err] eqn:Hdo.
    + destruct (Z.eqb_spec status auth.StatusOK) as [->|Hs]; cbn [negb fst snd].
      * repeat split; try reflexivity; try discriminate.
        intros _ H. contradiction H. reflexivity.
      * repeat split; try reflexivity; try discriminate.
        intros [_ H]. injection H as ->. contradiction Hs. reflexivity.
    + cbn [fst snd]. repeat split; try reflexivity; try discriminate.
      intros [_ H]. discriminate H.
  - cbn [fst snd]. repeat split; try reflexivity; try discriminate.
    intros [H _]. discriminate H.
Qed.

End CheckAuth.

Section CheckAuthAndRefresh.

Import config.

(** X19. [HandleCheckAuth] does not refresh. For a credential whose
    access token has expired and whose refresh token the provider still
    honours, it answers "Not authenticated" without any request, while
    [NewClient], called then or later, refreshes the credential and hands
    out a client with the new token, provided the new token has not
    expired when [NewClient] reads the clock for the second time, however
    long after the first. *)
Theorem HandleCheckAuth_no_refresh (now : time.Time) (env : dropbox.Env)
    (client_Do : auth.CheckRequest -> result Z) (cfg : Config)
    (res : auth.AuthResult) :
  RefreshToken cfg <> "" ->
  ExpiresAt cfg <> 0 ->
  ExpiresAt cfg <= now ->
  now <= dropbox.now_NeedsRefresh env ->
  dropbox.RefreshToken env
    (auth.mkOAuthConfig (ClientID cfg) (ClientSecret cfg) "") (RefreshToken cfg)
  = inl res ->
  dropbox.Save env
    (UpdateTokens cfg (auth.AccessToken res) (auth.RefreshToken res)
       (auth.ExpiresAt res)) = None ->
  auth.AccessToken res <> "" ->
  dropbox.now_IsTokenValid env < auth.ExpiresAt res ->
  handlers.HandleCheckAuth now client_Do cfg
  = (VMap [("authenticated", VBool false);
           ("message", VString "Not authenticated. Please run dropbox_auth first.")],
     []) /\
  dropbox.NewClient env cfg
  = (inl (auth.AccessToken res),
     UpdateTokens cfg (auth.AccessToken res) (auth.RefreshToken res)
       (auth.ExpiresAt res)).
Proof.
  intros Hrt Hset Hexp Hlater Hres Hsave Hat Hnew.
  assert (Hinvalid : IsTokenValid now cfg = false).
  { apply not_true_is_false. intros H. apply IsTokenValid_true in H. lia. }
  assert (Hneeds : NeedsRefresh (dropbox.now_NeedsRefresh env) cfg = true).
  { apply NeedsRefresh_true. split; [exact Hrt|]. split.
    - unfold time.IsZero. apply Z.eqb_neq. exact Hset.
    - apply after_lt. unfold time.Add, time.Minute, time.Second, time.Nanosecond. lia. }
  split.
  - unfold handlers.HandleCheckAuth. rewrite Hinvalid. reflexivity.
  - unfold dropbox.NewClient. rewrite Hneeds.
    apply is_empty_false in Hrt. rewrite Hrt. cbn [andb negb].
    rewrite Hres, Hsave.
    assert (Hv : IsTokenValid (dropbox.now_IsTokenValid env)
                   (UpdateTokens cfg (auth.AccessToken res) (auth.RefreshToken res)
                      (auth.ExpiresAt res)) = true).
    { apply IsTokenValid_true. rewrite UpdateTokens_fields. cbn. auto. }
    rewrite Hv. cbn [negb]. rewrite UpdateTokens_fields. reflexivity.
Qed.

(** X20. [RefreshToken] hands on the tokens and the expiry of the token
    endpoint's answer as they are, an empty refresh token included. When
    the endpoint refuses, its error is prefixed once by [RefreshToken]
    and once more by [NewClient], which then leaves the credential as it
    was. *)
Theorem RefreshToken_outcomes
    (tokenSource : string -> string -> string -> result auth.Token)
    (env : dropbox.Env) (cfg : Config) :
  dropbox.RefreshToken env = auth.RefreshToken_func tokenSource ->
  NeedsRefresh (dropbox.now_NeedsRefresh env) cfg = true ->
  (forall newToken,
      tokenSource (ClientID cfg) (ClientSecret cfg) (RefreshToken cfg) = inl newToken ->
      auth.RefreshToken_func tokenSource
        (auth.mkOAuthConfig (ClientID cfg) (ClientSecret cfg) "") (RefreshToken cfg)
      = inl (auth.mkAuthResult (auth.Token_AccessToken newToken)
               (auth.Token_RefreshToken newToken) (auth.Token_Expiry newToken))) /\
  (forall err,
      tokenSource (ClientID cfg) (ClientSecret cfg) (RefreshToken cfg) = inr err ->
      dropbox.NewClient env cfg
      = (inr (errorString
                ("failed to refresh token: failed to refresh token: " ++ Error err)),
         cfg)).
Proof.
  intros Henv Hneeds. split.
  - intros newToken H. unfold auth.RefreshToken_func. cbn [auth.ClientID auth.ClientSecret].
    rewrite H. reflexivity.
  - intros err H. unfold dropbox.NewClient. rewrite Hneeds.
    rewrite (NeedsRefresh_has_token _ _ Hneeds). cbn [andb negb].
    rewrite Henv. unfold auth.RefreshToken_func. cbn [auth.ClientID auth.ClientSecret].
    rewrite H. reflexivity.
Qed.

End CheckAuthAndRefresh.

(** X18 at a concrete credential: valid locally, refused by the provider
    with status 401. *)
Lemma HandleCheckAuth_answers_witness :
  fst (handlers.HandleCheckAuth 100 (fun _ => inl 401)
         (config.mkConfig "id" "secret" "at" "rt" 900))
  = VMap [("authenticated", VBool false);
          ("message",
           VString "Token is invalid or expired. Please re-authenticate.")].
Proof.
  destruct (HandleCheckAuth_answers 100 (fun _ => inl 401)
              (config.mkConfig "id" "secret" "at" "rt" 900)) as (_ & _ & _ & H).
  apply H; [reflexivity|discriminate].
Defined.

(** X19 at a concrete credential: expired at 50, checked at 100, and
    [NewClient] reads its clock at 101 and at 102. *)
Lemma HandleCheckAuth_no_refresh_witness :
  handlers.HandleCheckAuth 100 (fun _ => inl 200)
    (config.mkConfig "id" "secret" "old" "rt" 50)
  = (VMap [("authenticated", VBool false);
           ("message", VString "Not authenticated. Please run dropbox_auth first.")],
     []) /\
  dropbox.NewClient
    (dropbox.mkEnv 101 102 (fun _ _ => inl (auth.mkAuthResult "new" "" 900))
       (fun _ => None))
    (config.mkConfig "id" "secret" "old" "rt" 50)
  = (inl "new", config.mkConfig "id" "secret" "new" "rt" 900).
Proof.
  apply (HandleCheckAuth_no_refresh 100
           (dropbox.mkEnv 101 102 (fun _ _ => inl (auth.mkAuthResult "new" "" 900))
              (fun _ => None))
           (fun _ => inl 200)
           (config.mkConfig "id" "secret" "old" "rt" 50)
           (auth.mkAuthResult "new" "" 900));
    first [discriminate | reflexivity | (cbn; lia)].
Defined.

(** X20 at a concrete credential: the token endpoint answers
    "invalid_grant". *)
Lemma RefreshToken_outcomes_witness :
  dropbox.NewClient
    (dropbox.mkEnv 100 100
       (auth.RefreshToken_func (fun _ _ _ => inr (errorString "invalid_grant")))
       (fun _ => None))
    (config.mkConfig "id" "secret" "old" "rt" 50)
  = (inr (errorString
            "failed to refresh token: failed to refresh token: invalid_grant"),
     config.mkConfig "id" "secret" "old" "rt" 50).
Proof.
  destruct (RefreshToken_outcomes
              (fun _ _ _ => inr (errorString "invalid_grant"))
              (dropbox.mkEnv 100 100
                 (auth.RefreshToken_func
                    (fun _ _ _ => inr (errorString "invalid_grant")))
                 (fun _ => None))
              (config.mkConfig "id" "secret" "old" "rt" 50)) as (_ & H);
    [reflexivity|reflexivity|].
  apply (H (errorString "invalid_grant")). reflexivity.
Defined.


(** ** Listing a folder *)
Section Listing.

Import session.

Lemma ListFolder_loop_pages (ps : list files.ListFolderResult) :
  forall (fuel : nat) (res : files.ListFolderResult)
         (acc : list files.IsMetadata)
         (rest : list (result files.ListFolderResult)) (calls : list ListCall),
    (List.length ps <= fuel)%nat ->
    paged (res :: ps) = true ->
    dropbox.ListFolder_loop scripted fuel res acc ((map inl ps ++ rest)%list, calls)
    = Some (inl (acc ++ List.concat (map files.Entries ps))%list,
            (rest, (calls ++ map continue_call (removelast (res :: ps)))%list)).
Proof.
  induction ps as [|p ps IH]; intros fuel res acc rest calls Hfuel Hpaged.
  - cbn [paged] in Hpaged. apply negb_true_iff in Hpaged.
    destruct fuel; cbn [dropbox.ListFolder_loop]; rewrite Hpaged; cbn [negb map List.concat removelast app];
      rewrite !app_nil_r; reflexivity.
  - change (paged (res :: p :: ps)) with (files.HasMore res && paged (p :: ps)) in Hpaged.
    apply andb_true_iff in Hpaged. destruct Hpaged as [Hmore Hpaged].
    destruct fuel as [|fuel]; [cbn in Hfuel; lia|].
    cbn [dropbox.ListFolder_loop]. rewrite Hmore. cbn [negb].
    cbn [scripted files.ListFolderContinue map app].
    rewrite (IH fuel p (acc ++ files.Entries p)%list rest _
               ltac:(cbn in Hfuel; lia) Hpaged).
    change (removelast (res :: p :: ps)) with (res :: removelast (p :: ps)).
    cbn [map List.concat]. rewrite <- !app_assoc. reflexivity.
Qed.

(** X21. [ListFolder] returns the entries of all the pages of a listing,
    in the order of the pages: it asks for the folder once, not
    recursively and without deleted entries, then asks for each further
    page with the cursor of the page before, and stops at the first page
    that announces no more. [HandleList] answers with one item for each
    of these entries, in the same order. *)
Theorem ListFolder_pages (fuel : nat) (path : string)
    (p0 : files.ListFolderResult) (ps : list files.ListFolderResult)
    (rest : list (result files.ListFolderResult)) (calls : list ListCall) :
  (List.length ps <= fuel)%nat ->
  paged (p0 :: ps) = true ->
  dropbox.ListFolder scripted fuel path ((map inl (p0 :: ps) ++ rest)%list, calls)
  = Some (inl (List.concat (map files.Entries (p0 :: ps))),
          (rest,
           (calls ++ CallList (files.mkListFolderArg path false false)
                     :: map continue_call (removelast (p0 :: ps)))%list)) /\
  (forall (env : dropbox.Env) (cfg cfg' : config.Config) (token : string),
      dropbox.NewClient env cfg = (inl token, cfg') ->
      handlers.HandleList env (fun _ => scripted) fuel
        (inl (handlers.mkListArgs path)) cfg
        ((map inl (p0 :: ps) ++ rest)%list, calls)
      = Some (inl (VList (map handlers.HandleList_item
                            (List.concat (map files.Entries (p0 :: ps))))),
              cfg',
              (rest,
               (calls ++ CallList (files.mkListFolderArg path false false)
                         :: map continue_call (removelast (p0 :: ps)))%list))).
Proof.
  intros Hfuel Hpaged.
  assert (Hlist :
    dropbox.ListFolder scripted fuel path ((map inl (p0 :: ps) ++ rest)%list, calls)
    = Some (inl (List.concat (map files.Entries (p0 :: ps))),
            (rest,
             (calls ++ CallList (files.mkListFolderArg path false false)
                       :: map continue_call (removelast (p0 :: ps)))%list))).
  { unfold dropbox.ListFolder.
    assert (Hpath : (if is_empty path then "" else path) = path).
    { destruct (is_empty path) eqn:E; [|reflexivity].
      apply is_empty_true in E. symmetry. exact E. }
    rewrite Hpath.
    cbn [files.NewListFolderArg files.ListFolderArg_Path files.Recursive
         files.IncludeDeleted scripted files.ListFolder map app].
    rewrite (ListFolder_loop_pages ps fuel p0 (files.Entries p0) rest _ Hfuel Hpaged).
    cbn [map List.concat]. rewrite <- app_assoc. reflexivity. }
  split; [exact Hlist|].
  intros env cfg cfg' token Hclient. unfold handlers.HandleList.
  rewrite Hclient. cbn [handlers.ListArgs_Path]. rewrite Hlist. reflexivity.
Qed.

Lemma ListFolder_loop_fails (ps : list files.ListFolderResult) :
  forall (fuel : nat) (res : files.ListFolderResult)
         (acc : list files.IsMetadata) (err : error)
         (rest : list (result files.ListFolderResult)) (calls : list ListCall),
    (List.length ps < fuel)%nat ->
    forallb files.HasMore (res :: ps) = true ->
    dropbox.ListFolder_loop scripted fuel res acc
      ((map inl ps ++ inr err :: rest)%list, calls)
    = Some (inr (errorString ("failed to continue listing: " ++ Error err)),
            (rest, (calls ++ map continue_call (res :: ps))%list)).
Proof.
  induction ps as [|p ps IH]; intros fuel res acc err rest calls Hfuel Hmore;
    cbn [forallb] in Hmore; apply andb_true_iff in Hmore;
    destruct Hmore as [Hres Hps];
    (destruct fuel as [|fuel]; [cbn in Hfuel; lia|]);
    cbn [dropbox.ListFolder_loop]; rewrite Hres; cbn [negb];
    cbn [scripted files.ListFolderContinue map app].
  - reflexivity.
  - rewrite (IH fuel p (acc ++ files.Entries p)%list err rest _
               ltac:(cbn in Hfuel; lia) Hps).
    cbn [map]. rewrite <- !app_assoc. reflexivity.
Qed.

(** X22. [ListFolder] gives all or nothing. When the provider refuses the
    first call, the error is returned as "failed to list folder"; when it
    refuses the request for a further page, the error is returned as
    "failed to continue listing", the entries of the pages received so
    far are not returned, and no further request is made. *)
Theorem ListFolder_failures (fuel : nat) (path : string) (err : error)
    (rest : list (result files.ListFolderResult)) (calls : list ListCall) :
  dropbox.ListFolder scripted fuel path (inr err :: rest, calls)
  = Some (inr (errorString ("failed to list folder: " ++ Error err)),
          (rest, (calls ++ [CallList (files.mkListFolderArg path false false)])%list)) /\
  (forall (p0 : files.ListFolderResult) (ps : list files.ListFolderResult),
      (List.length ps < fuel)%nat ->
      forallb files.HasMore (p0 :: ps) = true ->
      dropbox.ListFolder scripted fuel path
        ((map inl (p0 :: ps) ++ inr err :: rest)%list, calls)
      = Some (inr (errorString ("failed to continue listing: " ++ Error err)),
              (rest,
               (calls ++ CallList (files.mkListFolderArg path false false)
                         :: map continue_call (p0 :: ps))%list))).
Proof.
  assert (Hpath : (if is_empty path then "" else path) = path).
  { destruct (is_empty path) eqn:E; [|reflexivity].
    apply is_empty_true in E. symmetry. exact E. }
  split.
  - unfold dropbox.ListFolder. rewrite Hpath. reflexivity.
  - intros p0 ps Hfuel Hmore. unfold dropbox.ListFolder. rewrite Hpath.
    cbn [files.NewListFolderArg files.ListFolderArg_Path files.Recursive
         files.IncludeDeleted scripted files.ListFolder map app].
    rewrite (ListFolder_loop_fails ps fuel p0 (files.Entries p0) err rest _
               Hfuel Hmore).
    rewrite <- app_assoc. reflexivity.
Qed.

Lemma ListFolder_loop_unbounded {W : Type} (cl : files.ReadClient W) :
  (forall arg w, exists res w',
      files.ListFolderContinue cl arg w = (inl res, w') /\
      files.HasMore res = true) ->
  forall (fuel : nat) (res : files.ListFolderResult)
         (acc : list files.IsMetadata) (w : W),
    files.HasMore res = true ->
    dropbox.ListFolder_loop cl fuel res acc w = None.
Proof.
  intros Hcont. induction fuel as [|fuel IH]; intros res acc w Hmore;
    cbn [dropbox.ListFolder_loop]; rewrite Hmore; cbn [negb]; [reflexivity|].
  destruct (Hcont (files.NewListFolderContinueArg (files.Cursor res)) w)
    as (res' & w' & -> & Hmore').
  apply IH. exact Hmore'.
Qed.

(** X23. [ListFolder] has no bound of its own on the number of pages: as
    long as the provider answers every request with a page that
    announces another one, the loop goes on, whatever the number of
    iterations allowed. *)
Theorem ListFolder_unbounded {W : Type} (cl : files.ReadClient W)
    (fuel : nat) (path : string) (w : W) :
  (forall arg w, exists res w',
      files.ListFolder cl arg w = (inl res, w') /\ files.HasMore res = true) ->
  (forall arg w, exists res w',
      files.ListFolderContinue cl arg w = (inl res, w') /\
      files.HasMore res = true) ->
  dropbox.ListFolder cl fuel path w = None.
Proof.
  intros Hfirst Hcont. unfold dropbox.ListFolder.
  match goal with
  | |- context [files.ListFolder cl ?arg w] =>
      destruct (Hfirst arg w) as (res & w' & -> & Hmore)
  end.
  apply ListFolder_loop_unbounded; assumption.
Qed.

End Listing.

(** X21 at a concrete listing: two pages. *)
Lemma ListFolder_pages_witness :
  dropbox.ListFolder session.scripted 1 "/docs"
    (([inl (files.mkListFolderResult [files.Deleted "a"] "c1" true);
       inl (files.mkListFolderResult [files.Deleted "b"] "c2" false)] ++ [])%list, [])
  = Some (inl [files.Deleted "a"; files.Deleted "b"],
          ([], [session.CallList (files.mkListFolderArg "/docs" false false);
                session.CallContinue (files.mkListFolderContinueArg "c1")])).
Proof.
  destruct (ListFolder_pages 1 "/docs"
              (files.mkListFolderResult [files.Deleted "a"] "c1" true)
              [files.mkListFolderResult [files.Deleted "b"] "c2" false] [] [])
    as (H & _).
  - cbn. lia.
  - reflexivity.
  - exact H.
Defined.

(** X22 at a concrete listing: the second page is refused. *)
Lemma ListFolder_failures_witness :
  dropbox.ListFolder session.scripted 1 "/docs"
    (([inl (files.mkListFolderResult [files.Deleted "a"] "c1" true)]
      ++ [inr (errorString "too_many_requests")])%list, [])
  = Some (inr (errorString "failed to continue listing: too_many_requests"),
          ([], [session.CallList (files.mkListFolderArg "/docs" false false);
                session.CallContinue (files.mkListFolderContinueArg "c1")])).
Proof.
  destruct (ListFolder_failures 1 "/docs" (errorString "too_many_requests") [] [])
    as (_ & H).
  apply (H (files.mkListFolderResult [files.Deleted "a"] "c1" true) []).
  - cbn. lia.
  - reflexivity.
Defined.

(** X23 at a concrete provider. *)
Lemma ListFolder_unbounded_witness :
  dropbox.ListFolder session.endless 1000 "/docs" tt = None.
Proof.
  apply (ListFolder_unbounded session.endless 1000 "/docs" tt);
    intros arg w; exists (files.mkListFolderResult [] "cursor" true), w;
    split; reflexivity.
Defined.


(** ** Shared links *)
Section SharedLinks.

Context {W : Type} (cl : sharing.Client W).
Variable time_Parse : string -> result time.Time.

(** The argument [CreateSharedLink] sends for a path and settings. *)
Lemma CreateSharedLink_unfold (path : string)
    (settings : option (list (string * Value))) (w : W) :
  dropbox.CreateSharedLink cl time_Parse path settings w
  = match sharing.CreateSharedLinkWithSettings cl
            (sharing.mkCreateSharedLinkWithSettingsArg path
               (option_map (dropbox.CreateSharedLink_settings time_Parse) settings)) w
    with
    | (inr err, w') =>
        match
          (if strings.Contains (Error err) "shared_link_already_exists" then
             match dropbox.ListSharedLinks cl path w' with
             | (inl (sharing.FileLinkMetadata l :: _), w'') => (Some (sharing.Url l), w'')
             | (inl (sharing.FolderLinkMetadata l :: _), w'') => (Some (sharing.Url l), w'')
             | (_, w'') => (None, w'')
             end
           else (None, w'))
        with
        | (Some url, w'') => (inl url, w'')
        | (None, w'') => (inr (Errorf_w "failed to create shared link: " err), w'')
        end
    | (inl (sharing.FileLinkMetadata metadata), w') => (inl (sharing.Url metadata), w')
    | (inl (sharing.FolderLinkMetadata metadata), w') => (inl (sharing.Url metadata), w')
    | (inl sharing.OtherLinkMetadata, w') =>
        (inr (errorString "unexpected shared link type"), w')
    end.
Proof. destruct settings; reflexivity. Qed.

(** X24. When the provider refuses to create a link because one exists
    already, [CreateSharedLink] lists the links of the path and returns
    the URL of the first one as its result, without an error and
    whatever settings were asked for. When the list cannot be had, is
    empty, or starts with a link of another kind, the error of the
    creation is returned and the error of the listing is not. For every
    other refusal the links are not listed at all. *)
Theorem CreateSharedLink_existing (path : string)
    (settings : option (list (string * Value))) (w w1 : W) (err : error) :
  sharing.CreateSharedLinkWithSettings cl
    (sharing.mkCreateSharedLinkWithSettingsArg path
       (option_map (dropbox.CreateSharedLink_settings time_Parse) settings)) w
  = (inr err, w1) ->
  (strings.Contains (Error err) "shared_link_already_exists" = false ->
   dropbox.CreateSharedLink cl time_Parse path settings w
   = (inr (errorString ("failed to create shared link: " ++ Error err)), w1)) /\
  (strings.Contains (Error err) "shared_link_already_exists" = true ->
   forall (answer : result sharing.ListSharedLinksResult) (w2 : W),
     sharing.ListSharedLinks cl (sharing.mkListSharedLinksArg path "") w1
     = (answer, w2) ->
     dropbox.CreateSharedLink cl time_Parse path settings w
     = (match answer with
        | inl result =>
            match sharing.Links result with
            | sharing.FileLinkMetadata l :: _ => inl (sharing.Url l)
            | sharing.FolderLinkMetadata l :: _ => inl (sharing.Url l)
            | _ => inr (errorString ("failed to create shared link: " ++ Error err))
            end
        | inr _ => inr (errorString ("failed to create shared link: " ++ Error err))
        end, w2)).
Proof.
  intros Hcreate. rewrite CreateSharedLink_unfold, Hcreate. split.
  - intros ->. reflexivity.
  - intros -> answer w2 Hlist. unfold dropbox.ListSharedLinks.
    cbn [sharing.NewListSharedLinksArg sharing.ListArg_Cursor]. rewrite Hlist.
    destruct answer as [[[|[l|l|] links] more cursor]|e]; reflexivity.
Qed.

(** X25. The settings of a new link: the expiry is set only when the
    value under "expires" is a string that parses, and the password only
    when the value under "password" is a string. An expiry that does not
    parse is left out without an error, so that the link is asked for
    without one. *)
Theorem CreateSharedLink_settings_fields (m : list (string * Value)) :
  sharing.Expires (dropbox.CreateSharedLink_settings time_Parse m)
  = match dropbox.lookup_string m "expires" with
    | Some expires =>
        match time_Parse expires with
        | inl t => Some t
        | inr _ => None
        end
    | None => None
    end /\
  sharing.LinkPassword (dropbox.CreateSharedLink_settings time_Parse m)
  = match dropbox.lookup_string m "password" with
    | Some password => password
    | None => ""
    end /\
  (forall (path expires : string) (e : error) (w : W),
      dropbox.lookup_string m "expires" = Some expires ->
      time_Parse expires = inr e ->
      dropbox.CreateSharedLink cl time_Parse path (Some m) w
      = dropbox.CreateSharedLink cl time_Parse path
          (Some (match dropbox.lookup_string m "password" with
                 | Some password => [("password", VString password)]
                 | None => []
                 end)) w).
Proof.
  split; [|split].
  - unfold dropbox.CreateSharedLink_settings.
    destruct (dropbox.lookup_string m "expires") as [expires|];
      [destruct (time_Parse expires)|];
      destruct (dropbox.lookup_string m "password"); reflexivity.
  - unfold dropbox.CreateSharedLink_settings.
    destruct (dropbox.lookup_string m "expires") as [expires|];
      [destruct (time_Parse expires)|];
      destruct (dropbox.lookup_string m "password"); reflexivity.
  - intros path expires e w Hl Hp. rewrite !CreateSharedLink_unfold.
    cbn [option_map]. unfold dropbox.CreateSharedLink_settings.
    rewrite Hl, Hp.
    destruct (dropbox.lookup_string m "password"); reflexivity.
Qed.

End SharedLinks.

(** X24 at a concrete provider: the path has a link already, and a
    password is asked for. *)
Lemma CreateSharedLink_existing_witness :
  dropbox.CreateSharedLink
    (sharing.mkClient unit
       (fun _ w => (inr (errorString "shared_link_already_exists/metadata"), w))
       (fun _ w =>
          (inl (sharing.mkListSharedLinksResult
                  [sharing.FileLinkMetadata
                     (sharing.mkLinkMetadata "https://www.dropbox.com/s/1" "a.txt"
                        "/a.txt" None)]
                  false ""), w))
       (fun _ w => (None, w)))
    (fun _ => inr (errorString "parsing time"))
    "/a.txt" (Some [("password", VString "secret")]) tt
  = (inl "https://www.dropbox.com/s/1", tt).
Proof.
  destruct (CreateSharedLink_existing
              (sharing.mkClient unit
                 (fun _ w => (inr (errorString "shared_link_already_exists/metadata"), w))
                 (fun _ w =>
                    (inl (sharing.mkListSharedLinksResult
                            [sharing.FileLinkMetadata
                               (sharing.mkLinkMetadata "https://www.dropbox.com/s/1"
                                  "a.txt" "/a.txt" None)]
                            false ""), w))
                 (fun _ w => (None, w)))
              (fun _ => inr (errorString "parsing time"))
              "/a.txt" (Some [("password", VString "secret")]) tt tt
              (errorString "shared_link_already_exists/metadata") eq_refl)
    as (_ & H).
  apply (H eq_refl
           (inl (sharing.mkListSharedLinksResult
                   [sharing.FileLinkMetadata
                      (sharing.mkLinkMetadata "https://www.dropbox.com/s/1" "a.txt"
                         "/a.txt" None)]
                   false "")) tt eq_refl).
Defined.

(** X25 at concrete settings: an expiry that is no date. *)
Lemma CreateSharedLink_settings_fields_witness :
  dropbox.CreateSharedLink
    (sharing.mkClient unit
       (fun arg w => (inl (sharing.FileLinkMetadata
                             (sharing.mkLinkMetadata "https://www.dropbox.com/s/2"
                                "a.txt" "/a.txt"
                                (match sharing.Settings arg with
                                 | Some s => sharing.Expires s
                                 | None => None
                                 end))), w))
       (fun _ w => (inr (errorString "unused"), w))
       (fun _ w => (None, w)))
    (fun _ => inr (errorString "parsing time"))
    "/a.txt" (Some [("expires", VString "tomorrow"); ("password", VString "secret")]) tt
  = dropbox.CreateSharedLink
      (sharing.mkClient unit
         (fun arg w => (inl (sharing.FileLinkMetadata
                               (sharing.mkLinkMetadata "https://www.dropbox.com/s/2"
                                  "a.txt" "/a.txt"
                                  (match sharing.Settings arg with
                                   | Some s => sharing.Expires s
                                   | None => None
                                   end))), w))
         (fun _ w => (inr (errorString "unused"), w))
         (fun _ w => (None, w)))
      (fun _ => inr (errorString "parsing time"))
      "/a.txt" (Some [("password", VString "secret")]) tt.
Proof.
  destruct (CreateSharedLink_settings_fields
              (sharing.mkClient unit
                 (fun arg w => (inl (sharing.FileLinkMetadata
                                       (sharing.mkLinkMetadata
                                          "https://www.dropbox.com/s/2"
                                          "a.txt" "/a.txt"
                                          (match sharing.Settings arg with
                                           | Some s => sharing.Expires s
                                           | None => None
                                           end))), w))
                 (fun _ w => (inr (errorString "unused"), w))
                 (fun _ w => (None, w)))
              (fun _ => inr (errorString "parsing time"))
              [("expires", VString "tomorrow"); ("password", VString "secret")])
    as (_ & _ & H).
  apply (H "/a.txt" "tomorrow" (errorString "parsing time") tt); reflexivity.
Defined.


(** ** The server loop *)
Section ServerLoop.

Import main.

Context {H : Type} (handler : Handler H).
Variable VERSION : string.
Variable Unmarshal_Request : string -> result Request.
Variable Unmarshal_toolCall : RawMessage -> result ToolCall.
Variable Marshal : Response -> result string.
Variable toJSON : Value -> string.

Lemma notification_method (m : string) :
  HasPrefix m "notifications/" = true ->
  (m =? "initialize")%string = false /\
  (m =? "tools/list")%string = false /\
  (m =? "tools/call")%string = false /\
  (m =? "prompts/list")%string = false /\
  (m =? "resources/list")%string = false.
Proof.
  intros Hp.
  repeat split; apply String.eqb_neq; intros ->; vm_compute in Hp; discriminate Hp.
Qed.

(** X26. The server leaves a request without a response exactly when its
    method begins with "notifications/", whether it carries an id or
    not; the handler is not touched then. Every other request is
    answered, also one that carries no id. *)
Theorem respond_silent_iff (req : Request) (h : H) :
  (fst (respond handler VERSION Unmarshal_toolCall toJSON req h) = None <->
   HasPrefix (Method req) "notifications/" = true) /\
  (HasPrefix (Method req) "notifications/" = true ->
   respond handler VERSION Unmarshal_toolCall toJSON req h = (None, h)).
Proof.
  assert (Hsilent : HasPrefix (Method req) "notifications/" = true ->
            respond handler VERSION Unmarshal_toolCall toJSON req h = (None, h)).
  { intros Hp. unfold respond. rewrite Hp.
    destruct (notification_method _ Hp) as (-> & -> & -> & -> & ->).
    destruct (ID req); reflexivity. }
  split; [|exact Hsilent]. split.
  - intros Hnone.
    destruct (HasPrefix (Method req) "notifications/") eqn:Hp; [reflexivity|].
    exfalso. revert Hnone. unfold respond. rewrite Hp.
    destruct (ID req);
      destruct (Method req =? "initialize")%string; try discriminate;
      destruct (Method req =? "tools/list")%string; try discriminate;
      (destruct (Method req =? "tools/call")%string;
       [destruct (handleToolCall _ _ _ _ _); discriminate|]);
      destruct (Method req =? "prompts/list")%string; try discriminate;
      destruct (Method req =? "resources/list")%string; discriminate.
  - intros Hp. rewrite (Hsilent Hp). reflexivity.
Qed.

(** X27. A response carries the version "2.0" and the id of its request
    as it came, absent ids included, and either a result or an error,
    never both. The only error the loop itself reports is -32601,
    "Method not found", for a method that is none of the five it knows,
    and only a "tools/call" request can change the handler. *)
Theorem respond_shape (req : Request) (h h' : H) (resp : Response) :
  respond handler VERSION Unmarshal_toolCall toJSON req h = (Some resp, h') ->
  Response_JSONRPC resp = "2.0" /\
  Response_ID resp = ID req /\
  ((Result resp <> None /\ Response_Error resp = None /\
    In (Method req)
      ["initialize"; "tools/list"; "tools/call"; "prompts/list"; "resources/list"]) \/
   (Result resp = None /\
    Response_Error resp
    = Some (mkErrorObject (-32601) ("Method not found: " ++ Method req)) /\
    ~ In (Method req)
        ["initialize"; "tools/list"; "tools/call"; "prompts/list"; "resources/list"])) /\
  (Method req <> "tools/call" -> h' = h).
Proof.
  clear Unmarshal_Request Marshal. unfold respond.
  destruct (match ID req with
            | Some _ => false
            | None => HasPrefix (Method req) "notifications/"
            end); [discriminate|].
  destruct (String.eqb_spec (Method req) "initialize") as [E1|N1].
  { intros Hr. injection Hr as <- <-. rewrite E1. cbn.
    repeat split; try (left; repeat split; [discriminate|tauto]). }
  destruct (String.eqb_spec (Method req) "tools/list") as [E2|N2].
  { intros Hr. injection Hr as <- <-. rewrite E2. cbn.
    repeat split; try (left; repeat split; [discriminate|tauto]). }
  destruct (String.eqb_spec (Method req) "tools/call") as [E3|N3].
  { destruct (handleToolCall _ _ _ _ _) as [result h1].
    intros Hr. injection Hr as <- <-. rewrite E3. cbn.
    repeat split; try (left; repeat split; [discriminate|tauto]).
    intros Hne. contradiction Hne. reflexivity. }
  destruct (String.eqb_spec (Method req) "prompts/list") as [E4|N4].
  { intros Hr. injection Hr as <- <-. rewrite E4. cbn.
    repeat split; try (left; repeat split; [discriminate|tauto]). }
  destruct (String.eqb_spec (Method req) "resources/list") as [E5|N5].
  { intros Hr. injection Hr as <- <-. rewrite E5. cbn.
    repeat split; try (left; repeat split; [discriminate|tauto]). }
  destruct (HasPrefix (Method req) "notifications/"); [discriminate|].
  intros Hr. injection Hr as <- <-. cbn [Response_JSONRPC Response_ID Result Response_Error].
  repeat split. right. repeat split. cbn [In]. intuition congruence.
Qed.

Lemma lookup_None {A : Type} (m : list (string * A)) (key : string) :
  ~ In key (map fst m) -> lookup m key = None.
Proof.
  clear handler VERSION Unmarshal_Request Unmarshal_toolCall Marshal toJSON.
  induction m as [|[k v] m IH]; [reflexivity|].
  cbn [map fst In lookup]. intros Hn.
  destruct (String.eqb_spec k key) as [E|_]; [tauto|]. apply IH. tauto.
Qed.

(** X28. The server dispatches exactly the sixteen tools it lists. A
    call of a listed tool runs the handler method of that tool and
    answers with its result as text, or with the code -32603 and the
    message of its error; a call of any other name is answered with the
    code -32601 and does not reach the handler; parameters that cannot
    be decoded are answered with the code -32602. *)
Theorem handleToolCall_outcomes (params : RawMessage) (h : H) :
  map Name tools = map fst (toolHandlers handler) /\
  NoDup (map Name tools) /\
  (forall err,
      Unmarshal_toolCall params = inr err ->
      handleToolCall handler Unmarshal_toolCall toJSON params h
      = (tool_error (-32602) ("Invalid params: " ++ Error err), h)) /\
  (forall toolCall,
      Unmarshal_toolCall params = inl toolCall ->
      ~ In (ToolCall_Name toolCall) (map Name tools) ->
      handleToolCall handler Unmarshal_toolCall toJSON params h
      = (tool_error (-32601) ("Unknown tool: " ++ ToolCall_Name toolCall), h)) /\
  (forall toolCall,
      Unmarshal_toolCall params = inl toolCall ->
      In (ToolCall_Name toolCall) (map Name tools) ->
      exists handlerFunc,
        In (ToolCall_Name toolCall, handlerFunc) (toolHandlers handler) /\
        handleToolCall handler Unmarshal_toolCall toJSON params h
        = match handlerFunc (Arguments toolCall) h with
          | (inr err, h') => (tool_error (-32603) (Error err), h')
          | (inl result, h') =>
              (VMap [("content",
                      VList [VMap [("type", VString "text");
                                   ("text", VString (toJSON result))]])],
               h')
          end).
Proof.
  clear VERSION Unmarshal_Request Marshal.
  split; [reflexivity|]. split.
  { repeat (constructor; [cbn; intuition discriminate|]). constructor. }
  split; [|split].
  - intros err He. unfold handleToolCall. rewrite He. reflexivity.
  - intros toolCall Hc Hn. unfold handleToolCall. rewrite Hc.
    rewrite lookup_None; [reflexivity|].
    change (map fst (toolHandlers handler)) with (map Name tools). exact Hn.
  - intros toolCall Hc Hin. unfold handleToolCall. rewrite Hc.
    cbn [map Name tools In] in Hin.
    repeat (destruct Hin as [Hin|Hin];
            [rewrite <- Hin; eexists; split;
             [cbn [toolHandlers In]; tauto|reflexivity]|]).
    contradiction.
Qed.

Lemma serve_app (before after : list string) :
  forall h : H,
    Forall (fun line => Z.of_nat (String.length line) < maxTokenSize) before ->
    serve handler VERSION Unmarshal_Request Unmarshal_toolCall Marshal toJSON
      (before ++ after) h
    = ((fst (serve handler VERSION Unmarshal_Request Unmarshal_toolCall Marshal toJSON
               before h)
        ++ fst (serve handler VERSION Unmarshal_Request Unmarshal_toolCall Marshal
                  toJSON after
                  (snd (serve handler VERSION Unmarshal_Request Unmarshal_toolCall
                          Marshal toJSON before h))))%list,
       snd (serve handler VERSION Unmarshal_Request Unmarshal_toolCall Marshal
              toJSON after
              (snd (serve handler VERSION Unmarshal_Request Unmarshal_toolCall
                      Marshal toJSON before h)))).
Proof.
  induction before as [|line rest IH]; intros h Hshort.
  - cbn [app serve fst snd]. apply surjective_pairing.
  - inversion Hshort as [|? ? Hline Hrest]; subst.
    cbn [app serve].
    destruct (Z.leb_spec maxTokenSize (Z.of_nat (String.length line))) as [Hlong|_];
      [lia|].
    destruct (Unmarshal_Request line) as [req|e]; [|apply IH; exact Hrest].
    destruct (respond handler VERSION Unmarshal_toolCall toJSON req h) as [[resp|] h1];
      [|apply IH; exact Hrest].
    destruct (Marshal resp) as [output|e]; [|apply IH; exact Hrest].
    rewrite (IH h1 Hrest).
    destruct (serve handler VERSION Unmarshal_Request Unmarshal_toolCall Marshal toJSON
                rest h1) as [printed h2].
    reflexivity.
Qed.

Lemma serve_length (lines : list string) :
  forall h : H,
    (List.length
       (fst (serve handler VERSION Unmarshal_Request Unmarshal_toolCall Marshal toJSON
               lines h)) <= List.length lines)%nat.
Proof.
  induction lines as [|line rest IH]; intros h; [cbn; lia|].
  cbn [serve].
  destruct (maxTokenSize <=? Z.of_nat (String.length line)); [cbn; lia|].
  destruct (Unmarshal_Request line) as [req|e];
    [|specialize (IH h); cbn [List.length]; lia].
  destruct (respond handler VERSION Unmarshal_toolCall toJSON req h) as [[resp|] h1];
    [|specialize (IH h1); cbn [List.length]; lia].
  destruct (Marshal resp) as [output|e];
    [|specialize (IH h1); cbn [List.length]; lia].
  specialize (IH h1).
  destruct (serve handler VERSION Unmarshal_Request Unmarshal_toolCall Marshal toJSON
              rest h1) as [printed h2].
  cbn [fst List.length] in *. lia.
Qed.

(** X29. The loop answers the lines in their order, with the handler as
    the lines before left it, and prints at most one line for each. A
    line of 1 MiB or more ends the loop: neither it nor any line after it
    is answered. *)
Theorem serve_lines (before after : list string) (h : H) :
  Forall (fun line => Z.of_nat (String.length line) < maxTokenSize) before ->
  (List.length
     (fst (serve handler VERSION Unmarshal_Request Unmarshal_toolCall Marshal toJSON
             before h)) <= List.length before)%nat /\
  serve handler VERSION Unmarshal_Request Unmarshal_toolCall Marshal toJSON
    (before ++ after) h
  = ((fst (serve handler VERSION Unmarshal_Request Unmarshal_toolCall Marshal toJSON
             before h)
      ++ fst (serve handler VERSION Unmarshal_Request Unmarshal_toolCall Marshal
                toJSON after
                (snd (serve handler VERSION Unmarshal_Request Unmarshal_toolCall
                        Marshal toJSON before h))))%list,
     snd (serve handler VERSION Unmarshal_Request Unmarshal_toolCall Marshal
            toJSON after
            (snd (serve handler VERSION Unmarshal_Request Unmarshal_toolCall
                    Marshal toJSON before h)))) /\
  (forall line,
      maxTokenSize <= Z.of_nat (String.length line) ->
      serve handler VERSION Unmarshal_Request Unmarshal_toolCall Marshal toJSON
        (before ++ line :: after) h
      = serve handler VERSION Unmarshal_Request Unmarshal_toolCall Marshal toJSON
          before h).
Proof.
  intros Hshort. split; [apply serve_length|]. split; [apply serve_app; exact Hshort|].
  intros line Hlong. rewrite (serve_app before (line :: after) h Hshort).
  cbn [serve].
  destruct (Z.leb_spec maxTokenSize (Z.of_nat (String.length line))) as [_|Hlt];
    [|lia].
  cbn [fst snd]. rewrite app_nil_r. symmetry. apply surjective_pairing.
Qed.

End ServerLoop.

(** X26 at a concrete request: a notification that carries an id. *)
Lemma respond_silent_iff_witness :
  main.respond main.counting "dev" (fun _ => inr io_EOF) (fun _ => "")
    (main.mkRequest "2.0" (Some "7") "notifications/initialized" None) 0%nat
  = (None, 0%nat).
Proof.
  apply (respond_silent_iff main.counting "dev" (fun _ => inr io_EOF) (fun _ => "")
           (main.mkRequest "2.0" (Some "7") "notifications/initialized" None) 0%nat).
  reflexivity.
Defined.

(** X27 at a concrete request: a method the server does not know, without
    an id. *)
Lemma respond_shape_witness :
  main.Response_ID
    (main.mkResponse "2.0" None None
       (Some (main.mkErrorObject (-32601) "Method not found: ping")))
  = main.ID (main.mkRequest "2.0" None "ping" None).
Proof.
  apply (respond_shape main.counting "dev" (fun _ => inr io_EOF) (fun _ => "")
           (main.mkRequest "2.0" None "ping" None) 0%nat 0%nat
           (main.mkResponse "2.0" None None
              (Some (main.mkErrorObject (-32601) "Method not found: ping")))).
  reflexivity.
Defined.

(** X28 at concrete calls: a tool that is listed and one that is not. *)
Lemma handleToolCall_outcomes_witness :
  main.handleToolCall main.counting
    (fun _ => inl (main.mkToolCall "dropbox_format_disk" None)) (fun _ => "")
    None 0%nat
  = (main.tool_error (-32601) "Unknown tool: dropbox_format_disk", 0%nat) /\
  exists handlerFunc,
    In ("dropbox_list", handlerFunc) (main.toolHandlers main.counting) /\
    main.handleToolCall main.counting
      (fun _ => inl (main.mkToolCall "dropbox_list" None)) (fun _ => "json")
      None 0%nat
    = match handlerFunc None 0%nat with
      | (inr err, h') => (main.tool_error (-32603) (Error err), h')
      | (inl result, h') =>
          (VMap [("content",
                  VList [VMap [("type", VString "text");
                               ("text", VString ((fun _ => "json") result))]])],
           h')
      end.
Proof.
  split.
  - destruct (handleToolCall_outcomes main.counting
                (fun _ => inl (main.mkToolCall "dropbox_format_disk" None))
                (fun _ => "") None 0%nat) as (_ & _ & _ & H & _).
    apply (H (main.mkToolCall "dropbox_format_disk" None)); [reflexivity|].
    cbn. intuition discriminate.
  - destruct (handleToolCall_outcomes main.counting
                (fun _ => inl (main.mkToolCall "dropbox_list" None))
                (fun _ => "json") None 0%nat) as (_ & _ & _ & _ & H).
    apply (H (main.mkToolCall "dropbox_list" None)); [reflexivity|].
    cbn. tauto.
Defined.

(** X29 at concrete lines: a line of 1 MiB between two requests. *)
Lemma serve_lines_witness :
  main.serve main.counting "dev" main.method_line (fun _ => inr io_EOF)
    (fun resp => inl "response") (fun _ => "")
    (["initialize"; "{"]
     ++ string_of_list_ascii (repeat "a"%char (Z.to_nat main.maxTokenSize))
        :: ["tools/list"])%list 0%nat
  = main.serve main.counting "dev" main.method_line (fun _ => inr io_EOF)
      (fun resp => inl "response") (fun _ => "")
      ["initialize"; "{"] 0%nat.
Proof.
  destruct (serve_lines main.counting "dev" main.method_line (fun _ => inr io_EOF)
              (fun resp => inl "response") (fun _ => "")
              ["initialize"; "{"] ["tools/list"] 0%nat) as (_ & _ & H).
  - repeat constructor.
  - apply H. vm_compute. discriminate.
Defined.


(** ** The chunked upload on any reader *)
Section AnyReaderOffsets.

Import session.

Lemma appended_nonneg (calls : list files.Call) : 0 <= appended calls.
Proof.
  induction calls as [|c calls IH]; [cbn; lia|].
  unfold appended in *. cbn [fold_right].
  destruct c as [? ?|? ?|? content|? ?]; try exact IH.
  pose proof (len_nonneg content). lia.
Qed.

(** Inside a chain, every entry is an accepted append at the offset the
    appends before it add up to. *)
Lemma chain_entry (sid : string) (off : Z) (oks : list files.Entry) (off' : Z) :
  chain sid off oks off' ->
  0 <= off ->
  off + appended (map files.call oks) < 2 ^ 64 ->
  forall pre e post,
    oks = (pre ++ e :: post)%list ->
    exists content,
      e = files.mkEntry
            (files.CallAppend
               (files.NewUploadSessionAppendArg
                  (files.NewUploadSessionCursor sid
                     (off + appended (map files.call pre))))
               content)
            false.
Proof.
  induction 1 as [off|off content rest off' Hch IH]; intros Hoff Hfit pre e post Heq.
  - destruct pre; discriminate Heq.
  - cbn [map files.call] in Hfit.
    change (appended (files.CallAppend
                        (files.NewUploadSessionAppendArg
                           (files.NewUploadSessionCursor sid off)) content
                      :: map files.call rest))
      with (len content + appended (map files.call rest)) in Hfit.
    pose proof (len_nonneg content) as Hlen.
    pose proof (appended_nonneg (map files.call rest)) as Hrest.
    assert (Hw : wrap64 (off + wrap64 (len content)) = off + len content).
    { unfold wrap64. rewrite (Z.mod_small (len content)) by lia.
      apply Z.mod_small. lia. }
    destruct pre as [|x pre].
    + cbn [app] in Heq. injection Heq as <- _. exists content.
      cbn [map]. change (appended []) with 0. rewrite Z.add_0_r. reflexivity.
    + cbn [app] in Heq. injection Heq as <- Heq.
      rewrite Hw in IH.
      destruct (IH ltac:(lia) ltac:(lia) pre e post Heq) as (content' & ->).
      exists content'. cbn [map files.call].
      change (appended (files.CallAppend
                          (files.NewUploadSessionAppendArg
                             (files.NewUploadSessionCursor sid off)) content
                        :: map files.call pre))
        with (len content + appended (map files.call pre)).
      rewrite Z.add_assoc. reflexivity.
Qed.

Lemma chain_accepted (sid : string) (off : Z) (oks : list files.Entry) (off' : Z) :
  chain sid off oks off' -> Forall (fun e => files.failed e = false) oks.
Proof. induction 1; constructor; [reflexivity|assumption]. Qed.

(** Where an entry can stand in the record of a run that got past the
    start: it is the start, or an accepted append of the chain, or the
    one entry that follows the chain. *)
Lemma log_position (sid : string) (oks tail : list files.Entry) (off : Z) :
  chain sid 0 oks off ->
  appended (map files.call oks) < 2 ^ 64 ->
  (tail = [] \/ exists t, tail = [t]) ->
  forall pre e post,
    (files.mkEntry start_call false :: oks ++ tail)%list = (pre ++ e :: post)%list ->
    (pre = [] /\ e = files.mkEntry start_call false) \/
    (exists pre' content,
        pre = files.mkEntry start_call false :: pre' /\
        e = files.mkEntry
              (files.CallAppend
                 (files.NewUploadSessionAppendArg
                    (files.NewUploadSessionCursor sid (appended (map files.call pre'))))
                 content)
              false /\
        Forall (fun x => files.failed x = false) pre') \/
    (pre = files.mkEntry start_call false :: oks /\ tail = [e] /\ post = []).
Proof.
  intros Hch Hfit Htail pre e post Heq.
  destruct pre as [|x pre'].
  - left. cbn [app] in Heq. injection Heq as <- _. split; reflexivity.
  - right. cbn [app] in Heq. injection Heq as <- Heq.
    apply app_eq_app in Heq. destruct Heq as (l & [[Hoks Hpost]|[Hpre Ht]]).
    + destruct l as [|y l].
      * right. cbn [app] in Hpost. rewrite app_nil_r in Hoks. subst pre'.
        destruct Htail as [->|(t & ->)]; [discriminate Hpost|].
        injection Hpost as <- <-. repeat split.
      * left. cbn [app] in Hpost. injection Hpost as <- _.
        destruct (chain_entry sid 0 oks off Hch ltac:(lia) ltac:(lia) pre' e l Hoks)
          as (content & ->).
        exists pre', content. split; [reflexivity|]. split; [reflexivity|].
        apply chain_accepted in Hch. rewrite Hoks in Hch.
        apply Forall_app in Hch. apply Hch.
    + right.
      destruct Htail as [->|(t & ->)].
      * destruct l; discriminate Ht.
      * destruct l as [|y l].
        -- cbn [app] in Ht. injection Ht as <- <-.
           rewrite app_nil_r in Hpre. subst pre'. repeat split.
        -- cbn [app] in Ht. injection Ht as _ Ht. destruct l; discriminate Ht.
Qed.

Context {W : Type} (cl : files.Client W).
Context {S : Type} (R : io.Reader S).

(** X30. The chunked upload keeps its offsets on every reader, however it
    cuts the source and whether or not it reports the end together with
    the last bytes. In a run that returns, every append is made at the
    offset that the appends before it add up to, after accepted calls
    only, and a rejected append is the last call; the finish, if there
    is one, is the last call, carries the commit and is made at the
    total of all the appends; and a file is reported only after an
    accepted finish. *)
Theorem uploadLarge_any_reader (fuel : nat) (commit : files.CommitInfo)
    (reader : S) (w : W) (res : result files.FileMetadata) (w' : W)
    (log' : list files.Entry) :
  dropbox.uploadLarge (files.logged cl) R fuel commit reader (w, [])
  = Some (res, (w', log')) ->
  appended (map files.call log') < 2 ^ 64 ->
  (forall pre arg content failed post,
      log' = (pre ++ files.mkEntry (files.CallAppend arg content) failed :: post)%list ->
      files.Offset (files.AppendArg_Cursor arg) = appended (map files.call pre) /\
      Forall (fun e => files.failed e = false) pre /\
      (failed = true -> post = [])) /\
  (forall pre arg content failed post,
      log' = (pre ++ files.mkEntry (files.CallFinish arg content) failed :: post)%list ->
      post = [] /\
      files.Offset (files.FinishArg_Cursor arg) = appended (map files.call pre) /\
      files.FinishArg_Commit arg = commit /\
      Forall (fun e => files.failed e = false) pre /\
      failed = files.is_error res) /\
  (forall m,
      res = inl m ->
      exists pre arg,
        log' = (pre ++ [files.mkEntry (files.CallFinish arg []) false])%list).
Proof.
  intros Hrun Hfit.
  destruct (uploadLarge_chain cl R fuel commit reader w [] res w' log' Hrun)
    as [(err & Hres & Hlog)|(sid & oks & off & tail & Hlog & Hch & Htail)];
    cbn [app] in Hlog.
  - subst log' res. split; [|split].
    + intros pre arg content failed post Heq.
      destruct pre as [|x [|y pre]]; discriminate Heq.
    + intros pre arg content failed post Heq.
      destruct pre as [|x [|y pre]]; discriminate Heq.
    + intros m Hm. discriminate Hm.
  - assert (Hshape : tail = [] \/ exists t, tail = [t]).
    { destruct Htail as [(e & _ & Hst)| ->]; [|right; eexists; reflexivity].
      inversion Hst; [left; reflexivity|right; eexists; reflexivity]. }
    assert (Hoks : appended (map files.call oks) < 2 ^ 64).
    { rewrite Hlog in Hfit. cbn [map] in Hfit.
      change (appended (files.call (files.mkEntry start_call false)
                        :: map files.call (oks ++ tail)))
        with (appended (map files.call (oks ++ tail))) in Hfit.
      rewrite map_app, appended_app in Hfit.
      pose proof (appended_nonneg (map files.call tail)). lia. }
    assert (Hoff : off = appended (map files.call oks)).
    { rewrite (chain_sum sid 0 oks off Hch); lia. }
    assert (Hstart : forall pre',
              appended (map files.call (files.mkEntry start_call false :: pre'))
              = appended (map files.call pre')) by reflexivity.
    split; [|split].
    + intros pre arg content failed post Heq. rewrite Hlog in Heq.
      destruct (log_position sid oks tail off Hch Hoks Hshape pre _ post Heq)
        as [(_ & He)|[(pre' & content' & -> & He & Hacc)|(-> & Ht & ->)]].
      * discriminate He.
      * injection He as -> _ ->. rewrite Hstart.
        split; [reflexivity|]. split; [|discriminate].
        constructor; [reflexivity|exact Hacc].
      * rewrite Hstart, <- Hoff.
        assert (Hacc : Forall (fun e => files.failed e = false)
                         (files.mkEntry start_call false :: oks))
          by (constructor; [reflexivity|exact (chain_accepted _ _ _ _ Hch)]).
        destruct Htail as [(e & _ & Hst)|Hfin].
        -- rewrite Ht in Hst. inversion Hst. repeat split; assumption.
        -- rewrite Ht in Hfin. discriminate Hfin.
    + intros pre arg content failed post Heq. rewrite Hlog in Heq.
      destruct (log_position sid oks tail off Hch Hoks Hshape pre _ post Heq)
        as [(_ & He)|[(pre' & content' & -> & He & Hacc)|(-> & Ht & ->)]].
      * discriminate He.
      * discriminate He.
      * rewrite Hstart, <- Hoff.
        assert (Hacc : Forall (fun e => files.failed e = false)
                         (files.mkEntry start_call false :: oks))
          by (constructor; [reflexivity|exact (chain_accepted _ _ _ _ Hch)]).
        destruct Htail as [(e & _ & Hst)|Hfin].
        -- rewrite Ht in Hst. inversion Hst.
        -- rewrite Ht in Hfin. injection Hfin as -> _ ->.
           repeat split; assumption.
    + intros m ->.
      destruct Htail as [(e & He & _)| ->]; [discriminate He|].
      exists (files.mkEntry start_call false :: oks),
        (files.NewUploadSessionFinishArg (files.NewUploadSessionCursor sid off) commit).
      rewrite Hlog. reflexivity.
Qed.

End AnyReaderOffsets.

(** X30 at a concrete run: five bytes through a reader that hands out two
    at a time and reports the end with the last one. The finish follows
    three appends, at 0, 2 and 4, and is made at 5. *)
Lemma uploadLarge_any_reader_witness :
  files.Offset
    (files.FinishArg_Cursor
       (files.NewUploadSessionFinishArg (files.NewUploadSessionCursor "sid" 5)
          (files.NewCommitInfo "/five")))
  = session.appended
      (map files.call
         [files.mkEntry session.start_call false;
          files.mkEntry
            (files.CallAppend
               (files.NewUploadSessionAppendArg (files.NewUploadSessionCursor "sid" 0))
               (list_byte_of_string "ab")) false;
          files.mkEntry
            (files.CallAppend
               (files.NewUploadSessionAppendArg (files.NewUploadSessionCursor "sid" 2))
               (list_byte_of_string "cd")) false;
          files.mkEntry
            (files.CallAppend
               (files.NewUploadSessionAppendArg (files.NewUploadSessionCursor "sid" 4))
               (list_byte_of_string "e")) false]).
Proof.
  destruct (uploadLarge_any_reader session.accepting session.short_reader 4
              (files.NewCommitInfo "/five") (list_byte_of_string "abcde") tt
              (inl (files.mkFileMetadata "" "/five" 5 0 "rev")) tt
              [files.mkEntry session.start_call false;
               files.mkEntry
                 (files.CallAppend
                    (files.NewUploadSessionAppendArg
                       (files.NewUploadSessionCursor "sid" 0))
                    (list_byte_of_string "ab")) false;
               files.mkEntry
                 (files.CallAppend
                    (files.NewUploadSessionAppendArg
                       (files.NewUploadSessionCursor "sid" 2))
                    (list_byte_of_string "cd")) false;
               files.mkEntry
                 (files.CallAppend
                    (files.NewUploadSessionAppendArg
                       (files.NewUploadSessionCursor "sid" 4))
                    (list_byte_of_string "e")) false;
               files.mkEntry
                 (session.finish_call "sid" 5 (files.NewCommitInfo "/five")) false])
    as (_ & H & _).
  - vm_compute. reflexivity.
  - vm_compute. reflexivity.
  - destruct (H [files.mkEntry session.start_call false;
                 files.mkEntry
                   (files.CallAppend
                      (files.NewUploadSessionAppendArg
                         (files.NewUploadSessionCursor "sid" 0))
                      (list_byte_of_string "ab")) false;
                 files.mkEntry
                   (files.CallAppend
                      (files.NewUploadSessionAppendArg
                         (files.NewUploadSessionCursor "sid" 2))
                      (list_byte_of_string "cd")) false;
                 files.mkEntry
                   (files.CallAppend
                      (files.NewUploadSessionAppendArg
                         (files.NewUploadSessionCursor "sid" 4))
                      (list_byte_of_string "e")) false]
                (files.NewUploadSessionFinishArg
                   (files.NewUploadSessionCursor "sid" 5)
                   (files.NewCommitInfo "/five"))
                [] false [] eq_refl) as (_ & Hoff & _).
    exact Hoff.
Defined.
